(** * network-monitor: the telemetry store, the probe fallback and the sweep

    A shallow embedding of the Go packages [storage] and [collector]:
    - [storage.Store] with its three maps of pointers, the objects they
      point to kept in an explicit heap, so that the sharing between the
      store and the snapshots it hands out is visible;
    - [collector.pingHost], the ICMP-then-TCP fallback, over a network
      oracle with a log of the attempts made;
    - [collector.pingSweep] and [incIP], over 4-byte addresses.

    Go's [float64] is IEEE 754 binary64 with round-to-nearest-even; it is
    modelled by [spec_float] at precision 53 and maximal exponent 1024.
    [uint64], [int] and [time.Duration] are [Z] with the wrap-around written
    out.  [time.Now()] is an input of every operation that reads the clock.
    The store's mutex makes every operation atomic; a run of the program is
    a sequence of calls in the order the lock was taken. *)

From Stdlib Require Import ZArith QArith Floats.SpecFloat Lia Ascii.
From stdpp Require Import gmap strings list fin_maps.

Local Open Scope Z_scope.

(** ** Machine integers *)

Module GoInt.

(** [uint64]: values in [0, 2^64), arithmetic modulo 2^64. *)
Definition wrap_u64 (z : Z) : Z := z mod 2 ^ 64.

Definition min_i64 : Z := - 2 ^ 63.
Definition max_i64 : Z := 2 ^ 63 - 1.

(** [int], [int64] and [time.Duration]: two's complement on 64 bits. *)
Definition wrap_i64 (z : Z) : Z := (z + 2 ^ 63) mod 2 ^ 64 - 2 ^ 63.

Definition in_i64 (z : Z) : Prop := min_i64 <= z <= max_i64.

#[global] Instance in_i64_dec z : Decision (in_i64 z).
Proof. unfold in_i64. apply _. Defined.

(** Signed division of Go truncates toward zero. *)
Definition div_i64 (a b : Z) : Z := wrap_i64 (Z.quot a b).

End GoInt.

Import GoInt.

(** ** float64 *)

Module F64.

Definition t : Type := spec_float.

Definition prec : Z := 53.
Definition emax : Z := 1024.

(** Conversion [float64(n)] of an integer: the nearest binary64, ties to even. *)
Definition of_Z (n : Z) : t := binary_normalize prec emax n 0 false.

Definition zero : t := S754_zero false.

Definition add : t -> t -> t := SFadd prec emax.
Definition mul : t -> t -> t := SFmul prec emax.
Definition div : t -> t -> t := SFdiv prec emax.
Definition ltb : t -> t -> bool := SFltb.

(** The rational a finite float denotes; [None] for infinities and NaN. *)
Definition to_Q (x : t) : option Q :=
  match x with
  | S754_zero _ => Some 0%Q
  | S754_finite s m e =>
      let a := (inject_Z (Z.pos m) * Qpower 2 e)%Q in
      Some (if s then Qopp a else a)
  | _ => None
  end.

End F64.

(** ** time.Time and time.Duration

    A [Time] is a count of nanoseconds, a [Duration] a signed 64-bit
    count of nanoseconds. *)

Module GoTime.

Definition Time : Type := Z.
Definition Duration : Type := Z.

Definition Millisecond : Duration := 1000000.
Definition Second : Duration := 1000000000.
Definition Minute : Duration := 60 * Second.

(** [t.Sub(u)]: the difference, saturated to the range of [Duration]. *)
Definition Sub (t u : Time) : Duration :=
  let d := t - u in
  if d <? min_i64 then min_i64
  else if max_i64 <? d then max_i64
  else d.

(** [t.Add(d)]. *)
Definition Add (t : Time) (d : Duration) : Time := t + d.

(** [t.Before(u)]. *)
Definition Before (t u : Time) : bool := t <? u.

(** [d.Seconds()]: [float64(d / Second) + float64(d % Second) / 1e9]. *)
Definition Seconds (d : Duration) : F64.t :=
  let sec := Z.quot d Second in
  let nsec := Z.rem d Second in
  F64.add (F64.of_Z sec) (F64.div (F64.of_Z nsec) (F64.of_Z 1000000000)).

End GoTime.

Import GoTime.

(** ** The data model of package storage *)

Definition MaxHistoryPoints : nat := 100.
Definition MaxDevices : nat := 256.

Module DataPoint.
Record t : Type := mk {
  Timestamp : Time;
  BytesRx : Z;
  BytesTx : Z;
  SpeedRx : F64.t;
  SpeedTx : F64.t
}.
End DataPoint.

Module InterfaceStats.
Record t : Type := mk {
  Name : string;
  BytesRx : Z;
  BytesTx : Z;
  PacketsRx : Z;
  PacketsTx : Z;
  SpeedRx : F64.t;
  SpeedTx : F64.t;
  History : list DataPoint.t;
  LastCheck : Time
}.

Definition setSpeedRx (v : F64.t) (i : t) : t :=
  mk (Name i) (BytesRx i) (BytesTx i) (PacketsRx i) (PacketsTx i)
     v (SpeedTx i) (History i) (LastCheck i).
Definition setSpeedTx (v : F64.t) (i : t) : t :=
  mk (Name i) (BytesRx i) (BytesTx i) (PacketsRx i) (PacketsTx i)
     (SpeedRx i) v (History i) (LastCheck i).
Definition setHistory (h : list DataPoint.t) (i : t) : t :=
  mk (Name i) (BytesRx i) (BytesTx i) (PacketsRx i) (PacketsTx i)
     (SpeedRx i) (SpeedTx i) h (LastCheck i).
Definition setCounters (rx tx prx ptx : Z) (now : Time) (i : t) : t :=
  mk (Name i) rx tx prx ptx (SpeedRx i) (SpeedTx i) (History i) now.
End InterfaceStats.

Module Device.
Record t : Type := mk {
  IP : string;
  MAC : string;
  Hostname : string;
  LastSeen : Time;
  IsActive : bool;
  Vendor : string
}.

Definition setLastSeen (v : Time) (d : t) : t :=
  mk (IP d) (MAC d) (Hostname d) v (IsActive d) (Vendor d).
Definition setIsActive (v : bool) (d : t) : t :=
  mk (IP d) (MAC d) (Hostname d) (LastSeen d) v (Vendor d).
Definition setHostname (v : string) (d : t) : t :=
  mk (IP d) (MAC d) v (LastSeen d) (IsActive d) (Vendor d).
Definition setMAC (v : string) (d : t) : t :=
  mk (IP d) v (Hostname d) (LastSeen d) (IsActive d) (Vendor d).
End Device.

Module PingPoint.
Record t : Type := mk {
  Timestamp : Time;
  Latency : Duration;
  Success : bool
}.
End PingPoint.

Module PingStats.
Record t : Type := mk {
  Host : string;
  LastLatency : Duration;
  AvgLatency : Duration;
  PacketLoss : F64.t;
  TotalPings : Z;
  FailedPings : Z;
  History : list PingPoint.t;
  LastUpdated : Time
}.

Definition setLastLatency (v : Duration) (p : t) : t :=
  mk (Host p) v (AvgLatency p) (PacketLoss p) (TotalPings p) (FailedPings p)
     (History p) (LastUpdated p).
Definition setAvgLatency (v : Duration) (p : t) : t :=
  mk (Host p) (LastLatency p) v (PacketLoss p) (TotalPings p) (FailedPings p)
     (History p) (LastUpdated p).
Definition setPacketLoss (v : F64.t) (p : t) : t :=
  mk (Host p) (LastLatency p) (AvgLatency p) v (TotalPings p) (FailedPings p)
     (History p) (LastUpdated p).
Definition setTotalPings (v : Z) (p : t) : t :=
  mk (Host p) (LastLatency p) (AvgLatency p) (PacketLoss p) v (FailedPings p)
     (History p) (LastUpdated p).
Definition setFailedPings (v : Z) (p : t) : t :=
  mk (Host p) (LastLatency p) (AvgLatency p) (PacketLoss p) (TotalPings p) v
     (History p) (LastUpdated p).
Definition setHistory (v : list PingPoint.t) (p : t) : t :=
  mk (Host p) (LastLatency p) (AvgLatency p) (PacketLoss p) (TotalPings p)
     (FailedPings p) v (LastUpdated p).
Definition setLastUpdated (v : Time) (p : t) : t :=
  mk (Host p) (LastLatency p) (AvgLatency p) (PacketLoss p) (TotalPings p)
     (FailedPings p) (History p) v.
End PingStats.

(** ** Pointers, the heap and the Store

    The maps of the store hold pointers ([map[string]*InterfaceStats] and
    so on).  A pointer is a [positive]; the objects live in one heap per
    struct type, since Go's types keep pointers of different types apart. *)

Definition ptr : Type := positive.

Record Heap : Type := mkHeap {
  ifaceObjs : gmap ptr InterfaceStats.t;
  deviceObjs : gmap ptr Device.t;
  pingObjs : gmap ptr PingStats.t
}.

Record Store : Type := mkStore {
  Interfaces : gmap string ptr;
  Devices : gmap string ptr;
  PingResults : gmap string ptr;
  LastUpdated : Time
}.

(** The store together with the memory its pointers refer to. *)
Record State : Type := mkState {
  store : Store;
  heap : Heap
}.

(** [&T{...}]: a new object at an address not in use. *)
Definition alloc {A : Type} (x : A) (h : gmap ptr A) : ptr * gmap ptr A :=
  let p := fresh (dom h) in (p, <[p := x]> h).

(** [m[k]] followed by a dereference. *)
Definition deref {A : Type} (m : gmap string ptr) (h : gmap ptr A)
    (k : string) : option A :=
  m !! k ≫= λ p, h !! p.

Definition ifaceOf (st : State) (name : string) : option InterfaceStats.t :=
  deref (Interfaces (store st)) (ifaceObjs (heap st)) name.
Definition deviceOf (st : State) (ip : string) : option Device.t :=
  deref (Devices (store st)) (deviceObjs (heap st)) ip.
Definition pingOf (st : State) (host : string) : option PingStats.t :=
  deref (PingResults (store st)) (pingObjs (heap st)) host.

Definition emptyHeap : Heap := mkHeap ∅ ∅ ∅.

Definition NewStore (now : Time) : State :=
  mkState (mkStore ∅ ∅ ∅ now) emptyHeap.

(** [append(h, p)] followed by [if len(h) > MaxHistoryPoints { h = h[1:] }]. *)
Definition appendBounded {A : Type} (h : list A) (p : A) : list A :=
  let h := h ++ [p] in
  if decide (MaxHistoryPoints < length h)%nat then drop 1 h else h.

(** ** Store.UpdateInterface *)

(** The branch taken when [s.Interfaces[name]] exists, as a function of the
    object the pointer refers to. *)
Definition updateInterfaceStats (now : Time)
    (bytesRx bytesTx packetsRx packetsTx : Z)
    (iface : InterfaceStats.t) : InterfaceStats.t :=
  let timeDiff := Seconds (Sub now (InterfaceStats.LastCheck iface)) in
  let iface :=
    if F64.ltb F64.zero timeDiff then
      let iface :=
        InterfaceStats.setSpeedRx
          (F64.div (F64.of_Z (wrap_u64 (bytesRx - InterfaceStats.BytesRx iface)))
                   timeDiff) iface in
      InterfaceStats.setSpeedTx
        (F64.div (F64.of_Z (wrap_u64 (bytesTx - InterfaceStats.BytesTx iface)))
                 timeDiff) iface
    else iface in
  let point :=
    DataPoint.mk now bytesRx bytesTx
      (InterfaceStats.SpeedRx iface) (InterfaceStats.SpeedTx iface) in
  let iface :=
    InterfaceStats.setHistory
      (appendBounded (InterfaceStats.History iface) point) iface in
  InterfaceStats.setCounters bytesRx bytesTx packetsRx packetsTx now iface.

Definition newInterfaceStats (now : Time) (name : string)
    (bytesRx bytesTx packetsRx packetsTx : Z) : InterfaceStats.t :=
  InterfaceStats.mk name bytesRx bytesTx packetsRx packetsTx
    F64.zero F64.zero [] now.

Definition UpdateInterface (now : Time) (name : string)
    (bytesRx bytesTx packetsRx packetsTx : Z) (st : State) : State :=
  let s := store st in
  let h := heap st in
  match Interfaces s !! name with
  | Some p =>
      let objs :=
        alter (updateInterfaceStats now bytesRx bytesTx packetsRx packetsTx)
              p (ifaceObjs h) in
      mkState (mkStore (Interfaces s) (Devices s) (PingResults s) now)
              (mkHeap objs (deviceObjs h) (pingObjs h))
  | None =>
      let '(p, objs) :=
        alloc (newInterfaceStats now name bytesRx bytesTx packetsRx packetsTx)
              (ifaceObjs h) in
      mkState (mkStore (<[name := p]> (Interfaces s)) (Devices s)
                       (PingResults s) now)
              (mkHeap objs (deviceObjs h) (pingObjs h))
  end.

(** ** Store.UpdateDevice *)

Definition updateDeviceObj (now : Time) (mac hostname : string)
    (device : Device.t) : Device.t :=
  let device := Device.setLastSeen now device in
  let device := Device.setIsActive true device in
  let device :=
    if decide (hostname ≠ "" ∧ Device.Hostname device = "")
    then Device.setHostname hostname device else device in
  if decide (mac ≠ "" ∧ Device.MAC device = "")
  then Device.setMAC mac device else device.

Definition newDevice (now : Time) (ip mac hostname : string) : Device.t :=
  Device.mk ip mac hostname now true "".

Definition UpdateDevice (now : Time) (ip mac hostname : string)
    (st : State) : State :=
  let s := store st in
  let h := heap st in
  match Devices s !! ip with
  | Some p =>
      let objs := alter (updateDeviceObj now mac hostname) p (deviceObjs h) in
      mkState s (mkHeap (ifaceObjs h) objs (pingObjs h))
  | None =>
      let '(p, objs) := alloc (newDevice now ip mac hostname) (deviceObjs h) in
      mkState (mkStore (Interfaces s) (<[ip := p]> (Devices s))
                       (PingResults s) (LastUpdated s))
              (mkHeap (ifaceObjs h) objs (pingObjs h))
  end.

(** ** Store.StorePingData *)

(** [float64(failed) / float64(total) * 100]. *)
Definition packetLoss (failed total : Z) : F64.t :=
  F64.mul (F64.div (F64.of_Z failed) (F64.of_Z total)) (F64.of_Z 100).

(** The rescan of the history: [total] and [count] start from the new
    sample and grow by every successful point. *)
Definition rescan (rtt : Duration) (history : list PingPoint.t) : Z * Z :=
  foldl (λ '(total, count) point,
           if PingPoint.Success point
           then (wrap_i64 (total + PingPoint.Latency point),
                 wrap_i64 (count + 1))
           else (total, count))
        (rtt, 1) history.

Definition updatePingStats (now : Time) (rtt : Duration) (success : bool)
    (ping : PingStats.t) : PingStats.t :=
  let ping :=
    PingStats.setTotalPings (wrap_i64 (PingStats.TotalPings ping + 1)) ping in
  let ping :=
    if negb success
    then PingStats.setFailedPings
           (wrap_i64 (PingStats.FailedPings ping + 1)) ping
    else PingStats.setLastLatency rtt ping in
  let ping :=
    PingStats.setPacketLoss
      (packetLoss (PingStats.FailedPings ping) (PingStats.TotalPings ping))
      ping in
  let ping :=
    if success && bool_decide (0 < length (PingStats.History ping))%nat then
      let '(total, count) := rescan rtt (PingStats.History ping) in
      PingStats.setAvgLatency (div_i64 total count) ping
    else ping in
  let point := PingPoint.mk now rtt success in
  let ping :=
    PingStats.setHistory (appendBounded (PingStats.History ping) point) ping in
  PingStats.setLastUpdated now ping.

Definition newPingStats (now : Time) (host : string) (rtt : Duration)
    (success : bool) : PingStats.t :=
  let avgLatency := if success then rtt else 0 in
  let packetLoss := if success then F64.zero else F64.of_Z 100 in
  let failedPings := if success then 0 else 1 in
  PingStats.mk host rtt avgLatency packetLoss 1 failedPings
    [PingPoint.mk now rtt success] now.

(** [method] is received and not used: no field of the store holds it. *)
Definition StorePingData (now : Time) (host : string) (rtt : Duration)
    (success : bool) (method : string) (st : State) : State :=
  let s := store st in
  let h := heap st in
  match PingResults s !! host with
  | Some p =>
      let objs := alter (updatePingStats now rtt success) p (pingObjs h) in
      mkState (mkStore (Interfaces s) (Devices s) (PingResults s) now)
              (mkHeap (ifaceObjs h) (deviceObjs h) objs)
  | None =>
      let '(p, objs) := alloc (newPingStats now host rtt success) (pingObjs h) in
      mkState (mkStore (Interfaces s) (Devices s)
                       (<[host := p]> (PingResults s)) now)
              (mkHeap (ifaceObjs h) (deviceObjs h) objs)
  end.

(** ** The snapshot operations *)

(** [GetInterfaces] and [GetPings] build a new map and copy each pointer
    into it: the result maps every key to the same object as the store. *)
Definition GetInterfaces (st : State) : gmap string ptr :=
  map_fold (λ k v result, <[k := v]> result) ∅ (Interfaces (store st)).

Definition GetPings (st : State) : gmap string ptr :=
  map_fold (λ k v result, <[k := v]> result) ∅ (PingResults (store st)).

(** [GetDevices] copies each struct ([device := *v]), overrides [IsActive]
    in the copy when the device was last seen before the cutoff, and stores
    the address of the copy.  The copies are new objects of the heap.  A
    pointer of the map always refers to an object, so the [None] case of
    the dereference is not met on a state the operations produce. *)
Definition snapshotDevice (cutoff : Time) (v : Device.t) : Device.t :=
  let device := v in
  if Before (Device.LastSeen device) cutoff
  then Device.setIsActive false device else device.

Definition GetDevices (now : Time) (st : State)
    : gmap string ptr * gmap ptr Device.t :=
  let cutoff := Add now (- 5 * Minute) in
  map_fold (λ k v '(result, objs),
              match objs !! v with
              | Some d =>
                  let '(p, objs) := alloc (snapshotDevice cutoff d) objs in
                  (<[k := p]> result, objs)
              | None => (result, objs)
              end)
           (∅, deviceObjs (heap st)) (Devices (store st)).

(** ** Sequences of calls *)

Inductive Call : Type :=
  | CallUpdateInterface (now : Time) (name : string)
      (bytesRx bytesTx packetsRx packetsTx : Z)
  | CallUpdateDevice (now : Time) (ip mac hostname : string)
  | CallStorePingData (now : Time) (host : string) (rtt : Duration)
      (success : bool) (method : string).

Definition call (st : State) (c : Call) : State :=
  match c with
  | CallUpdateInterface now name rx tx prx ptx =>
      UpdateInterface now name rx tx prx ptx st
  | CallUpdateDevice now ip mac hostname => UpdateDevice now ip mac hostname st
  | CallStorePingData now host rtt success method =>
      StorePingData now host rtt success method st
  end.

Definition run (cs : list Call) (st : State) : State := foldl call st cs.

(** ** Writes through a pointer a caller holds

    What code outside the store does with [m[k].Field = v], for a map [m]
    it was given. *)

Definition writeIface (p : ptr) (f : InterfaceStats.t → InterfaceStats.t)
    (st : State) : State :=
  mkState (store st)
    (mkHeap (alter f p (ifaceObjs (heap st))) (deviceObjs (heap st))
            (pingObjs (heap st))).

Definition writeDevice (p : ptr) (f : Device.t → Device.t)
    (st : State) : State :=
  mkState (store st)
    (mkHeap (ifaceObjs (heap st)) (alter f p (deviceObjs (heap st)))
            (pingObjs (heap st))).

Definition writePing (p : ptr) (f : PingStats.t → PingStats.t)
    (st : State) : State :=
  mkState (store st)
    (mkHeap (ifaceObjs (heap st)) (deviceObjs (heap st))
            (alter f p (pingObjs (heap st)))).

(** The state once [GetDevices] has allocated its copies. *)
Definition withDevices (objs : gmap ptr Device.t) (st : State) : State :=
  mkState (store st)
    (mkHeap (ifaceObjs (heap st)) objs (pingObjs (heap st))).


(** ** Store.UpdatePing

    The older of the two functions that record a probe.  Its branch for a
    host the store holds is the one of [StorePingData]; for a new host it
    leaves [AvgLatency] and [PacketLoss] at their zero values, then sets the
    failure fields through the map when the probe failed; it does not touch
    [LastUpdated] of the store. *)
Definition UpdatePing (now : Time) (host : string) (latency : Duration)
    (success : bool) (st : State) : State :=
  let s := store st in
  let h := heap st in
  match PingResults s !! host with
  | Some p =>
      let objs := alter (updatePingStats now latency success) p (pingObjs h) in
      mkState s (mkHeap (ifaceObjs h) (deviceObjs h) objs)
  | None =>
      let '(p, objs) :=
        alloc (PingStats.mk host latency 0 F64.zero 1 0
                 [PingPoint.mk now latency success] now) (pingObjs h) in
      let results := <[host := p]> (PingResults s) in
      let objs :=
        if negb success then
          match results !! host with
          | Some q =>
              alter (PingStats.setPacketLoss (F64.of_Z 100)) q
                (alter (PingStats.setFailedPings 1) q objs)
          | None => objs
          end
        else objs in
      mkState (mkStore (Interfaces s) (Devices s) results (LastUpdated s))
              (mkHeap (ifaceObjs h) (deviceObjs h) objs)
  end.
(** * The probe of one host: ICMP, then TCP *)

(** ** The network

    [pingICMP] and [tcpPing] talk to the network.  What they return is
    given by an oracle, [None] standing for a non-nil error; every call is
    written to a log, so that which attempts were made, and in which order,
    can be stated.  One call of [pingHost] makes each attempt at most once,
    so an oracle that is a function of the attempt loses nothing. *)

Inductive Attempt : Type :=
  | ICMP (host : string)
  | TCP (host port : string).

Definition Net (A : Type) : Type :=
  (Attempt → option Duration) → list Attempt → A * list Attempt.

#[global] Instance Net_ret : MRet Net := λ A x _ log, (x, log).
#[global] Instance Net_bind : MBind Net :=
  λ A B f m net log, let '(x, log) := m net log in f x net log.

Definition attempt (a : Attempt) : Net (option Duration) :=
  λ net log, (net a, log ++ [a]).

Definition pingICMP (host : string) : Net (option Duration) :=
  attempt (ICMP host).

Definition tcpPing (host port : string) (timeout : Duration)
    : Net (option Duration) :=
  attempt (TCP host port).

Module PingResult.
Record t : Type := mk {
  Host : string;
  RTT : Duration;
  Success : bool;
  Method : string;
  Error : option string
}.
End PingResult.

Definition tcpPorts : list string := ["80"; "443"; "53"; "22"].

(** The loop over the ports, with the return that follows it. *)
Fixpoint tcpFallback (host : string) (ports : list string)
    : Net PingResult.t :=
  match ports with
  | [] =>
      mret (PingResult.mk host 0 false "FAILED"
              (Some "both ICMP and TCP ping failed"))
  | port :: ports =>
      r ← tcpPing host port (3 * Second);
      match r with
      | Some rtt =>
          mret (PingResult.mk host rtt true ("TCP:" +:+ port) None)
      | None => tcpFallback host ports
      end
  end.

Definition pingHost (host : string) : Net PingResult.t :=
  r ← pingICMP host;
  match r with
  | Some rtt => mret (PingResult.mk host rtt true "ICMP" None)
  | None => tcpFallback host tcpPorts
  end.

(** [collectPingData]: every target is probed and what the probe returned
    is handed to the store.  [clock] is the time [StorePingData] reads,
    given the attempts made so far. *)
Fixpoint collectPingData (targets : list string)
    (net : Attempt → option Duration) (clock : list Attempt → Time)
    (log : list Attempt) (st : State) : list Attempt * State :=
  match targets with
  | [] => (log, st)
  | target :: targets =>
      let '(result, log) := pingHost target net log in
      let st :=
        StorePingData (clock log) target (PingResult.RTT result)
          (PingResult.Success result) (PingResult.Method result) st in
      collectPingData targets net clock log st
  end.


(** * The sweep of the local subnet *)

(** ** Addresses

    A [net.IP] is a slice of bytes, four of them for IPv4; a byte is a [Z]
    in [0, 256). *)

Definition IP : Type := list Z.

Definition isByte (b : Z) : Prop := 0 <= b < 256.
Definition isIPv4 (ip : IP) : Prop := length ip = 4%nat ∧ Forall isByte ip.

(** [incIP]: the loop runs [j] from [len(ip) - 1] down to 0, adds one to
    [ip[j]] as a byte and stops at the first byte that did not wrap to 0.
    [n] is [j + 1]. *)
Fixpoint incIP_from (n : nat) (ip : IP) : IP :=
  match n with
  | O => ip
  | S j =>
      let ip := <[j := (ip !!! j + 1) mod 256]> ip in
      if decide (ip !!! j ≠ 0) then ip else incIP_from j ip
  end.

Definition incIP (ip : IP) : IP := incIP_from (length ip) ip.

(** [net.CIDRMask(ones, bits)], the loop over the [l] bytes of the mask:
    [0xff] while at least 8 ones remain, then [^byte(0xff >> n)]. *)
Fixpoint maskBytes (l : nat) (n : Z) : list Z :=
  match l with
  | O => []
  | S l =>
      if 8 <=? n then 255 :: maskBytes l (n - 8)
      else Z.lxor 255 (Z.shiftr 255 n) :: maskBytes l 0
  end.

Definition CIDRMask (ones bits : Z) : option (list Z) :=
  if decide (bits ≠ 32 ∧ bits ≠ 128) then None
  else if decide (ones < 0 ∨ bits < ones) then None
  else Some (maskBytes (Z.to_nat (bits / 8)) ones).

(** [ip.Mask(mask)] for an address and a mask of the same length. *)
Definition Mask (ip : IP) (mask : list Z) : IP := zip_with Z.land ip mask.

Record IPNet : Type := mkIPNet {
  netIP : IP;
  netMask : list Z
}.

(** [n.Contains(ip)]: the lengths agree and the address and the network
    number agree on every byte under the mask. *)
Definition Contains (n : IPNet) (ip : IP) : bool :=
  bool_decide (length ip = length (netIP n)) &&
  bool_decide (zip_with Z.land (netIP n) (netMask n) =
               zip_with Z.land ip (netMask n)).

(** [net.ParseCIDR] on the text [a.b.c.d/ones]: what it returns for the
    address [a.b.c.d] and the prefix length [ones] it has read, an error
    when the prefix length is not within 0 and 32. *)
Definition ParseCIDR (addr : IP) (ones : Z) : option IPNet :=
  mask ← CIDRMask ones 32;
  Some (mkIPNet (Mask addr mask) mask).

(** ** Dotted decimal *)

Definition digit (d : Z) : string :=
  String (Ascii.ascii_of_nat (48 + Z.to_nat d)) "".

(** A byte in decimal, without leading zeros. *)
Definition byteString (b : Z) : string :=
  if b <? 10 then digit b
  else if b <? 100 then digit (b / 10) +:+ digit (b mod 10)
  else digit (b / 100) +:+ digit (b / 10 mod 10) +:+ digit (b mod 10).

(** [ip.String()] of a 4-byte address. *)
Definition ipString (ip : IP) : string :=
  match ip with
  | [a; b; c; d] =>
      byteString a +:+ "." +:+ byteString b +:+ "." +:+
      byteString c +:+ "." +:+ byteString d
  | _ => "?"
  end.

Fixpoint isPrefix (p s : list Ascii.ascii) : bool :=
  match p, s with
  | [], _ => true
  | _ :: _, [] => false
  | a :: p, b :: s => bool_decide (a = b) && isPrefix p s
  end.

(** [strings.HasSuffix(s, suffix)]. *)
Definition HasSuffix (s suffix : string) : bool :=
  isPrefix (rev (String.list_ascii_of_string suffix))
           (rev (String.list_ascii_of_string s)).

(** ** pingSweep

    [ping] stands for [dc.ping], the external command.  The loop has no
    bound of its own: [fuel] bounds the number of its iterations, and the
    result is [None] when that is not enough.  The result holds the
    addresses handed to [ping], in order, and the slice [active]. *)
Fixpoint sweepLoop (fuel : nat) (ping : string → bool) (ipnet : IPNet)
    (ip : IP) (probed active : list string)
    : option (list string * list string) :=
  match fuel with
  | O => None
  | S fuel =>
      if Contains ipnet ip then
        let ipStr := ipString ip in
        if HasSuffix ipStr ".0" || HasSuffix ipStr ".255" then
          sweepLoop fuel ping ipnet (incIP ip) probed active
        else if ping ipStr then
          sweepLoop fuel ping ipnet (incIP ip)
            (probed ++ [ipStr]) (active ++ [ipStr])
        else
          sweepLoop fuel ping ipnet (incIP ip) (probed ++ [ipStr]) active
      else Some (probed, active)
  end.

Definition pingSweep (fuel : nat) (ping : string → bool)
    (addr : IP) (ones : Z) : option (list string * list string) :=
  match ParseCIDR addr ones with
  | None => Some ([], [])
  | Some ipnet =>
      sweepLoop fuel ping ipnet (Mask (netIP ipnet) (netMask ipnet)) [] []
  end.

(** * The targets of the ping collector *)

(** [ip.To4()]: the four bytes of an IPv4 address, given as 4 bytes or as
    the 16 bytes of an IPv4-mapped address; nil for anything else. *)
Definition To4 (ip : IP) : option IP :=
  if decide (length ip = 4%nat) then Some ip
  else if decide (length ip = 16%nat ∧ take 10 ip = replicate 10 0 ∧
                  ip !!! 10%nat = 255 ∧ ip !!! 11%nat = 255)
  then Some (drop 12 ip)
  else None.

(** [net.ParseIP(ip.String())]: the text of a slice of 4 or 16 bytes reads
    back as the 16-byte form of the same address; the text of a slice of
    another length is not an address. *)
Definition reparse (ip : IP) : option IP :=
  if decide (length ip = 4%nat)
  then Some (replicate 10 0 ++ [255; 255] ++ ip)
  else if decide (length ip = 16%nat) then Some ip
  else None.

(** [fmt.Sprintf("%d.%d.%d.1", octets[0], octets[1], octets[2])]. *)
Definition gatewayOf (octets : IP) : string :=
  byteString (octets !!! 0%nat) +:+ "." +:+
  byteString (octets !!! 1%nat) +:+ "." +:+
  byteString (octets !!! 2%nat) +:+ ".1".

(** [isValidGateway]: a TCP connection to port 80, then to port 53. *)
Definition isValidGateway (ip : string) : Net bool :=
  r ← attempt (TCP ip "80");
  match r with
  | Some _ => mret true
  | None =>
      r ← attempt (TCP ip "53");
      match r with
      | Some _ => mret true
      | None => mret false
      end
  end.

(** [getGatewayIP].  [dial] is what the UDP dial to 8.8.8.8:80 gives: the
    local address of the connection, [None] for an error. *)
Definition getGatewayIP (dial : option IP) : Net string :=
  match dial with
  | None => mret ""
  | Some localAddr =>
      match reparse localAddr with
      | None => mret ""
      | Some ip =>
          match To4 ip with
          | Some octets =>
              let gateway := gatewayOf octets in
              ok ← isValidGateway gateway;
              if ok : bool then mret gateway else mret ""
          | None => mret ""
          end
      end
  end.

Definition defaultTargets : list string := ["8.8.8.8"; "1.1.1.1"; "127.0.0.1"].

(** [NewPingCollector]: the targets of the collector it returns. *)
Definition NewPingCollector (dial : option IP) : Net (list string) :=
  gateway ← getGatewayIP dial;
  mret (if decide (gateway ≠ "") then gateway :: defaultTargets
        else defaultTargets).

(** * The traffic collector *)

(** The fields of gopsutil's [IOCountersStat] the collector reads. *)
Module IOCountersStat.
Record t : Type := mk {
  Name : string;
  BytesSent : Z;
  BytesRecv : Z;
  PacketsSent : Z;
  PacketsRecv : Z
}.
End IOCountersStat.

(** The loop of [collectTrafficStats]; [clock k] is the time
    [UpdateInterface] reads in iteration [k]. *)
Fixpoint updateInterfaces (clock : nat → Time) (k : nat)
    (interfaces : list IOCountersStat.t) (st : State) : State :=
  match interfaces with
  | [] => st
  | iface :: interfaces =>
      if bool_decide (IOCountersStat.Name iface = "lo") ||
         bool_decide (IOCountersStat.Name iface =
                        "Loopback Pseudo-Interface 1")
      then updateInterfaces clock (S k) interfaces st
      else
        updateInterfaces clock (S k) interfaces
          (UpdateInterface (clock k) (IOCountersStat.Name iface)
             (IOCountersStat.BytesRecv iface) (IOCountersStat.BytesSent iface)
             (IOCountersStat.PacketsRecv iface)
             (IOCountersStat.PacketsSent iface) st)
  end.

(** [counters] is what [net.IOCounters(true)] returns, [None] for an
    error. *)
Definition collectTrafficStats (counters : option (list IOCountersStat.t))
    (clock : nat → Time) (st : State) : State :=
  match counters with
  | None => st
  | Some interfaces => updateInterfaces clock 0 interfaces st
  end.

(** * The handlers of package api *)

(** What [sendResponse] writes: the HTTP status code and the fields of the
    JSON body.  [Data] is the object a pointer leads to when the body is
    encoded. *)
Module APIResponse.
Record t (A : Type) : Type := mk {
  StatusCode : Z;
  Status : string;
  Data : option A;
  Error : string;
  Timestamp : Time
}.
Arguments mk {A}.
Arguments StatusCode {A}.
Arguments Status {A}.
Arguments Data {A}.
Arguments Error {A}.
Arguments Timestamp {A}.
End APIResponse.

Definition StatusOK : Z := 200.
Definition StatusNotFound : Z := 404.

Definition sendResponse {A : Type} (now : Time) (status : string)
    (data : option A) (err : string) (statusCode : Z) : APIResponse.t A :=
  APIResponse.mk statusCode status data err now.

Definition GetInterfaceTraffic (now : Time) (interfaceName : string)
    (st : State) : APIResponse.t InterfaceStats.t :=
  let interfaces := GetInterfaces st in
  match interfaces !! interfaceName with
  | Some iface =>
      sendResponse now "success" (ifaceObjs (heap st) !! iface) "" StatusOK
  | None => sendResponse now "error" None "Interface not found" StatusNotFound
  end.

Definition GetPing (now : Time) (host : string) (st : State)
    : APIResponse.t PingStats.t :=
  let pings := GetPings st in
  match pings !! host with
  | Some ping =>
      sendResponse now "success" (pingObjs (heap st) !! ping) "" StatusOK
  | None => sendResponse now "error" None "Host not found" StatusNotFound
  end.

(** The devices a snapshot of [GetDevices] leads to, in the order the map
    is ranged over. *)
Definition rangeDevices (snapshot : gmap string ptr * gmap ptr Device.t)
    : list Device.t :=
  omap (λ kv, snapshot.2 !! kv.2) (map_to_list snapshot.1).

(** The body of [GetDevices] of the handler: the list and its length. *)
Definition GetDevicesList (now : Time) (st : State) : list Device.t * nat :=
  let devices := GetDevices now st in
  let deviceList := rangeDevices devices in
  (deviceList, length deviceList).

(** The body of [GetActiveDevices]: the devices of the snapshot whose
    [IsActive] is set, and their number. *)
Definition GetActiveDevices (now : Time) (st : State)
    : list Device.t * nat :=
  let devices := GetDevices now st in
  let activeDevices :=
    filter (λ device, Device.IsActive device = true) (rangeDevices devices) in
  (activeDevices, length activeDevices).

(** The two counts of [getLiveData]: [active_devices] and
    [total_devices]. *)
Definition liveDeviceCounts (now : Time) (st : State) : nat * nat :=
  let devices := GetDevices now st in
  let activeCount :=
    foldl (λ activeCount device,
             if Device.IsActive device then S activeCount else activeCount)
          O (rangeDevices devices) in
  (activeCount, size devices.1).

(** * Device discovery *)

(** ** The strings functions the parser uses

    [strings.Fields], [strings.Count] with a one-byte separator,
    [strings.ToLower] and [strings.Trim], as they act on ASCII text: a
    string is its sequence of bytes, the spaces are the six ASCII ones, and
    only the letters [A] to [Z] have a lower case.  The output of [arp] is
    taken to be ASCII. *)

Definition isSpace (c : ascii) : bool :=
  let n := nat_of_ascii c in
  bool_decide (n = 9 ∨ n = 10 ∨ n = 11 ∨ n = 12 ∨ n = 13 ∨ n = 32)%nat.

(** The loop of [Fields]: [word] is the field being read. *)
Fixpoint fieldsFrom (word : string) (s : string) : list string :=
  match s with
  | EmptyString => if decide (word = "") then [] else [word]
  | String c s =>
      if isSpace c then
        if decide (word = "") then fieldsFrom "" s
        else word :: fieldsFrom "" s
      else fieldsFrom (word +:+ String c "") s
  end.

Definition Fields (s : string) : list string := fieldsFrom "" s.

(** [strings.Count(s, sep)] for a separator of one byte. *)
Fixpoint Count (s : string) (sep : ascii) : nat :=
  match s with
  | EmptyString => 0
  | String c s => (if decide (c = sep) then 1 else 0) + Count s sep
  end.

Definition lowerByte (c : ascii) : ascii :=
  let n := nat_of_ascii c in
  if bool_decide (65 ≤ n ≤ 90)%nat then ascii_of_nat (n + 32) else c.

Fixpoint ToLower (s : string) : string :=
  match s with
  | EmptyString => EmptyString
  | String c s => String (lowerByte c) (ToLower s)
  end.

Fixpoint TrimLeft (s : string) (cutset : list ascii) : string :=
  match s with
  | EmptyString => EmptyString
  | String c s' => if bool_decide (c ∈ cutset) then TrimLeft s' cutset else s
  end.

Definition TrimRight (s : string) (cutset : list ascii) : string :=
  String.string_of_list_ascii
    (rev (String.list_ascii_of_string
            (TrimLeft (String.string_of_list_ascii
                         (rev (String.list_ascii_of_string s))) cutset))).

Definition Trim (s : string) (cutset : list ascii) : string :=
  TrimRight (TrimLeft s cutset) cutset.

(** ** The parser of the ARP table *)

Module DeviceInfo.
Record t : Type := mk {
  IP : string;
  MAC : string;
  Hostname : string
}.
Definition setHostname (v : string) (d : t) : t := mk (IP d) (MAC d) v.
End DeviceInfo.

(** The loop of [extractMAC] over the fields. *)
Fixpoint firstMAC (words : list string) : string :=
  match words with
  | [] => ""
  | word :: words =>
      if decide (Count word ":"%char = 5%nat) then ToLower word
      else firstMAC words
  end.

Definition extractMAC (s : string) : string := firstMAC (Fields s).

(** [extractIP].  [parseIP s] is the text [ip.String()] of the address
    [net.ParseIP(s)] returns, [None] when it returns nil. *)
Definition extractIP (parseIP : string → option string) (s : string)
    : string :=
  let s := Trim s ["("%char; ")"%char] in
  match parseIP s with
  | Some text => text
  | None => ""
  end.

(** The body of the loop of [parseARPTable] for one line of output. *)
Definition parseLine (parseIP : string → option string)
    (devices : gmap string DeviceInfo.t) (line : string)
    : gmap string DeviceInfo.t :=
  let parts := Fields line in
  if decide (length parts < 2)%nat then devices
  else
    let ip := extractIP parseIP (parts !!! 0%nat) in
    let mac := extractMAC line in
    if decide (ip ≠ "" ∧ mac ≠ "")
    then <[ip := DeviceInfo.mk ip mac ""]> devices
    else devices.

(** [parseARPTable].  [output] holds the lines of what [arp -a] printed,
    [None] when the command failed.  The map is local to one round of
    discovery: its values are kept by value. *)
Definition parseARPTable (parseIP : string → option string)
    (output : option (list string)) : gmap string DeviceInfo.t :=
  match output with
  | None => ∅
  | Some lines => foldl (parseLine parseIP) ∅ lines
  end.

(** ** One round of discovery *)

(** The body of the loop over the result of the sweep. *)
Definition addSwept (devices : gmap string DeviceInfo.t) (ip : string)
    : gmap string DeviceInfo.t :=
  match devices !! ip with
  | Some _ => devices
  | None => <[ip := DeviceInfo.mk ip "" ""]> devices
  end.

(** The loop over the devices found; [clock k] is the time [UpdateDevice]
    reads in iteration [k], [resolve] is [resolveHostname]. *)
Fixpoint updateDevices (resolve : string → string) (clock : nat → Time)
    (k : nat) (devices : list (string * DeviceInfo.t)) (st : State) : State :=
  match devices with
  | [] => st
  | (_, device) :: devices =>
      let device :=
        if decide (DeviceInfo.Hostname device = "")
        then DeviceInfo.setHostname (resolve (DeviceInfo.IP device)) device
        else device in
      updateDevices resolve clock (S k) devices
        (UpdateDevice (clock k) (DeviceInfo.IP device) (DeviceInfo.MAC device)
           (DeviceInfo.Hostname device) st)
  end.

(** [discoverDevices].  [subnet] is the address and the prefix length of
    the text [getLocalSubnet] returned, [None] for the empty text.  The
    map is ranged over in the order of [map_to_list]; the result is [None]
    when the sweep does not end within [fuel] iterations. *)
Definition discoverDevices (fuel : nat) (parseIP : string → option string)
    (output : option (list string)) (subnet : option (IP * Z))
    (ping : string → bool) (resolve : string → string) (clock : nat → Time)
    (st : State) : option State :=
  let devices := parseARPTable parseIP output in
  devices ←
    match subnet with
    | Some (addr, ones) =>
        swept ← pingSweep fuel ping addr ones;
        Some (foldl addSwept devices swept.2)
    | None => Some devices
    end;
  Some (updateDevices resolve clock 0 (map_to_list devices) st).

(** ** The CSV export *)

(** The formatting functions of the standard library the export calls:
    [t.Format(time.RFC3339)], [strconv.FormatUint(n, 10)] and
    [fmt.Sprintf("%.2f", x)]. *)
Module Formats.
Record t : Type := mk {
  fmtTime : Time → string;
  fmtUint : Z → string;
  fmtFloat2 : F64.t → string
}.
End Formats.

(** [strconv.FormatBool]. *)
Definition FormatBool (b : bool) : string := if b then "true" else "false".

Definition StatusBadRequest : Z := 400.

(** The records handed to [writer.Write], in order. *)
Definition trafficRow (f : Formats.t) (iface : InterfaceStats.t)
    (point : DataPoint.t) : list string :=
  [Formats.fmtTime f (DataPoint.Timestamp point);
   InterfaceStats.Name iface;
   Formats.fmtUint f (DataPoint.BytesRx point);
   Formats.fmtUint f (DataPoint.BytesTx point);
   Formats.fmtFloat2 f (DataPoint.SpeedRx point);
   Formats.fmtFloat2 f (DataPoint.SpeedTx point)].

Definition exportTrafficCSV (f : Formats.t) (st : State)
    : list (list string) :=
  let interfaces := GetInterfaces st in
  ["Timestamp"; "Interface"; "Bytes_RX"; "Bytes_TX"; "Speed_RX"; "Speed_TX"]
  :: (map_to_list interfaces ≫= λ kv,
        match ifaceObjs (heap st) !! kv.2 with
        | Some iface => trafficRow f iface <$> InterfaceStats.History iface
        | None => []
        end).

Definition deviceRow (f : Formats.t) (device : Device.t) : list string :=
  [Device.IP device; Device.MAC device; Device.Hostname device;
   Formats.fmtTime f (Device.LastSeen device);
   FormatBool (Device.IsActive device)].

Definition exportDevicesCSV (f : Formats.t) (now : Time) (st : State)
    : list (list string) :=
  let devices := GetDevices now st in
  ["IP"; "MAC"; "Hostname"; "Last_Seen"; "Active"]
  :: (deviceRow f <$> rangeDevices devices).

(** [latencyMs] is [float64(point.Latency.Nanoseconds()) / 1000000.0]. *)
Definition pingRow (f : Formats.t) (host : string) (point : PingPoint.t)
    : list string :=
  let latencyMs :=
    F64.div (F64.of_Z (PingPoint.Latency point)) (F64.of_Z 1000000) in
  [Formats.fmtTime f (PingPoint.Timestamp point);
   host;
   Formats.fmtFloat2 f latencyMs;
   FormatBool (PingPoint.Success point)].

Definition exportPingCSV (f : Formats.t) (st : State) : list (list string) :=
  let pings := GetPings st in
  ["Timestamp"; "Host"; "Latency_MS"; "Success"]
  :: (map_to_list pings ≫= λ kv,
        match pingObjs (heap st) !! kv.2 with
        | Some ping => pingRow f kv.1 <$> PingStats.History ping
        | None => []
        end).

(** [ExportCSV]: the records written, or the status and the text of the
    error. *)
Definition ExportCSV (f : Formats.t) (now : Time) (dataType : string)
    (st : State) : list (list string) + Z * string :=
  let dataType := if decide (dataType = "") then "traffic" else dataType in
  if decide (dataType = "traffic") then inl (exportTrafficCSV f st)
  else if decide (dataType = "devices") then inl (exportDevicesCSV f now st)
  else if decide (dataType = "ping") then inl (exportPingCSV f st)
  else inr (StatusBadRequest, "Invalid export type").
(** * Properties *)

(** ** Maps of pointers into a heap *)

Section Table.
Context {A : Type}.
Implicit Types (m : gmap string ptr) (h : gmap ptr A).

(** Every pointer of the map refers to an object, and no two keys share
    one: what holds of maps filled by [m[k] = &T{...}] only. *)
Definition table_wf m h : Prop :=
  (∀ k p, m !! k = Some p → is_Some (h !! p)) ∧
  (∀ k1 k2 p, m !! k1 = Some p → m !! k2 = Some p → k1 = k2).

Lemma table_wf_empty h : table_wf ∅ h.
Proof. split; intros *; rewrite lookup_empty; discriminate. Qed.

Lemma fresh_not_pointed m h k :
  table_wf m h → m !! k ≠ Some (fresh (dom h)).
Proof.
  intros [Hval _] Hk. apply Hval in Hk.
  apply elem_of_dom in Hk. by apply is_fresh in Hk.
Qed.

Lemma deref_alter m h f k p k' :
  table_wf m h → m !! k = Some p →
  deref m (alter f p h) k' =
    if decide (k' = k) then f <$> deref m h k' else deref m h k'.
Proof.
  intros [_ Hinj] Hk. unfold deref. case_decide as Hkk.
  - subst k'. rewrite Hk. simpl. by rewrite lookup_alter_eq.
  - destruct (m !! k') as [p'|] eqn:Hk'; simpl; [|done].
    rewrite lookup_alter_ne; [done|]. intros ->. apply Hkk. eauto.
Qed.

Lemma table_wf_alter m h f p : table_wf m h → table_wf m (alter f p h).
Proof.
  intros [Hval Hinj]. split; [|done].
  intros k q Hk. apply Hval in Hk. apply elem_of_dom.
  rewrite dom_alter_L. by apply elem_of_dom.
Qed.

Lemma deref_alloc m h x k k' :
  table_wf m h →
  deref (<[k := fresh (dom h)]> m) (<[fresh (dom h) := x]> h) k' =
    if decide (k' = k) then Some x else deref m h k'.
Proof.
  intros Hwf. unfold deref. case_decide as Hkk.
  - subst k'. rewrite lookup_insert_eq. simpl. by rewrite lookup_insert_eq.
  - rewrite lookup_insert_ne by done.
    destruct (m !! k') as [p'|] eqn:Hk'; simpl; [|done].
    rewrite lookup_insert_ne; [done|].
    intros <-. by eapply fresh_not_pointed.
Qed.

Lemma table_wf_alloc m h x k :
  table_wf m h →
  table_wf (<[k := fresh (dom h)]> m) (<[fresh (dom h) := x]> h).
Proof.
  intros Hwf. pose proof Hwf as [Hval Hinj]. split.
  - intros k' p. rewrite lookup_insert. case_decide.
    + intros [= <-]. rewrite lookup_insert_eq. eauto.
    + intros Hk'. rewrite lookup_insert_ne; [eauto|].
      intros <-. by eapply fresh_not_pointed.
  - intros k1 k2 p. rewrite !lookup_insert.
    repeat case_decide; subst; try done.
    + intros [= <-] Hk2. by apply fresh_not_pointed in Hk2.
    + intros Hk1 [= <-]. by apply fresh_not_pointed in Hk1.
    + eauto.
Qed.

Lemma deref_Some_lookup m h k x :
  deref m h k = Some x → ∃ p, m !! k = Some p ∧ h !! p = Some x.
Proof.
  unfold deref. destruct (m !! k) as [p|]; simpl; [eauto|discriminate].
Qed.

End Table.

(** ** Well-formed states *)

Definition wf (st : State) : Prop :=
  table_wf (Interfaces (store st)) (ifaceObjs (heap st)) ∧
  table_wf (Devices (store st)) (deviceObjs (heap st)) ∧
  table_wf (PingResults (store st)) (pingObjs (heap st)).

Lemma wf_NewStore now : wf (NewStore now).
Proof. split; [|split]; apply table_wf_empty. Qed.

(** *** What each operation does to each view of the store *)

Lemma UpdateInterface_ifaceOf now name rx tx prx ptx st k :
  wf st →
  ifaceOf (UpdateInterface now name rx tx prx ptx st) k =
    if decide (k = name) then
      Some (match ifaceOf st name with
            | Some i => updateInterfaceStats now rx tx prx ptx i
            | None => newInterfaceStats now name rx tx prx ptx
            end)
    else ifaceOf st k.
Proof.
  intros (Hi & _ & _). unfold UpdateInterface, ifaceOf.
  destruct (Interfaces (store st) !! name) as [p|] eqn:Hk; simpl.
  - rewrite (deref_alter _ _ _ name p) by done.
    case_decide; [subst k|done].
    unfold deref. rewrite Hk. simpl.
    destruct (proj1 Hi _ _ Hk) as [i ->]. done.
  - rewrite deref_alloc by done. case_decide; [|done].
    unfold deref. by rewrite Hk.
Qed.

Lemma UpdateInterface_deviceOf now name rx tx prx ptx st k :
  deviceOf (UpdateInterface now name rx tx prx ptx st) k = deviceOf st k.
Proof.
  unfold UpdateInterface, deviceOf.
  by destruct (Interfaces (store st) !! name).
Qed.

Lemma UpdateInterface_pingOf now name rx tx prx ptx st k :
  pingOf (UpdateInterface now name rx tx prx ptx st) k = pingOf st k.
Proof.
  unfold UpdateInterface, pingOf.
  by destruct (Interfaces (store st) !! name).
Qed.

Lemma UpdateInterface_wf now name rx tx prx ptx st :
  wf st → wf (UpdateInterface now name rx tx prx ptx st).
Proof.
  intros (Hi & Hd & Hp). unfold UpdateInterface, wf.
  destruct (Interfaces (store st) !! name) as [p|] eqn:Hk; simpl;
    (split; [|split]); simpl; auto using table_wf_alter, table_wf_alloc.
Qed.

Lemma UpdateDevice_deviceOf now ip mac hostname st k :
  wf st →
  deviceOf (UpdateDevice now ip mac hostname st) k =
    if decide (k = ip) then
      Some (match deviceOf st ip with
            | Some d => updateDeviceObj now mac hostname d
            | None => newDevice now ip mac hostname
            end)
    else deviceOf st k.
Proof.
  intros (_ & Hd & _). unfold UpdateDevice, deviceOf.
  destruct (Devices (store st) !! ip) as [p|] eqn:Hk; simpl.
  - rewrite (deref_alter _ _ _ ip p) by done.
    case_decide; [subst k|done].
    unfold deref. rewrite Hk. simpl.
    destruct (proj1 Hd _ _ Hk) as [d ->]. done.
  - rewrite deref_alloc by done. case_decide; [|done].
    unfold deref. by rewrite Hk.
Qed.

Lemma UpdateDevice_ifaceOf now ip mac hostname st k :
  ifaceOf (UpdateDevice now ip mac hostname st) k = ifaceOf st k.
Proof.
  unfold UpdateDevice, ifaceOf. by destruct (Devices (store st) !! ip).
Qed.

Lemma UpdateDevice_pingOf now ip mac hostname st k :
  pingOf (UpdateDevice now ip mac hostname st) k = pingOf st k.
Proof.
  unfold UpdateDevice, pingOf. by destruct (Devices (store st) !! ip).
Qed.

Lemma UpdateDevice_wf now ip mac hostname st :
  wf st → wf (UpdateDevice now ip mac hostname st).
Proof.
  intros (Hi & Hd & Hp). unfold UpdateDevice, wf.
  destruct (Devices (store st) !! ip) as [p|] eqn:Hk; simpl;
    (split; [|split]); simpl; auto using table_wf_alter, table_wf_alloc.
Qed.

Lemma StorePingData_pingOf now host rtt success method st k :
  wf st →
  pingOf (StorePingData now host rtt success method st) k =
    if decide (k = host) then
      Some (match pingOf st host with
            | Some p => updatePingStats now rtt success p
            | None => newPingStats now host rtt success
            end)
    else pingOf st k.
Proof.
  intros (_ & _ & Hp). unfold StorePingData, pingOf.
  destruct (PingResults (store st) !! host) as [p|] eqn:Hk; simpl.
  - rewrite (deref_alter _ _ _ host p) by done.
    case_decide; [subst k|done].
    unfold deref. rewrite Hk. simpl.
    destruct (proj1 Hp _ _ Hk) as [d ->]. done.
  - rewrite deref_alloc by done. case_decide; [|done].
    unfold deref. by rewrite Hk.
Qed.

Lemma StorePingData_ifaceOf now host rtt success method st k :
  ifaceOf (StorePingData now host rtt success method st) k = ifaceOf st k.
Proof.
  unfold StorePingData, ifaceOf. by destruct (PingResults (store st) !! host).
Qed.

Lemma StorePingData_deviceOf now host rtt success method st k :
  deviceOf (StorePingData now host rtt success method st) k = deviceOf st k.
Proof.
  unfold StorePingData, deviceOf. by destruct (PingResults (store st) !! host).
Qed.

Lemma StorePingData_wf now host rtt success method st :
  wf st → wf (StorePingData now host rtt success method st).
Proof.
  intros (Hi & Hd & Hp). unfold StorePingData, wf.
  destruct (PingResults (store st) !! host) as [p|] eqn:Hk; simpl;
    (split; [|split]); simpl; auto using table_wf_alter, table_wf_alloc.
Qed.

Lemma call_wf st c : wf st → wf (call st c).
Proof.
  destruct c; simpl;
    auto using UpdateInterface_wf, UpdateDevice_wf, StorePingData_wf.
Qed.

Lemma run_snoc cs c st : run (cs ++ [c]) st = call (run cs st) c.
Proof. unfold run. by rewrite foldl_app. Qed.

Lemma run_wf cs st : wf st → wf (run cs st).
Proof.
  intros Hwf. induction cs as [|c cs IH] using rev_ind; [done|].
  rewrite run_snoc. by apply call_wf.
Qed.

(** ** Machine arithmetic *)

Lemma wrap_i64_add_l a b : wrap_i64 (wrap_i64 a + b) = wrap_i64 (a + b).
Proof.
  unfold wrap_i64. f_equal.
  replace ((a + 2 ^ 63) mod 2 ^ 64 - 2 ^ 63 + b + 2 ^ 63)
    with ((a + 2 ^ 63) mod 2 ^ 64 + b) by lia.
  rewrite Zplus_mod_idemp_l. f_equal. lia.
Qed.

Lemma wrap_i64_small z : in_i64 z → wrap_i64 z = z.
Proof.
  unfold in_i64, min_i64, max_i64, wrap_i64. intros Hz.
  rewrite Z.mod_small; lia.
Qed.

Lemma wrap_i64_range z : in_i64 (wrap_i64 z).
Proof.
  unfold in_i64, min_i64, max_i64, wrap_i64.
  pose proof (Z.mod_pos_bound (z + 2 ^ 63) (2 ^ 64) ltac:(lia)). lia.
Qed.

Lemma wrap_u64_range z : 0 <= wrap_u64 z < 2 ^ 64.
Proof. unfold wrap_u64. apply Z.mod_pos_bound. lia. Qed.

(** ** The fields after [updatePingStats] *)

Section UpdatePingStatsFields.
Variables (now : Time) (rtt : Duration) (success : bool) (ping : PingStats.t).

Lemma updatePingStats_TotalPings :
  PingStats.TotalPings (updatePingStats now rtt success ping) =
    wrap_i64 (PingStats.TotalPings ping + 1).
Proof.
  unfold updatePingStats.
  destruct success; simpl; repeat case_match; reflexivity.
Qed.

Lemma updatePingStats_FailedPings :
  PingStats.FailedPings (updatePingStats now rtt success ping) =
    if success then PingStats.FailedPings ping
    else wrap_i64 (PingStats.FailedPings ping + 1).
Proof.
  unfold updatePingStats.
  destruct success; simpl; repeat case_match; reflexivity.
Qed.

Lemma updatePingStats_PacketLoss :
  PingStats.PacketLoss (updatePingStats now rtt success ping) =
    packetLoss
      (PingStats.FailedPings (updatePingStats now rtt success ping))
      (PingStats.TotalPings (updatePingStats now rtt success ping)).
Proof.
  unfold updatePingStats.
  destruct success; simpl; repeat case_match; reflexivity.
Qed.

Lemma updatePingStats_History :
  PingStats.History (updatePingStats now rtt success ping) =
    appendBounded (PingStats.History ping) (PingPoint.mk now rtt success).
Proof.
  unfold updatePingStats.
  destruct success; simpl; repeat case_match; reflexivity.
Qed.

End UpdatePingStatsFields.

(** ** The samples a sequence of calls records for one host *)

Definition pingSample (host : string) (c : Call) : list PingPoint.t :=
  match c with
  | CallStorePingData now h rtt success _ =>
      if decide (h = host) then [PingPoint.mk now rtt success] else []
  | _ => []
  end.

Definition pingSamples (host : string) (cs : list Call) : list PingPoint.t :=
  cs ≫= pingSample host.

Definition failed (samples : list PingPoint.t) : list PingPoint.t :=
  filter (λ p, PingPoint.Success p = false) samples.

Lemma pingSamples_snoc host cs c :
  pingSamples host (cs ++ [c]) = pingSamples host cs ++ pingSample host c.
Proof.
  unfold pingSamples. rewrite bind_app. simpl. by rewrite app_nil_r.
Qed.

(** One more sample for a host: the object it has is updated in place, or
    a new one is made. *)
Definition pingStep (host : string) (o : option PingStats.t)
    (pt : PingPoint.t) : option PingStats.t :=
  Some (match o with
        | Some p =>
            updatePingStats (PingPoint.Timestamp pt) (PingPoint.Latency pt)
              (PingPoint.Success pt) p
        | None =>
            newPingStats (PingPoint.Timestamp pt) host (PingPoint.Latency pt)
              (PingPoint.Success pt)
        end).

Lemma call_pingOf st c host :
  wf st →
  pingOf (call st c) host = foldl (pingStep host) (pingOf st host)
                                  (pingSample host c).
Proof.
  intros Hwf. destruct c; simpl.
  - apply UpdateInterface_pingOf.
  - apply UpdateDevice_pingOf.
  - rewrite StorePingData_pingOf by done.
    destruct (decide (host0 = host)) as [->|Hne]; simpl.
    + by rewrite decide_True.
    + by rewrite decide_False.
Qed.

(** The statistics of a host depend on the samples recorded for it only,
    whatever other calls come in between. *)
Lemma run_pingOf cs st host :
  wf st →
  pingOf (run cs st) host =
    foldl (pingStep host) (pingOf st host) (pingSamples host cs).
Proof.
  intros Hwf. induction cs as [|c cs IH] using rev_ind; [done|].
  rewrite run_snoc, pingSamples_snoc, foldl_app, <- IH.
  by apply call_pingOf, run_wf.
Qed.

(** The counters and the loss of a host, in terms of the samples recorded
    for it. *)
Definition pingCounted (samples : list PingPoint.t)
    (o : option PingStats.t) : Prop :=
  match o with
  | None => samples = []
  | Some ps =>
      samples ≠ [] ∧
      PingStats.TotalPings ps = wrap_i64 (Z.of_nat (length samples)) ∧
      PingStats.FailedPings ps = wrap_i64 (Z.of_nat (length (failed samples))) ∧
      PingStats.PacketLoss ps =
        packetLoss (PingStats.FailedPings ps) (PingStats.TotalPings ps)
  end.

Lemma pingCounted_step samples o pt host :
  pingCounted samples o →
  pingCounted (samples ++ [pt]) (pingStep host o pt).
Proof.
  unfold pingStep, pingCounted, failed.
  destruct o as [p|].
  - intros (Hne & Ht & Hf & _).
    split; [by destruct samples|].
    rewrite updatePingStats_PacketLoss, updatePingStats_TotalPings,
      updatePingStats_FailedPings, Ht, Hf, !wrap_i64_add_l.
    rewrite filter_app, !length_app.
    split; [f_equal; simpl; lia|]. split; [|done].
    rewrite filter_cons, filter_nil.
    destruct (PingPoint.Success pt).
    + rewrite decide_False by done. simpl. f_equal. lia.
    + rewrite decide_True by done. simpl. f_equal. lia.
  - intros ->. split; [done|]. by destruct pt as [ts lat [|]].
Qed.

Lemma foldl_pingCounted host samples :
  pingCounted samples (foldl (pingStep host) None samples).
Proof.
  induction samples as [|pt samples IH] using rev_ind; [done|].
  rewrite foldl_app. by apply pingCounted_step.
Qed.

Lemma pingOf_NewStore t0 host : pingOf (NewStore t0) host = None.
Proof. reflexivity. Qed.

Lemma run_pingCounted t0 cs host :
  pingCounted (pingSamples host cs) (pingOf (run cs (NewStore t0)) host).
Proof.
  rewrite run_pingOf by apply wf_NewStore. apply foldl_pingCounted.
Qed.

(** ** Bounded histories *)

(** The last [n] elements of a list, in the order of the list. *)
Definition lastN {A : Type} (n : nat) (l : list A) : list A :=
  drop (length l - n) l.

Lemma length_lastN {A} n (l : list A) :
  length (lastN n l) = (length l `min` n)%nat.
Proof. unfold lastN. rewrite length_drop. lia. Qed.

Lemma lastN_all {A} n (l : list A) : (length l ≤ n)%nat → lastN n l = l.
Proof.
  intros Hl. unfold lastN. by replace (length l - n)%nat with 0%nat by lia.
Qed.

Lemma lastN_snoc {A} n (l : list A) x :
  (1 ≤ n)%nat → lastN n (lastN n l ++ [x]) = lastN n (l ++ [x]).
Proof.
  intros Hn. unfold lastN. rewrite !length_app, length_drop. simpl.
  destruct (decide (length l ≤ n)%nat) as [Hle|Hgt].
  - replace (length l - n)%nat with 0%nat by lia. simpl.
    by rewrite Nat.sub_0_r.
  - rewrite !drop_app_le by (rewrite ?length_drop; lia).
    rewrite drop_drop. do 2 f_equal. lia.
Qed.

Lemma appendBounded_lastN {A} (h : list A) x :
  (length h ≤ MaxHistoryPoints)%nat →
  appendBounded h x = lastN MaxHistoryPoints (h ++ [x]).
Proof.
  intros Hh. unfold appendBounded, lastN. rewrite length_app. simpl.
  case_decide as Hlen.
  - f_equal. unfold MaxHistoryPoints in *. lia.
  - replace (length h + 1 - MaxHistoryPoints)%nat with 0%nat by lia. done.
Qed.

Lemma appendBounded_lastN_snoc {A} (l : list A) x :
  appendBounded (lastN MaxHistoryPoints l) x =
    lastN MaxHistoryPoints (l ++ [x]).
Proof.
  rewrite appendBounded_lastN by (rewrite length_lastN; lia).
  apply lastN_snoc. unfold MaxHistoryPoints. lia.
Qed.

(** *** The history of a probe target *)

Definition pingHistoryIs (samples : list PingPoint.t)
    (o : option PingStats.t) : Prop :=
  match o with
  | None => samples = []
  | Some ps => PingStats.History ps = lastN MaxHistoryPoints samples
  end.

Lemma foldl_pingHistory host samples :
  pingHistoryIs samples (foldl (pingStep host) None samples).
Proof.
  induction samples as [|pt samples IH] using rev_ind; [done|].
  rewrite foldl_app. cbn [foldl]. unfold pingHistoryIs, pingStep in *.
  destruct (foldl _ None samples) as [p|].
  - rewrite updatePingStats_History, IH.
    rewrite appendBounded_lastN_snoc. by destruct pt.
  - subst samples. by destruct pt.
Qed.

(** ** The average latency *)

Definition sumZ (l : list Z) : Z := foldr Z.add 0 l.

Definition latencies (samples : list PingPoint.t) : list Duration :=
  PingPoint.Latency <$> samples.

Definition allSuccess (samples : list PingPoint.t) : Prop :=
  Forall (λ p, PingPoint.Success p = true) samples.

(** The mean of a list of durations, as a rational. *)
Definition mean (l : list Z) : Q :=
  (inject_Z (sumZ l) / inject_Z (Z.of_nat (length l)))%Q.

Lemma rescan_allSuccess history :
  allSuccess history → ∀ total count,
  in_i64 total → in_i64 count →
  foldl (λ '(total, count) point,
           if PingPoint.Success point
           then (wrap_i64 (total + PingPoint.Latency point),
                 wrap_i64 (count + 1))
           else (total, count))
        (total, count) history =
    (wrap_i64 (total + sumZ (latencies history)),
     wrap_i64 (count + Z.of_nat (length history))).
Proof.
  induction 1 as [|pt history Hpt _ IH]; intros total count Ht Hc; simpl.
  - rewrite !Z.add_0_r, !wrap_i64_small by done. done.
  - rewrite Hpt, IH by apply wrap_i64_range.
    rewrite !wrap_i64_add_l. f_equal; f_equal; lia.
Qed.

Lemma div_i64_small a n : in_i64 a → 1 <= n → div_i64 a n = Z.quot a n.
Proof.
  intros Ha Hn. unfold div_i64. apply wrap_i64_small.
  unfold in_i64, min_i64, max_i64 in *.
  destruct (Z.le_gt_cases 0 a).
  - pose proof (Z.quot_pos a n ltac:(lia) ltac:(lia)).
    pose proof (Z.quot_le_upper_bound a n a ltac:(lia)).
    assert (a ÷ n <= a) by (apply Z.quot_le_upper_bound; nia). lia.
  - assert (Hopp : (- a) ÷ n <= - a) by (apply Z.quot_le_upper_bound; nia).
    pose proof (Z.quot_pos (- a) n ltac:(lia) ltac:(lia)).
    rewrite Z.quot_opp_l in * by lia. lia.
Qed.

(** After a run of successful samples that fits the history, the object
    holds all of them and their truncated mean. *)
Definition pingAveraged (samples : list PingPoint.t)
    (o : option PingStats.t) : Prop :=
  match o with
  | None => samples = []
  | Some ps =>
      samples ≠ [] ∧
      PingStats.History ps = samples ∧
      PingStats.AvgLatency ps =
        Z.quot (wrap_i64 (sumZ (latencies samples)))
               (Z.of_nat (length samples))
  end.

Lemma sumZ_app l1 l2 : sumZ (l1 ++ l2) = sumZ l1 + sumZ l2.
Proof. unfold sumZ. induction l1 as [|x l1 IH]; simpl; lia. Qed.

Lemma updatePingStats_AvgLatency_success now rtt ping :
  PingStats.History ping ≠ [] →
  PingStats.AvgLatency (updatePingStats now rtt true ping) =
    div_i64 (rescan rtt (PingStats.History ping)).1
            (rescan rtt (PingStats.History ping)).2.
Proof.
  intros Hne. unfold updatePingStats. simpl.
  rewrite bool_decide_true by (destruct (PingStats.History ping); simpl; [done|lia]).
  by destruct (rescan rtt (PingStats.History ping)).
Qed.

Lemma pingAveraged_step samples o pt host :
  allSuccess (samples ++ [pt]) →
  (length (samples ++ [pt]) ≤ MaxHistoryPoints)%nat →
  Forall in_i64 (latencies (samples ++ [pt])) →
  pingAveraged samples o →
  pingAveraged (samples ++ [pt]) (pingStep host o pt).
Proof.
  unfold allSuccess, latencies. rewrite fmap_app, length_app.
  intros [Hs Hpt]%Forall_app Hlen [Hr Hrpt]%Forall_app.
  apply Forall_inv in Hpt, Hrpt. cbn [length] in Hlen.
  unfold pingAveraged, pingStep. destruct o as [p|].
  - intros (Hne & Hh & _). split; [by destruct samples|].
    rewrite updatePingStats_History, Hpt, Hh. split.
    + rewrite appendBounded_lastN by lia.
      rewrite lastN_all by (rewrite length_app; simpl; lia).
      destruct pt as [ts lat s]; simpl in *; by subst.
    + rewrite updatePingStats_AvgLatency_success by by rewrite Hh.
      rewrite Hh. unfold rescan.
      rewrite rescan_allSuccess; [|done|done|by compute].
      unfold MaxHistoryPoints in Hlen. cbn [fst snd].
      rewrite (wrap_i64_small (1 + _))
        by (unfold in_i64, min_i64, max_i64; lia).
      rewrite div_i64_small by (try apply wrap_i64_range; lia).
      unfold latencies. rewrite fmap_app, sumZ_app, length_app. simpl.
      f_equal; [f_equal|]; lia.
  - intros ->. split; [done|]. simpl in *.
    rewrite Hpt. simpl. split; [destruct pt; simpl in *; by subst|].
    rewrite Z.add_0_r, wrap_i64_small, Z.quot_1_r by done. done.
Qed.

Lemma foldl_pingAveraged host samples :
  allSuccess samples →
  (length samples ≤ MaxHistoryPoints)%nat →
  Forall in_i64 (latencies samples) →
  pingAveraged samples (foldl (pingStep host) None samples).
Proof.
  induction samples as [|pt samples IH] using rev_ind; [done|].
  intros Hs Hlen Hr. rewrite foldl_app.
  apply pingAveraged_step; try done.
  unfold allSuccess, latencies in *.
  rewrite fmap_app in Hr. rewrite length_app in Hlen.
  apply Forall_app in Hs as [? _], Hr as [? _]. apply IH; [done|lia|done].
Qed.

(** ** The readings a sequence of calls records for one interface *)

Record Reading : Type := mkReading {
  rdNow : Time;
  rdBytesRx : Z;
  rdBytesTx : Z;
  rdPacketsRx : Z;
  rdPacketsTx : Z
}.

Definition ifaceReading (name : string) (c : Call) : list Reading :=
  match c with
  | CallUpdateInterface now n rx tx prx ptx =>
      if decide (n = name) then [mkReading now rx tx prx ptx] else []
  | _ => []
  end.

Definition ifaceReadings (name : string) (cs : list Call) : list Reading :=
  cs ≫= ifaceReading name.

Definition ifaceStep (name : string) (o : option InterfaceStats.t)
    (r : Reading) : option InterfaceStats.t :=
  Some (match o with
        | Some i =>
            updateInterfaceStats (rdNow r) (rdBytesRx r) (rdBytesTx r)
              (rdPacketsRx r) (rdPacketsTx r) i
        | None =>
            newInterfaceStats (rdNow r) name (rdBytesRx r) (rdBytesTx r)
              (rdPacketsRx r) (rdPacketsTx r)
        end).

Lemma ifaceReadings_snoc name cs c :
  ifaceReadings name (cs ++ [c]) = ifaceReadings name cs ++ ifaceReading name c.
Proof.
  unfold ifaceReadings. rewrite bind_app. simpl. by rewrite app_nil_r.
Qed.

Lemma call_ifaceOf st c name :
  wf st →
  ifaceOf (call st c) name = foldl (ifaceStep name) (ifaceOf st name)
                                   (ifaceReading name c).
Proof.
  intros Hwf. destruct c; simpl.
  - rewrite UpdateInterface_ifaceOf by done.
    destruct (decide (name0 = name)) as [->|Hne]; simpl.
    + by rewrite decide_True.
    + by rewrite decide_False.
  - apply UpdateDevice_ifaceOf.
  - apply StorePingData_ifaceOf.
Qed.

Lemma run_ifaceOf cs st name :
  wf st →
  ifaceOf (run cs st) name =
    foldl (ifaceStep name) (ifaceOf st name) (ifaceReadings name cs).
Proof.
  intros Hwf. induction cs as [|c cs IH] using rev_ind; [done|].
  rewrite run_snoc, ifaceReadings_snoc, foldl_app, <- IH.
  by apply call_ifaceOf, run_wf.
Qed.

(** What a point of the history records of the call that appended it. *)
Definition pointKey (pt : DataPoint.t) : Time * Z * Z :=
  (DataPoint.Timestamp pt, DataPoint.BytesRx pt, DataPoint.BytesTx pt).
Definition readingKey (r : Reading) : Time * Z * Z :=
  (rdNow r, rdBytesRx r, rdBytesTx r).

(** The reading an interface object holds, and its two speeds. *)
Definition readingOf (i : InterfaceStats.t) : Reading :=
  mkReading (InterfaceStats.LastCheck i) (InterfaceStats.BytesRx i)
    (InterfaceStats.BytesTx i) (InterfaceStats.PacketsRx i)
    (InterfaceStats.PacketsTx i).
Definition speedsOf (i : InterfaceStats.t) : F64.t * F64.t :=
  (InterfaceStats.SpeedRx i, InterfaceStats.SpeedTx i).

(** The speeds after a reading [r] that follows the reading [prev]: the
    bytes per second since [prev] when time has advanced, the speeds of
    before otherwise. *)
Definition speedsAfter (prev r : Reading) (speeds : F64.t * F64.t) :
    F64.t * F64.t :=
  let timeDiff := Seconds (Sub (rdNow r) (rdNow prev)) in
  if F64.ltb F64.zero timeDiff then
    (F64.div (F64.of_Z (wrap_u64 (rdBytesRx r - rdBytesRx prev))) timeDiff,
     F64.div (F64.of_Z (wrap_u64 (rdBytesTx r - rdBytesTx prev))) timeDiff)
  else speeds.

(** The point a reading [r] appends after the reading [prev]. *)
Definition pointAfter (prev r : Reading) (speeds : F64.t * F64.t) :
    DataPoint.t :=
  DataPoint.mk (rdNow r) (rdBytesRx r) (rdBytesTx r)
    (speedsAfter prev r speeds).1 (speedsAfter prev r speeds).2.

(** The points a list of readings appends, after the reading [prev]. *)
Fixpoint pointsFrom (prev : Reading) (speeds : F64.t * F64.t)
    (readings : list Reading) : list DataPoint.t :=
  match readings with
  | [] => []
  | r :: readings =>
      pointAfter prev r speeds ::
      pointsFrom r (speedsAfter prev r speeds) readings
  end.

(** The points the readings of one interface append: the first reading
    makes the object, with an empty history and both speeds zero, and each
    later one appends a point. *)
Definition pointsOf (readings : list Reading) : list DataPoint.t :=
  match readings with
  | [] => []
  | r :: readings => pointsFrom r (F64.zero, F64.zero) readings
  end.

Lemma updateInterfaceStats_point r i :
  InterfaceStats.History
    (updateInterfaceStats (rdNow r) (rdBytesRx r) (rdBytesTx r)
       (rdPacketsRx r) (rdPacketsTx r) i) =
    appendBounded (InterfaceStats.History i)
      (pointAfter (readingOf i) r (speedsOf i)) ∧
  readingOf
    (updateInterfaceStats (rdNow r) (rdBytesRx r) (rdBytesTx r)
       (rdPacketsRx r) (rdPacketsTx r) i) = r ∧
  speedsOf
    (updateInterfaceStats (rdNow r) (rdBytesRx r) (rdBytesTx r)
       (rdPacketsRx r) (rdPacketsTx r) i) =
    speedsAfter (readingOf i) r (speedsOf i) ∧
  InterfaceStats.Name
    (updateInterfaceStats (rdNow r) (rdBytesRx r) (rdBytesTx r)
       (rdPacketsRx r) (rdPacketsTx r) i) = InterfaceStats.Name i.
Proof.
  unfold updateInterfaceStats, pointAfter, speedsAfter, readingOf, speedsOf.
  destruct r. cbn [rdNow rdBytesRx rdBytesTx rdPacketsRx rdPacketsTx].
  by destruct (F64.ltb _ _).
Qed.

Lemma foldl_ifaceStep_points name readings :
  ∀ i pts,
    InterfaceStats.History i = lastN MaxHistoryPoints pts →
    ∃ i',
      foldl (ifaceStep name) (Some i) readings = Some i' ∧
      InterfaceStats.Name i' = InterfaceStats.Name i ∧
      InterfaceStats.History i' =
        lastN MaxHistoryPoints
          (pts ++ pointsFrom (readingOf i) (speedsOf i) readings).
Proof.
  induction readings as [|r readings IH]; intros i pts Hh.
  - exists i. by rewrite app_nil_r.
  - destruct (updateInterfaceStats_point r i) as (Hp & Hr & Hs & Hn).
    destruct (IH (updateInterfaceStats (rdNow r) (rdBytesRx r) (rdBytesTx r)
                    (rdPacketsRx r) (rdPacketsTx r) i)
                 (pts ++ [pointAfter (readingOf i) r (speedsOf i)]))
      as (i' & Hi' & Hn' & Hh').
    { by rewrite Hp, Hh, appendBounded_lastN_snoc. }
    exists i'. split; [exact Hi'|]. split; [by rewrite Hn'|].
    rewrite Hh', Hr, Hs, <- app_assoc. done.
Qed.

(** The object of an interface after its readings: none without a reading;
    otherwise one that holds the last points of [pointsOf]. *)
Lemma foldl_ifaceStep_history name readings :
  match readings with
  | [] => foldl (ifaceStep name) None readings = None
  | _ :: _ =>
      ∃ i,
        foldl (ifaceStep name) None readings = Some i ∧
        InterfaceStats.Name i = name ∧
        InterfaceStats.History i =
          lastN MaxHistoryPoints (pointsOf readings)
  end.
Proof.
  destruct readings as [|r readings]; [done|].
  destruct (foldl_ifaceStep_points name readings
              (newInterfaceStats (rdNow r) name (rdBytesRx r) (rdBytesTx r)
                 (rdPacketsRx r) (rdPacketsTx r)) [] eq_refl)
    as (i & Hi & Hn & Hh).
  exists i. split; [exact Hi|]. split; [exact Hn|].
  rewrite Hh. simpl. by destruct r.
Qed.

Lemma pointKey_pointsFrom readings :
  ∀ prev speeds,
    pointKey <$> pointsFrom prev speeds readings = readingKey <$> readings.
Proof.
  induction readings as [|r readings IH]; intros prev speeds; [done|].
  simpl. by rewrite IH.
Qed.

Lemma pointKey_pointsOf readings :
  pointKey <$> pointsOf readings = readingKey <$> drop 1 readings.
Proof.
  destruct readings as [|r readings]; [done|].
  simpl. rewrite drop_0. apply pointKey_pointsFrom.
Qed.

Lemma length_pointsOf readings :
  length (pointsOf readings) = (length readings - 1)%nat.
Proof.
  rewrite <- (length_fmap pointKey), pointKey_pointsOf, length_fmap,
    length_drop. done.
Qed.

(** A call that reads an interface, or probes a host, is among the readings
    of that interface, or the samples of that host. *)
Lemma ifaceReadings_of_call now name rx tx prx ptx cs :
  CallUpdateInterface now name rx tx prx ptx ∈ cs →
  mkReading now rx tx prx ptx ∈ ifaceReadings name cs.
Proof.
  intros Hin. unfold ifaceReadings. apply list_elem_of_bind.
  eexists. split; [|exact Hin]. simpl.
  rewrite decide_True by done. apply list_elem_of_here.
Qed.

Lemma pingSamples_of_call now host rtt success method cs :
  CallStorePingData now host rtt success method ∈ cs →
  PingPoint.mk now rtt success ∈ pingSamples host cs.
Proof.
  intros Hin. unfold pingSamples. apply list_elem_of_bind.
  eexists. split; [|exact Hin]. simpl.
  rewrite decide_True by done. apply list_elem_of_here.
Qed.

(** ** The sightings a sequence of calls records for one address *)

Record Sighting : Type := mkSighting {
  sgNow : Time;
  sgMAC : string;
  sgHostname : string
}.

Definition deviceSighting (ip : string) (c : Call) : list Sighting :=
  match c with
  | CallUpdateDevice now i mac hostname =>
      if decide (i = ip) then [mkSighting now mac hostname] else []
  | _ => []
  end.

Definition deviceSightings (ip : string) (cs : list Call) : list Sighting :=
  cs ≫= deviceSighting ip.

Definition deviceStep (ip : string) (o : option Device.t)
    (s : Sighting) : option Device.t :=
  Some (match o with
        | Some d => updateDeviceObj (sgNow s) (sgMAC s) (sgHostname s) d
        | None => newDevice (sgNow s) ip (sgMAC s) (sgHostname s)
        end).

Lemma deviceSightings_snoc ip cs c :
  deviceSightings ip (cs ++ [c]) =
    deviceSightings ip cs ++ deviceSighting ip c.
Proof.
  unfold deviceSightings. rewrite bind_app. simpl. by rewrite app_nil_r.
Qed.

Lemma deviceSightings_app ip cs1 cs2 :
  deviceSightings ip (cs1 ++ cs2) =
    deviceSightings ip cs1 ++ deviceSightings ip cs2.
Proof. unfold deviceSightings. by rewrite bind_app. Qed.

Lemma call_deviceOf st c ip :
  wf st →
  deviceOf (call st c) ip = foldl (deviceStep ip) (deviceOf st ip)
                                  (deviceSighting ip c).
Proof.
  intros Hwf. destruct c; simpl.
  - apply UpdateInterface_deviceOf.
  - rewrite UpdateDevice_deviceOf by done.
    destruct (decide (ip0 = ip)) as [->|Hne]; simpl.
    + by rewrite decide_True.
    + by rewrite decide_False.
  - apply StorePingData_deviceOf.
Qed.

Lemma run_deviceOf cs st ip :
  wf st →
  deviceOf (run cs st) ip =
    foldl (deviceStep ip) (deviceOf st ip) (deviceSightings ip cs).
Proof.
  intros Hwf. induction cs as [|c cs IH] using rev_ind; [done|].
  rewrite run_snoc, deviceSightings_snoc, foldl_app, <- IH.
  by apply call_deviceOf, run_wf.
Qed.

(** The first non-empty string of a list, the empty string if none. *)
Fixpoint firstNonEmpty (l : list string) : string :=
  match l with
  | [] => ""
  | x :: l => if decide (x = "") then firstNonEmpty l else x
  end.

Lemma firstNonEmpty_app l1 l2 :
  firstNonEmpty (l1 ++ l2) =
    if decide (firstNonEmpty l1 = "") then firstNonEmpty l2
    else firstNonEmpty l1.
Proof.
  induction l1 as [|x l1 IH]; simpl; [done|].
  destruct (decide (x = "")) as [->|Hx]; [done|]. by rewrite decide_False.
Qed.

Definition deviceIs (ip : string) (sightings : list Sighting)
    (o : option Device.t) : Prop :=
  match o with
  | None => sightings = []
  | Some d =>
      sightings ≠ [] ∧
      Device.IP d = ip ∧
      Device.MAC d = firstNonEmpty (sgMAC <$> sightings) ∧
      Device.Hostname d = firstNonEmpty (sgHostname <$> sightings) ∧
      Device.IsActive d = true ∧
      Some (Device.LastSeen d) = sgNow <$> last sightings
  end.

(** *** The fields after [updateDeviceObj] *)

Section UpdateDeviceFields.
Variables (now : Time) (mac hostname : string) (d : Device.t).

Lemma updateDeviceObj_MAC :
  Device.MAC (updateDeviceObj now mac hostname d) =
    if decide (Device.MAC d = "") then mac else Device.MAC d.
Proof.
  unfold updateDeviceObj.
  destruct (decide (Device.MAC d = "")) as [Hd|Hd],
           (decide (mac = "")) as [Hm|Hm];
    repeat case_decide; simpl in *; intuition congruence.
Qed.

Lemma updateDeviceObj_Hostname :
  Device.Hostname (updateDeviceObj now mac hostname d) =
    if decide (Device.Hostname d = "") then hostname else Device.Hostname d.
Proof.
  unfold updateDeviceObj.
  destruct (decide (Device.Hostname d = "")) as [Hd|Hd],
           (decide (hostname = "")) as [Hm|Hm];
    repeat case_decide; simpl in *; intuition congruence.
Qed.

Lemma updateDeviceObj_others :
  Device.IP (updateDeviceObj now mac hostname d) = Device.IP d ∧
  Device.LastSeen (updateDeviceObj now mac hostname d) = now ∧
  Device.IsActive (updateDeviceObj now mac hostname d) = true ∧
  Device.Vendor (updateDeviceObj now mac hostname d) = Device.Vendor d.
Proof. unfold updateDeviceObj. by repeat case_decide. Qed.

End UpdateDeviceFields.

Lemma foldl_deviceIs ip sightings :
  deviceIs ip sightings (foldl (deviceStep ip) None sightings).
Proof.
  induction sightings as [|s sightings IH] using rev_ind; [done|].
  rewrite foldl_app. cbn [foldl]. unfold deviceIs, deviceStep in *.
  rewrite !fmap_app, !firstNonEmpty_app, last_snoc.
  destruct (foldl _ None sightings) as [d|].
  - destruct IH as (Hne & Hip & Hmac & Hhost & _ & _).
    split; [by destruct sightings|].
    rewrite <- Hmac, <- Hhost, updateDeviceObj_MAC, updateDeviceObj_Hostname.
    destruct (updateDeviceObj_others (sgNow s) (sgMAC s) (sgHostname s) d)
      as (-> & -> & -> & _).
    cbn [fmap list_fmap firstNonEmpty].
    repeat split; try done; repeat case_decide; congruence.
  - subst sightings. simpl.
    repeat split; try done; by destruct (decide (_ = "")) as [->|].
Qed.

Lemma ifaceOf_NewStore t0 name : ifaceOf (NewStore t0) name = None.
Proof. reflexivity. Qed.

Lemma deviceOf_NewStore t0 ip : deviceOf (NewStore t0) ip = None.
Proof. reflexivity. Qed.

(** ** Snapshots *)

Lemma copy_map_eq (m : gmap string ptr) :
  map_fold (λ k v result, <[k := v]> result) ∅ m = m.
Proof.
  apply (map_fold_weak_ind (λ r m, r = m)); [done|].
  by intros i x m' r _ ->.
Qed.

Lemma GetInterfaces_pointers st : GetInterfaces st = Interfaces (store st).
Proof. apply copy_map_eq. Qed.

Lemma GetPings_pointers st : GetPings st = PingResults (store st).
Proof. apply copy_map_eq. Qed.

(** The loop of [GetDevices] over the part [m] of the map, from the heap
    [h0]: the heap only grows, every key of [m] gets the address of a copy,
    the copies are new objects. *)
Definition copiesOf (cutoff : Time) (h0 : gmap ptr Device.t)
    (r : gmap string ptr * gmap ptr Device.t) (m : gmap string ptr) : Prop :=
  (∀ k p, m !! k = Some p → is_Some (h0 !! p)) →
  h0 ⊆ r.2 ∧
  (∀ k, deref r.1 r.2 k = snapshotDevice cutoff <$> deref m h0 k) ∧
  (∀ k p, r.1 !! k = Some p → (p ∉ dom h0) ∧ is_Some (r.2 !! p)).

Lemma GetDevices_copiesOf now st :
  copiesOf (Add now (- 5 * Minute)) (deviceObjs (heap st))
    (GetDevices now st) (Devices (store st)).
Proof.
  unfold GetDevices. set (cutoff := Add now (- 5 * Minute)).
  set (h0 := deviceObjs (heap st)).
  apply (map_fold_weak_ind (copiesOf cutoff h0)).
  { intros _. simpl. split; [done|]. split.
    - intros k. unfold deref. by rewrite !lookup_empty.
    - intros k p. by rewrite lookup_empty. }
  intros i x m [res objs] Hi IH Hval.
  destruct IH as (Hsub & Hcopy & Hnew).
  { intros k p Hk. apply (Hval k). rewrite lookup_insert_ne; [done|].
    intros <-. by rewrite Hi in Hk. }
  simpl in Hsub, Hcopy, Hnew.
  destruct (Hval i x) as [d Hd]; [by rewrite lookup_insert_eq|].
  rewrite (lookup_weaken _ _ _ _ Hd Hsub). unfold alloc.
  set (p := fresh (dom objs)).
  assert (Hp : objs !! p = None) by apply not_elem_of_dom, is_fresh.
  simpl. split; [|split].
  - etrans; [done|]. by apply insert_subseteq.
  - intros k. unfold deref. destruct (decide (k = i)) as [->|Hne].
    + rewrite !lookup_insert_eq. simpl. by rewrite lookup_insert_eq, Hd.
    + rewrite !lookup_insert_ne by done.
      specialize (Hcopy k). unfold deref in Hcopy. rewrite <- Hcopy.
      destruct (res !! k) as [p'|] eqn:Hk; simpl; [|done].
      rewrite lookup_insert_ne; [done|]. intros <-.
      destruct (Hnew _ _ Hk) as [_ [? ?]]. congruence.
  - intros k p'. rewrite lookup_insert. case_decide.
    + intros [= <-]. rewrite lookup_insert_eq. split; [|by eauto].
      intros Hin%elem_of_dom. destruct Hin as [d' Hd'].
      rewrite (lookup_weaken _ _ _ _ Hd' Hsub) in Hp. discriminate.
    + intros Hk. destruct (Hnew _ _ Hk) as [? [d' Hd']]. split; [done|].
      rewrite lookup_insert_ne; [by eauto|]. intros <-. congruence.
Qed.

(** * The store: packet loss, histories, averages, sticky fields, frame *)

(** ** Packet loss *)

(** The stored loss is exactly the rational [100 * failed / total]. *)
Definition lossExact (ps : PingStats.t) : Prop :=
  ∃ q, F64.to_Q (PingStats.PacketLoss ps) = Some q ∧
       (q == 100 * inject_Z (PingStats.FailedPings ps)
               / inject_Z (PingStats.TotalPings ps))%Q.

Definition probeOk (now : Time) (host : string) (rtt : Duration) : Call :=
  CallStorePingData now host rtt true "ICMP".
Definition probeFailed (now : Time) (host : string) : Call :=
  CallStorePingData now host 0 false "FAILED".

(** Eleven failed probes and nine successful ones. *)
Definition elevenOfTwenty : list Call :=
  replicate 11 (probeFailed 0 "8.8.8.8") ++
  replicate 9 (probeOk 0 "8.8.8.8" (20 * Millisecond)).

(** C1, as stated, fails: after 11 failures in 20 probes the stored loss is
    the float next above 55, not 55 = 100 * 11 / 20. *)
Lemma packet_loss_not_exact_ratio :
  ∃ ps, pingOf (run elevenOfTwenty (NewStore 0)) "8.8.8.8" = Some ps ∧
        PingStats.TotalPings ps = 20 ∧
        PingStats.FailedPings ps = 11 ∧
        PingStats.PacketLoss ps = S754_finite false 7740561859543041 (-47) ∧
        F64.of_Z 55 = S754_finite false 7740561859543040 (-47) ∧
        ¬ lossExact ps.
Proof.
  eexists. split; [vm_compute; reflexivity|].
  do 4 (split; [reflexivity|]).
  intros (q & Hq & Heq). vm_compute in Hq. injection Hq as <-.
  vm_compute in Heq. discriminate.
Qed.

(** C1 (amended).  After every sequence of calls, for every host that has
    been probed: the counters count the probes and the failed probes of that
    host, and the stored loss is [float64(failed) / float64(total) * 100]
    computed in binary64 in that order.  That value is 0 after a first
    success, 100 after a first failure and 50 for one failure in two. *)
Theorem packet_loss_from_counters t0 cs host ps :
  pingOf (run cs (NewStore t0)) host = Some ps →
  PingStats.TotalPings ps =
    wrap_i64 (Z.of_nat (length (pingSamples host cs))) ∧
  PingStats.FailedPings ps =
    wrap_i64 (Z.of_nat (length (failed (pingSamples host cs)))) ∧
  PingStats.PacketLoss ps =
    packetLoss (PingStats.FailedPings ps) (PingStats.TotalPings ps) ∧
  packetLoss 0 1 = F64.zero ∧
  packetLoss 1 1 = F64.of_Z 100 ∧
  packetLoss 1 2 = F64.of_Z 50.
Proof.
  intros Hps. pose proof (run_pingCounted t0 cs host) as H.
  rewrite Hps in H. destruct H as (_ & Ht & Hf & Hl).
  repeat split; try done.
Qed.

(** The scenario of the specification: a success, then a failure. *)
Definition successThenFailure : list Call :=
  [probeOk 0 "8.8.8.8" (20 * Millisecond); probeFailed 5 "8.8.8.8"].

Lemma packet_loss_from_counters_witness :
  ∃ ps, pingOf (run successThenFailure (NewStore 0)) "8.8.8.8" = Some ps ∧
        PingStats.TotalPings ps = 2 ∧
        PingStats.FailedPings ps = 1 ∧
        PingStats.PacketLoss ps = F64.of_Z 50.
Proof.
  eexists. split; [vm_compute; reflexivity|].
  match goal with
  | |- PingStats.TotalPings ?ps = _ ∧ _ =>
      destruct (packet_loss_from_counters 0 successThenFailure "8.8.8.8" ps
                  ltac:(vm_compute; reflexivity))
        as (Ht & Hf & Hl & _ & _ & Hhalf)
  end.
  rewrite Hl, Ht, Hf. repeat split.
Defined.

(** ** Bounded histories *)

(** C2.  After every sequence of calls, each stored history has at most
    [MaxHistoryPoints] entries and is the tail of what was appended, in the
    order of appending.  An interface that was read has an object: its
    history is the last [MaxHistoryPoints] of the points its readings
    appended, one for each reading after the one that made the object, each
    with the time and the byte counters of its reading and the speeds
    computed at it.  A host that was probed has an object: its history is the
    last [MaxHistoryPoints] of its samples.  An interface never read, or a
    host never probed, has no object. *)
Theorem history_bounded_fifo t0 cs :
  (∀ name,
     (ifaceReadings name cs = [] →
      ifaceOf (run cs (NewStore t0)) name = None) ∧
     (∀ now rx tx prx ptx,
        CallUpdateInterface now name rx tx prx ptx ∈ cs →
        ∃ i,
          ifaceOf (run cs (NewStore t0)) name = Some i ∧
          InterfaceStats.Name i = name ∧
          (length (InterfaceStats.History i) ≤ MaxHistoryPoints)%nat ∧
          InterfaceStats.History i =
            lastN MaxHistoryPoints (pointsOf (ifaceReadings name cs)) ∧
          length (InterfaceStats.History i) =
            ((length (ifaceReadings name cs) - 1) `min` MaxHistoryPoints)%nat ∧
          pointKey <$> pointsOf (ifaceReadings name cs) =
            readingKey <$> drop 1 (ifaceReadings name cs)) ∧
     (∀ i,
        ifaceOf (run cs (NewStore t0)) name = Some i →
        ifaceReadings name cs ≠ [] ∧
        InterfaceStats.History i =
          lastN MaxHistoryPoints (pointsOf (ifaceReadings name cs)))) ∧
  (∀ host,
     (pingSamples host cs = [] →
      pingOf (run cs (NewStore t0)) host = None) ∧
     (∀ now rtt success method,
        CallStorePingData now host rtt success method ∈ cs →
        ∃ ps,
          pingOf (run cs (NewStore t0)) host = Some ps ∧
          (length (PingStats.History ps) ≤ MaxHistoryPoints)%nat ∧
          PingStats.History ps =
            lastN MaxHistoryPoints (pingSamples host cs) ∧
          length (PingStats.History ps) =
            (length (pingSamples host cs) `min` MaxHistoryPoints)%nat) ∧
     (∀ ps,
        pingOf (run cs (NewStore t0)) host = Some ps →
        pingSamples host cs ≠ [] ∧
        PingStats.History ps =
          lastN MaxHistoryPoints (pingSamples host cs))).
Proof.
  split.
  - intros name.
    pose proof (foldl_ifaceStep_history name (ifaceReadings name cs)) as H.
    rewrite <- (ifaceOf_NewStore t0 name), <- run_ifaceOf in H
      by apply wf_NewStore.
    split; [|split].
    + intros Hnil. by rewrite Hnil in H.
    + intros now rx tx prx ptx Hin.
      apply ifaceReadings_of_call in Hin.
      pose proof (pointKey_pointsOf (ifaceReadings name cs)) as Hk.
      pose proof (length_pointsOf (ifaceReadings name cs)) as Hl.
      destruct (ifaceReadings name cs) as [|r readings];
        [by apply elem_of_nil in Hin|].
      destruct H as (i & Hi & Hn & Hh). exists i.
      split; [exact Hi|]. split; [exact Hn|].
      rewrite Hh, length_lastN, Hl. repeat split; [lia|exact Hk].
    + intros i Hi.
      destruct (ifaceReadings name cs) as [|r readings];
        [by rewrite Hi in H|].
      destruct H as (i' & Hi' & _ & Hh). rewrite Hi in Hi'.
      injection Hi' as <-. by split.
  - intros host.
    pose proof (foldl_pingHistory host (pingSamples host cs)) as H.
    rewrite <- (pingOf_NewStore t0 host), <- run_pingOf in H
      by apply wf_NewStore.
    split; [|split].
    + intros Hnil. rewrite run_pingOf, Hnil by apply wf_NewStore.
      apply pingOf_NewStore.
    + intros now rtt success method Hin.
      apply pingSamples_of_call in Hin.
      destruct (pingOf (run cs (NewStore t0)) host) as [ps|];
        [|simpl in H; rewrite H in Hin; by apply elem_of_nil in Hin].
      simpl in H. exists ps. rewrite H, length_lastN.
      repeat split. lia.
    + intros ps Hps. rewrite Hps in H. simpl in H. split; [|exact H].
      intros Hnil.
      rewrite run_pingOf, Hnil in Hps by apply wf_NewStore.
      by rewrite (pingOf_NewStore t0 host) in Hps.
Qed.

(** A hundred and two readings of one interface, one a second, the byte
    counters growing by 1000 and 500 a second. *)
Definition manyReadings : list Call :=
  (λ n, CallUpdateInterface (Z.of_nat n * Second) "eth0"
          (Z.of_nat n * 1000) (Z.of_nat n * 500) (Z.of_nat n) (Z.of_nat n))
    <$> seq 1 102.

(** A hundred and two probes at times 1 to 102. *)
Definition manyProbes : list Call :=
  (λ n, probeOk (Z.of_nat n) "1.1.1.1" (Z.of_nat n * Millisecond))
    <$> seq 1 102.

Lemma history_bounded_fifo_witness :
  (∃ i, ifaceOf (run manyReadings (NewStore 0)) "eth0" = Some i ∧
        length (InterfaceStats.History i) = 100%nat ∧
        pointKey <$> InterfaceStats.History i =
          (λ n, (Z.of_nat n * Second, Z.of_nat n * 1000, Z.of_nat n * 500))
            <$> seq 3 100 ∧
        DataPoint.SpeedRx <$> InterfaceStats.History i =
          replicate 100 (F64.of_Z 1000) ∧
        DataPoint.SpeedTx <$> InterfaceStats.History i =
          replicate 100 (F64.of_Z 500)) ∧
  (∃ ps, pingOf (run manyProbes (NewStore 0)) "1.1.1.1" = Some ps ∧
         length (PingStats.History ps) = 100%nat ∧
         PingPoint.Timestamp <$> PingStats.History ps =
           Z.of_nat <$> seq 3 100) ∧
  ifaceOf (run manyProbes (NewStore 0)) "eth0" = None ∧
  pingOf (run manyReadings (NewStore 0)) "1.1.1.1" = None.
Proof.
  split; [|split; [|split]].
  - destruct (proj1 (history_bounded_fifo 0 manyReadings) "eth0")
      as (_ & Hread & _).
    destruct (Hread Second 1000 500 1 1) as (i & Hi & _ & _ & Hh & Hlen & _).
    { apply (list_elem_of_lookup_2 _ 0%nat). vm_compute. reflexivity. }
    exists i. split; [exact Hi|]. rewrite Hlen, Hh.
    repeat split; vm_compute; reflexivity.
  - destruct (proj2 (history_bounded_fifo 0 manyProbes) "1.1.1.1")
      as (_ & Hprobed & _).
    destruct (Hprobed 1 (1 * Millisecond) true "ICMP")
      as (ps & Hps & _ & Hh & Hlen).
    { apply (list_elem_of_lookup_2 _ 0%nat). vm_compute. reflexivity. }
    exists ps. split; [exact Hps|]. rewrite Hlen, Hh.
    split; vm_compute; reflexivity.
  - apply (proj1 (history_bounded_fifo 0 manyProbes) "eth0").
    vm_compute. reflexivity.
  - apply (proj2 (history_bounded_fifo 0 manyReadings) "1.1.1.1").
    vm_compute. reflexivity.
Defined.

(** ** Average latency *)

(** Two successful probes, of 1 ns and 2 ns. *)
Definition oneThenTwo : list Call :=
  [probeOk 0 "8.8.8.8" 1; probeOk 5 "8.8.8.8" 2].

(** C4, as stated, fails: durations are whole nanoseconds and the division
    is an integer division, so the stored average of 1 ns and 2 ns is 1 ns,
    not their mean 3/2 ns. *)
Lemma average_latency_not_exact_mean :
  ∃ ps, pingOf (run oneThenTwo (NewStore 0)) "8.8.8.8" = Some ps ∧
        allSuccess (pingSamples "8.8.8.8" oneThenTwo) ∧
        (length (pingSamples "8.8.8.8" oneThenTwo) ≤ MaxHistoryPoints)%nat ∧
        PingStats.AvgLatency ps = 1 ∧
        (mean (latencies (pingSamples "8.8.8.8" oneThenTwo)) == 3 # 2)%Q ∧
        ¬ (inject_Z (PingStats.AvgLatency ps) ==
             mean (latencies (pingSamples "8.8.8.8" oneThenTwo)))%Q.
Proof.
  eexists. split; [vm_compute; reflexivity|].
  split; [apply (bool_decide_unpack _); vm_compute; exact I|].
  split; [vm_compute; lia|].
  do 2 (split; [reflexivity|]).
  vm_compute. discriminate.
Qed.

(** C4 (amended).  After a sequence of calls in which the probes of a host
    all succeeded and are no more than [MaxHistoryPoints], the stored
    average latency of that host is the sum of their latencies, wrapped to
    64 bits as Go's additions wrap it, divided by their number with the
    quotient truncated toward zero; when the sum fits 64 bits it is the
    truncated mean. *)
Theorem average_latency_truncated_mean t0 cs host ps :
  pingOf (run cs (NewStore t0)) host = Some ps →
  allSuccess (pingSamples host cs) →
  (length (pingSamples host cs) ≤ MaxHistoryPoints)%nat →
  Forall in_i64 (latencies (pingSamples host cs)) →
  PingStats.AvgLatency ps =
    Z.quot (wrap_i64 (sumZ (latencies (pingSamples host cs))))
           (Z.of_nat (length (pingSamples host cs))) ∧
  (in_i64 (sumZ (latencies (pingSamples host cs))) →
   PingStats.AvgLatency ps =
     Z.quot (sumZ (latencies (pingSamples host cs)))
            (Z.of_nat (length (pingSamples host cs)))).
Proof.
  intros Hps Hs Hlen Hr.
  pose proof (foldl_pingAveraged host _ Hs Hlen Hr) as H.
  rewrite <- (pingOf_NewStore t0 host), <- run_pingOf, Hps in H
    by apply wf_NewStore.
  destruct H as (_ & _ & Havg). split; [done|].
  intros Hsum. by rewrite Havg, wrap_i64_small.
Qed.

(** Three successful probes of 10, 20 and 33 ms: the average is 21 ms. *)
Definition threeProbes : list Call :=
  [probeOk 0 "8.8.8.8" (10 * Millisecond);
   probeOk 5 "8.8.8.8" (20 * Millisecond);
   probeOk 9 "8.8.8.8" (33 * Millisecond)].

Lemma average_latency_truncated_mean_witness :
  ∃ ps, pingOf (run threeProbes (NewStore 0)) "8.8.8.8" = Some ps ∧
        PingStats.AvgLatency ps = 21 * Millisecond.
Proof.
  eexists. split; [vm_compute; reflexivity|].
  match goal with
  | |- PingStats.AvgLatency ?ps = _ =>
      destruct (average_latency_truncated_mean 0 threeProbes "8.8.8.8" ps
                  ltac:(vm_compute; reflexivity)
                  ltac:(apply (bool_decide_unpack _); vm_compute; exact I)
                  ltac:(vm_compute; lia)
                  ltac:(apply (bool_decide_unpack _); vm_compute; exact I))
        as [_ Havg]
  end.
  rewrite Havg; [reflexivity|].
  apply (bool_decide_unpack _); vm_compute; exact I.
Defined.

(** ** Sticky fields of a device *)

(** C6.  [MAC] and [Hostname] of a device are the first non-empty value
    among those passed to [UpdateDevice] for its address.  Hence whatever
    calls follow, a field that is non-empty keeps its value, and a field
    that is empty becomes the first non-empty value that comes in, staying
    empty if none does. *)
Theorem device_fields_first_write_wins t0 cs1 cs2 ip d1 :
  deviceOf (run cs1 (NewStore t0)) ip = Some d1 →
  Device.MAC d1 = firstNonEmpty (sgMAC <$> deviceSightings ip cs1) ∧
  Device.Hostname d1 =
    firstNonEmpty (sgHostname <$> deviceSightings ip cs1) ∧
  ∃ d2,
    deviceOf (run (cs1 ++ cs2) (NewStore t0)) ip = Some d2 ∧
    (Device.MAC d1 ≠ "" → Device.MAC d2 = Device.MAC d1) ∧
    (Device.Hostname d1 ≠ "" → Device.Hostname d2 = Device.Hostname d1) ∧
    (Device.MAC d1 = "" →
     Device.MAC d2 = firstNonEmpty (sgMAC <$> deviceSightings ip cs2)) ∧
    (Device.Hostname d1 = "" →
     Device.Hostname d2 =
       firstNonEmpty (sgHostname <$> deviceSightings ip cs2)).
Proof.
  intros Hd1.
  pose proof (foldl_deviceIs ip (deviceSightings ip cs1)) as H1.
  pose proof (foldl_deviceIs ip (deviceSightings ip (cs1 ++ cs2))) as H2.
  rewrite <- (deviceOf_NewStore t0 ip), <- run_deviceOf in H1, H2
    by apply wf_NewStore.
  rewrite Hd1 in H1. destruct H1 as (Hne & _ & Hm1 & Hh1 & _).
  do 2 (split; [done|]).
  rewrite deviceSightings_app in H2.
  destruct (deviceOf (run (cs1 ++ cs2) (NewStore t0)) ip) as [d2|].
  - exists d2. split; [done|].
    destruct H2 as (_ & _ & Hm2 & Hh2 & _).
    rewrite Hm2, Hh2, !fmap_app, !firstNonEmpty_app, <- Hm1, <- Hh1.
    repeat split; intros; by repeat case_decide.
  - exfalso. by destruct (deviceSightings ip cs1).
Qed.

(** A device first seen by the sweep, then by ARP, then again with other
    values. *)
Definition sightingsOfOne : list Call :=
  [CallUpdateDevice 0 "10.0.0.5" "" "";
   CallUpdateDevice 10 "10.0.0.5" "aa:bb:cc:dd:ee:ff" "printer"].
Definition laterSightings : list Call :=
  [CallUpdateDevice 20 "10.0.0.5" "" "";
   CallUpdateDevice 30 "10.0.0.5" "11:22:33:44:55:66" "laptop"].

Lemma device_fields_first_write_wins_witness :
  ∃ d2,
    deviceOf (run (sightingsOfOne ++ laterSightings) (NewStore 0)) "10.0.0.5"
      = Some d2 ∧
    Device.MAC d2 = "aa:bb:cc:dd:ee:ff" ∧ Device.Hostname d2 = "printer".
Proof.
  destruct (device_fields_first_write_wins 0 sightingsOfOne laterSightings
              "10.0.0.5" _ ltac:(vm_compute; reflexivity))
    as (_ & _ & d2 & Hd2 & Hmac & Hhost & _).
  exists d2. split; [done|]. split.
  - apply Hmac. discriminate.
  - apply Hhost. discriminate.
Defined.

(** ** What UpdateDevice leaves alone *)

(** C10.  [UpdateDevice] changes neither [LastUpdated] nor the interfaces
    nor the probe targets, and of the devices only the entry of its
    address; [UpdateInterface] and [StorePingData] set [LastUpdated] to the
    time of the call. *)
Theorem UpdateDevice_frame t0 cs now ip mac hostname :
  let st := run cs (NewStore t0) in
  let st' := UpdateDevice now ip mac hostname st in
  LastUpdated (store st') = LastUpdated (store st) ∧
  Interfaces (store st') = Interfaces (store st) ∧
  PingResults (store st') = PingResults (store st) ∧
  ifaceObjs (heap st') = ifaceObjs (heap st) ∧
  pingObjs (heap st') = pingObjs (heap st) ∧
  (∀ ip', ip' ≠ ip →
     Devices (store st') !! ip' = Devices (store st) !! ip' ∧
     deviceOf st' ip' = deviceOf st ip') ∧
  (∀ now' name rx tx prx ptx,
     LastUpdated (store (UpdateInterface now' name rx tx prx ptx st)) = now') ∧
  (∀ now' host rtt success method,
     LastUpdated (store (StorePingData now' host rtt success method st)) =
       now').
Proof.
  intros st st'.
  assert (Hwf : wf st) by apply run_wf, wf_NewStore.
  repeat split.
  1-5: subst st'; unfold UpdateDevice;
       by destruct (Devices (store st) !! ip).
  - subst st'. unfold UpdateDevice.
    destruct (Devices (store st) !! ip); simpl; [done|].
    by rewrite lookup_insert_ne.
  - subst st'. rewrite UpdateDevice_deviceOf by done. by rewrite decide_False.
  - intros. unfold UpdateInterface.
    by destruct (Interfaces (store st) !! name).
  - intros. unfold StorePingData.
    by destruct (PingResults (store st) !! host).
Qed.

(** A store with one interface, one device and one probe target, at which
    another device is then seen. *)
Definition oneOfEach : list Call :=
  [CallUpdateInterface 1 "eth0" 1000 500 10 5;
   CallUpdateDevice 2 "10.0.0.5" "aa:bb:cc:dd:ee:ff" "printer";
   probeOk 3 "8.8.8.8" (20 * Millisecond)].

Lemma UpdateDevice_frame_witness :
  let st := run oneOfEach (NewStore 0) in
  let st' := UpdateDevice 99 "10.0.0.6" "" "" st in
  LastUpdated (store st') = 3 ∧
  deviceOf st' "10.0.0.5" = deviceOf st "10.0.0.5".
Proof.
  intros st st'.
  destruct (UpdateDevice_frame 0 oneOfEach 99 "10.0.0.6" "" "")
    as (Hlu & _ & _ & _ & _ & Hdev & _).
  split.
  - subst st st'. rewrite Hlu. reflexivity.
  - apply (Hdev "10.0.0.5"). discriminate.
Defined.

(** ** Snapshots of the devices *)

Lemma GetDevices_lookup now st ip d :
  wf st → deviceOf st ip = Some d →
  deref (GetDevices now st).1 (GetDevices now st).2 ip =
    Some (snapshotDevice (Add now (- 5 * Minute)) d).
Proof.
  intros (_ & [Hval _] & _) Hd.
  destruct (GetDevices_copiesOf now st Hval) as (_ & Hcopy & _).
  rewrite Hcopy. unfold deviceOf in Hd. by rewrite Hd.
Qed.

Lemma GetDevices_store_unchanged now st k :
  wf st → deviceOf (withDevices (GetDevices now st).2 st) k = deviceOf st k.
Proof.
  intros (_ & [Hval _] & _).
  destruct (GetDevices_copiesOf now st Hval) as (Hsub & _ & _).
  unfold deviceOf, deref. simpl.
  destruct (Devices (store st) !! k) as [p|] eqn:Hk; simpl; [|done].
  destruct (Hval _ _ Hk) as [d Hd]. rewrite Hd.
  by apply (lookup_weaken _ _ _ _ Hd).
Qed.

(** A write through a pointer of the map [GetDevices] returned does not
    reach the devices of the store. *)
Lemma GetDevices_write_isolated now st k p f k' :
  wf st → (GetDevices now st).1 !! k = Some p →
  deviceOf (writeDevice p f (withDevices (GetDevices now st).2 st)) k' =
    deviceOf st k'.
Proof.
  intros Hwf Hk. rewrite <- (GetDevices_store_unchanged now st k' Hwf).
  destruct Hwf as (_ & [Hval _] & _).
  destruct (GetDevices_copiesOf now st Hval) as (Hsub & _ & Hnew).
  destruct (Hnew _ _ Hk) as [Hp _].
  unfold deviceOf, deref, writeDevice, withDevices. simpl.
  destruct (Devices (store st) !! k') as [p'|] eqn:Hk'; simpl; [|done].
  rewrite lookup_alter_ne; [done|]. intros <-.
  apply Hp, elem_of_dom. eauto.
Qed.

(** A write through a pointer of the map [GetInterfaces] returned is a
    write to the object of the store. *)
Lemma GetInterfaces_write_through st name i f :
  wf st → ifaceOf st name = Some i →
  ∃ p, GetInterfaces st !! name = Some p ∧
       ifaceOf (writeIface p f st) name = Some (f i).
Proof.
  intros (Hi & _ & _) Hn. rewrite GetInterfaces_pointers.
  destruct (deref_Some_lookup _ _ _ _ Hn) as (p & Hp & Hobj).
  exists p. split; [done|].
  unfold ifaceOf, writeIface. simpl.
  rewrite (deref_alter _ _ _ name p) by done.
  rewrite decide_True by done. unfold ifaceOf in Hn. by rewrite Hn.
Qed.

Lemma GetPings_write_through st host ps f :
  wf st → pingOf st host = Some ps →
  ∃ p, GetPings st !! host = Some p ∧
       pingOf (writePing p f st) host = Some (f ps).
Proof.
  intros (_ & _ & Hp) Hn. rewrite GetPings_pointers.
  destruct (deref_Some_lookup _ _ _ _ Hn) as (p & Hptr & Hobj).
  exists p. split; [done|].
  unfold pingOf, writePing. simpl.
  rewrite (deref_alter _ _ _ host p) by done.
  rewrite decide_True by done. unfold pingOf in Hn. by rewrite Hn.
Qed.

(** C3 fails on [GetInterfaces] and [GetPings]: the map they return is new
    and its values are the pointers of the store.  In a store with the
    interface eth0 and the target 8.8.8.8, setting [SpeedRx] and
    [PacketLoss] through the returned maps changes what the store holds,
    while the same through the map of [GetDevices] does not. *)
Theorem snapshots_of_interfaces_and_pings_share_objects :
  let st := run oneOfEach (NewStore 0) in
  (∃ p i,
     GetInterfaces st !! "eth0" = Some p ∧
     ifaceOf st "eth0" = Some i ∧
     InterfaceStats.SpeedRx i = F64.zero ∧
     ifaceOf (writeIface p (InterfaceStats.setSpeedRx (F64.of_Z 42)) st)
       "eth0" = Some (InterfaceStats.setSpeedRx (F64.of_Z 42) i)) ∧
  (∃ p ps,
     GetPings st !! "8.8.8.8" = Some p ∧
     pingOf st "8.8.8.8" = Some ps ∧
     PingStats.PacketLoss ps = F64.zero ∧
     pingOf (writePing p (PingStats.setPacketLoss (F64.of_Z 42)) st)
       "8.8.8.8" = Some (PingStats.setPacketLoss (F64.of_Z 42) ps)) ∧
  (∃ p,
     (GetDevices 9 st).1 !! "10.0.0.5" = Some p ∧
     deviceOf (writeDevice p (Device.setMAC "00:00:00:00:00:00")
                 (withDevices (GetDevices 9 st).2 st)) "10.0.0.5" =
       deviceOf st "10.0.0.5").
Proof.
  intros st. split; [|split].
  - eexists _, _. split; [vm_compute; reflexivity|].
    split; [vm_compute; reflexivity|]. split; vm_compute; reflexivity.
  - eexists _, _. split; [vm_compute; reflexivity|].
    split; [vm_compute; reflexivity|]. split; vm_compute; reflexivity.
  - eexists. split; vm_compute; reflexivity.
Qed.

(** A device seen once, at time 0. *)
Definition seenOnce : list Call := [CallUpdateDevice 0 "10.0.0.5" "" ""].

(** C5, as stated, fails at the boundary: a device last seen exactly five
    minutes before the snapshot is reported active. *)
Lemma GetDevices_active_at_five_minutes :
  let st := run seenOnce (NewStore 0) in
  let now := 5 * Minute in
  ∃ d d',
    deviceOf st "10.0.0.5" = Some d ∧
    deref (GetDevices now st).1 (GetDevices now st).2 "10.0.0.5" = Some d' ∧
    5 * Minute <= now - Device.LastSeen d ∧
    Device.IsActive d' = true.
Proof.
  eexists _, _. split; [vm_compute; reflexivity|].
  split; [vm_compute; reflexivity|]. split; [vm_compute; discriminate|].
  reflexivity.
Qed.

(** C5 (amended).  For every device the store holds after a sequence of
    calls and every time [now] of the snapshot: the stored [IsActive] is
    true, the snapshot of [GetDevices] has a copy of the device that differs
    at most in [IsActive], the copy is inactive if and only if
    [now - lastSeen] is more than five minutes, and the devices of the store
    are what they were. *)
Theorem GetDevices_inactive_after_five_minutes t0 cs now ip d :
  let st := run cs (NewStore t0) in
  deviceOf st ip = Some d →
  Device.IsActive d = true ∧
  ∃ d',
    deref (GetDevices now st).1 (GetDevices now st).2 ip = Some d' ∧
    (Device.IsActive d' = false ↔ 5 * Minute < now - Device.LastSeen d) ∧
    Device.setIsActive true d' = d ∧
    ∀ k, deviceOf (withDevices (GetDevices now st).2 st) k = deviceOf st k.
Proof.
  intros st Hd.
  assert (Hwf : wf st) by apply run_wf, wf_NewStore.
  assert (Hact : Device.IsActive d = true).
  { pose proof (foldl_deviceIs ip (deviceSightings ip cs)) as H.
    rewrite <- (deviceOf_NewStore t0 ip), <- run_deviceOf in H
      by apply wf_NewStore.
    fold st in H. rewrite Hd in H. by destruct H as (_ & _ & _ & _ & ? & _). }
  split; [done|]. eexists. split; [by apply GetDevices_lookup|].
  split; [|split].
  - unfold snapshotDevice, Before, Add.
    destruct (Z.ltb_spec (Device.LastSeen d) (now + - 5 * Minute));
      simpl; rewrite ?Hact; split; (lia || discriminate || done).
  - unfold snapshotDevice. destruct d; simpl in *; subst.
    by destruct (Before _ _).
  - intros k. by apply GetDevices_store_unchanged.
Qed.

Lemma GetDevices_inactive_after_five_minutes_witness :
  let st := run seenOnce (NewStore 0) in
  ∃ d',
    deref (GetDevices (5 * Minute + 1) st).1 (GetDevices (5 * Minute + 1) st).2
      "10.0.0.5" = Some d' ∧
    Device.IsActive d' = false.
Proof.
  intros st.
  destruct (GetDevices_inactive_after_five_minutes 0 seenOnce
              (5 * Minute + 1) "10.0.0.5" _ ltac:(vm_compute; reflexivity))
    as (_ & d' & Hd' & Hiff & _).
  exists d'. split; [done|]. apply Hiff. vm_compute. reflexivity.
Defined.

(** * Interface speed *)

(** ** Signs of binary64 results *)

(** The sign bit is clear, or the value is NaN. *)
Definition signClear (x : F64.t) : Prop :=
  match x with
  | S754_zero s | S754_infinity s | S754_finite s _ _ => s = false
  | S754_nan => True
  end.

Lemma binary_round_aux_signClear mx ex lx :
  signClear (binary_round_aux F64.prec F64.emax false mx ex lx).
Proof.
  unfold binary_round_aux.
  destruct (shr_fexp _ _ mx ex lx) as [mrs' e'].
  destruct (shr_fexp _ _ _ e' loc_Exact) as [mrs'' e''].
  destruct (shr_m mrs''); [done| |done].
  by destruct (Z.leb _ _).
Qed.

Lemma of_Z_signClear n : 0 <= n → signClear (F64.of_Z n).
Proof.
  intros Hn. unfold F64.of_Z, binary_normalize.
  destruct n as [|m|m]; [done| |lia].
  unfold binary_round. destruct (shl_align _ _ _) as [mz ez].
  apply binary_round_aux_signClear.
Qed.

Lemma ltb_zero_inv x :
  F64.ltb F64.zero x = true →
  x = S754_infinity false ∨ ∃ m e, x = S754_finite false m e.
Proof.
  unfold F64.ltb, SFltb, F64.zero.
  destruct x as [s|[|]| |[|] m e]; simpl; try discriminate; eauto.
Qed.

Lemma div_signClear x y :
  signClear x → F64.ltb F64.zero y = true → signClear (F64.div x y).
Proof.
  intros Hx [->|(m & e & ->)]%ltb_zero_inv;
    destruct x as [sx|sx| |sx mx ex]; simpl in *; subst; try done.
  destruct (SFdiv_core_binary _ _ _ _ _ _) as [[mz ez] lz].
  apply binary_round_aux_signClear.
Qed.

Lemma signClear_not_negative x : signClear x → F64.ltb x F64.zero = false.
Proof. destruct x as [s|s| |s m e]; simpl; intros Hs; by subst. Qed.

(** ** Positive binary64 results *)

Lemma digits2_pos_lb p : 2 ^ (Z.pos (digits2_pos p) - 1) <= Z.pos p.
Proof.
  induction p as [p IH|p IH|]; cbn [digits2_pos]; [| |done].
  - rewrite Pos2Z.inj_succ.
    replace (Z.succ (Z.pos (digits2_pos p)) - 1)
      with (Z.succ (Z.pos (digits2_pos p) - 1)) by lia.
    rewrite Z.pow_succ_r by lia. lia.
  - rewrite Pos2Z.inj_succ.
    replace (Z.succ (Z.pos (digits2_pos p)) - 1)
      with (Z.succ (Z.pos (digits2_pos p) - 1)) by lia.
    rewrite Z.pow_succ_r by lia. lia.
Qed.

Lemma shr_1_m mrs : 0 <= shr_m mrs → shr_m (shr_1 mrs) = shr_m mrs / 2.
Proof.
  destruct mrs as [m r s]. cbn [shr_m]. intros Hm.
  destruct m as [|[p|p|]|p]; cbn [shr_1 shr_m]; try done; try lia.
  - apply Z.div_unique with (r := 1); lia.
  - apply Z.div_unique with (r := 0); lia.
Qed.

Lemma iter_shr_1_m n : ∀ mrs,
  0 <= shr_m mrs → shr_m (SpecFloat.iter_pos shr_1 n mrs) = shr_m mrs / 2 ^ Z.pos n.
Proof.
  induction n as [n IH|n IH|]; intros mrs Hm; cbn [SpecFloat.iter_pos].
  - assert (H1 : 0 <= shr_m (shr_1 mrs)).
    { rewrite shr_1_m by done. apply Z.div_pos; lia. }
    assert (H2 : 0 <= shr_m (SpecFloat.iter_pos shr_1 n (shr_1 mrs))).
    { rewrite IH by done. apply Z.div_pos; lia. }
    rewrite IH, IH, shr_1_m by done.
    rewrite !Z.div_div by lia. f_equal.
    replace (Z.pos n~1) with (1 + Z.pos n + Z.pos n) by lia.
    rewrite !Z.pow_add_r by lia. lia.
  - assert (H2 : 0 <= shr_m (SpecFloat.iter_pos shr_1 n mrs)).
    { rewrite IH by done. apply Z.div_pos; lia. }
    rewrite IH, IH by done.
    rewrite !Z.div_div by lia. f_equal.
    replace (Z.pos n~0) with (Z.pos n + Z.pos n) by lia.
    rewrite !Z.pow_add_r by lia. lia.
  - rewrite shr_1_m by done. done.
Qed.

Lemma shr_record_of_loc_m m l : shr_m (shr_record_of_loc m l) = m.
Proof. by destruct l as [|[| |]]. Qed.

Definition emin64 : Z := -1074.

Lemma shr_fexp_pos m e l :
  0 < m → emin64 <= e →
  0 < shr_m (shr_fexp F64.prec F64.emax m e l).1 ∧ e <= (shr_fexp F64.prec F64.emax m e l).2.
Proof.
  intros Hm He. unfold shr_fexp, shr.
  destruct m as [|p|p]; [lia| |lia].
  cbn [Zdigits2]. unfold fexp, SpecFloat.emin, F64.prec, F64.emax, emin64 in *.
  pose proof (digits2_pos_lb p) as Hlb.
  set (d := Z.pos (digits2_pos p)) in *.
  destruct (Z.max (d + e - 53) (3 - 1024 - 53) - e) as [|n|n] eqn:Hn;
    cbn [fst snd]; rewrite ?shr_record_of_loc_m; try lia.
  rewrite iter_shr_1_m by (rewrite shr_record_of_loc_m; lia).
  rewrite shr_record_of_loc_m. split; [|lia].
  apply Z.div_str_pos. split; [apply Z.pow_pos_nonneg; lia|].
  etrans; [|exact Hlb]. apply Z.pow_le_mono_r; lia.
Qed.

(** Positive: infinite, or finite with an exponent of at least [lo]. *)
Definition isPos (lo : Z) (x : spec_float) : Prop :=
  x = S754_infinity false ∨
  ∃ m e, x = S754_finite false m e ∧ lo <= e.

Lemma isPos_weaken lo lo' x : lo' <= lo → isPos lo x → isPos lo' x.
Proof.
  intros Hlo [->|(m & e & -> & He)]; [by left|right].
  exists m, e. split; [done|lia].
Qed.

Lemma round_nearest_even_pos m l : 0 < m → 0 < round_nearest_even m l.
Proof.
  intros Hm. destruct l as [|[| |]]; simpl; try lia.
  destruct (Z.even m); lia.
Qed.

Lemma binary_round_aux_pos mx ex lx :
  0 < mx → emin64 <= ex →
  isPos ex (binary_round_aux F64.prec F64.emax false mx ex lx).
Proof.
  intros Hm He. unfold binary_round_aux.
  destruct (shr_fexp_pos mx ex lx Hm He) as [H1 H2].
  destruct (shr_fexp F64.prec F64.emax mx ex lx) as [mrs' e'].
  cbn [fst snd] in H1, H2.
  pose proof (round_nearest_even_pos (shr_m mrs') (loc_of_shr_record mrs') H1)
    as Hr.
  destruct (shr_fexp_pos _ e' loc_Exact Hr ltac:(lia)) as [H3 H4].
  destruct (shr_fexp F64.prec F64.emax _ e' loc_Exact) as [mrs'' e''].
  cbn [fst snd] in H3, H4.
  destruct (shr_m mrs'') as [|m|m]; [lia| |lia].
  destruct (Z.leb _ _); [right|left]; eauto.
  exists m, e''. split; [done|lia].
Qed.

Lemma shl_align_exp mx ex ex' :
  (shl_align mx ex ex').2 = ex' ∨ (shl_align mx ex ex').2 = ex.
Proof. unfold shl_align. destruct (ex' - ex); auto. Qed.

Lemma binary_round_pos mx ex :
  emin64 <= ex →
  isPos (Z.min ex (fexp F64.prec F64.emax (Z.pos (digits2_pos mx) + ex)))
        (binary_round F64.prec F64.emax false mx ex).
Proof.
  intros He. unfold binary_round.
  pose proof (shl_align_exp mx ex (fexp F64.prec F64.emax (Z.pos (digits2_pos mx) + ex)))
    as Hexp.
  destruct (shl_align _ _ _) as [mz ez]. cbn [snd] in Hexp.
  assert (Hfexp : emin64 <= fexp F64.prec F64.emax (Z.pos (digits2_pos mx) + ex)).
  { unfold fexp, SpecFloat.emin, F64.prec, F64.emax, emin64. lia. }
  eapply isPos_weaken; [|apply binary_round_aux_pos; lia]. lia.
Qed.

Lemma of_Z_pos n : 1 <= n → isPos (-52) (F64.of_Z n).
Proof.
  intros Hn. unfold F64.of_Z, binary_normalize.
  destruct n as [|p|p]; [lia| |lia].
  eapply isPos_weaken; [|apply binary_round_pos; unfold emin64; lia].
  unfold fexp, SpecFloat.emin, F64.prec, F64.emax. lia.
Qed.

Lemma of_Z_billion :
  F64.of_Z 1000000000 = S754_finite false 8388608000000000 (-23).
Proof. reflexivity. Qed.

(** A positive number divided by 1e9 is positive. *)
Lemma div_billion_pos x :
  isPos (-52) x → isPos emin64 (F64.div x (F64.of_Z 1000000000)).
Proof.
  rewrite of_Z_billion. intros [->|(m1 & e1 & -> & He1)]; [by left|].
  unfold F64.div, SFdiv, SFdiv_core_binary. cbn [Zdigits2 xorb].
  change (Z.pos (digits2_pos 8388608000000000)) with 53.
  pose proof (digits2_pos_lb m1) as Hlb.
  set (d1 := Z.pos (digits2_pos m1)) in *.
  assert (Hd1 : 1 <= d1) by (unfold d1; lia).
  set (e' := Z.min (fexp F64.prec F64.emax (d1 + e1 - (53 + -23))) (e1 - -23)).
  assert (He' : emin64 <= e').
  { unfold e', fexp, SpecFloat.emin, F64.prec, F64.emax, emin64. lia. }
  assert (Hs : 0 <= e1 - -23 - e' ∧ 53 <= d1 - 1 + (e1 - -23 - e')).
  { unfold e', fexp, SpecFloat.emin, F64.prec, F64.emax. lia. }
  set (s := e1 - -23 - e') in *.
  set (m' := match s with
             | 0 => Z.pos m1
             | Z.pos _ => Z.shiftl (Z.pos m1) s
             | Z.neg _ => 0
             end).
  assert (Hm' : 2 ^ 53 <= m').
  { assert (Heq : m' = Z.pos m1 * 2 ^ s).
    { unfold m'. destruct s as [|p|p]; [lia| |lia].
      by rewrite Z.shiftl_mul_pow2 by lia. }
    rewrite Heq.
    assert (2 ^ (d1 - 1 + s) <= Z.pos m1 * 2 ^ s).
    { rewrite Z.pow_add_r by lia.
      apply Z.mul_le_mono_nonneg_r; [apply Z.pow_nonneg; lia|done]. }
    assert (2 ^ 53 <= 2 ^ (d1 - 1 + s)) by (apply Z.pow_le_mono_r; lia).
    lia. }
  assert (Hq : 0 < m' / 8388608000000000).
  { apply Z.div_str_pos. change (2 ^ 53) with 9007199254740992 in Hm'. lia. }
  unfold Z.div in Hq.
  destruct (Z.div_eucl m' 8388608000000000) as [q r].
  eapply isPos_weaken; [|apply binary_round_aux_pos; done]. done.
Qed.

Definition zeroOrPos (lo : Z) (x : spec_float) : Prop :=
  x = S754_zero false ∨ isPos lo x.

Lemma add_pos x y :
  zeroOrPos emin64 x → zeroOrPos emin64 y →
  isPos emin64 x ∨ isPos emin64 y →
  isPos emin64 (F64.add x y).
Proof.
  intros [->|Hx] [->|Hy] Hor.
  - destruct Hor as [[H|(m & e & H & _)]|[H|(m & e & H & _)]]; discriminate.
  - destruct Hy as [->|(m & e & -> & He)]; [by left|].
    right. eauto.
  - destruct Hx as [->|(m & e & -> & He)]; [by left|].
    right. eauto.
  - destruct Hx as [->|(m1 & e1 & -> & He1)];
      destruct Hy as [->|(m2 & e2 & -> & He2)];
      try (by left).
    unfold F64.add, SFadd. cbn [cond_Zopp Z.add binary_normalize].
    eapply isPos_weaken; [|apply binary_round_pos; lia].
    unfold fexp, SpecFloat.emin, F64.prec, F64.emax, emin64 in *. lia.
Qed.

Lemma isPos_ltb lo x : isPos lo x → F64.ltb F64.zero x = true.
Proof. by intros [->|(m & e & -> & _)]. Qed.


(** The seconds of a positive duration are more than 0. *)
Lemma Seconds_pos d : 0 < d → F64.ltb F64.zero (Seconds d) = true.
Proof.
  intros Hd. unfold Seconds, Second.
  pose proof (Z.quot_rem' d 1000000000) as Hqr.
  pose proof (Z.rem_bound_pos d 1000000000 ltac:(lia) ltac:(lia)) as Hr.
  pose proof (Z.quot_pos d 1000000000 ltac:(lia) ltac:(lia)) as Hq.
  generalize dependent (Z.quot d 1000000000).
  generalize dependent (Z.rem d 1000000000). intros r Hr q Hqr Hq.
  apply (isPos_ltb emin64), add_pos.
  - destruct (decide (q = 0)) as [->|Hq0]; [by left|right].
    eapply isPos_weaken; [|apply of_Z_pos; lia]. unfold emin64. lia.
  - destruct (decide (r = 0)) as [->|Hr0]; [by left|right].
    apply div_billion_pos, of_Z_pos. lia.
  - destruct (decide (q = 0)) as [Hq0|Hq0].
    + right. apply div_billion_pos, of_Z_pos. lia.
    + left. eapply isPos_weaken; [|apply of_Z_pos; lia]. unfold emin64. lia.
Qed.

Lemma Sub_pos t u : u < t → 0 < Sub t u.
Proof.
  intros Hlt. unfold Sub, min_i64, max_i64.
  repeat case_match; lia.
Qed.

(** ** The speeds after [updateInterfaceStats] *)

Lemma updateInterfaceStats_speed now rx tx prx ptx i :
  F64.ltb F64.zero (Seconds (Sub now (InterfaceStats.LastCheck i))) = true →
  InterfaceStats.SpeedRx (updateInterfaceStats now rx tx prx ptx i) =
    F64.div (F64.of_Z (wrap_u64 (rx - InterfaceStats.BytesRx i)))
            (Seconds (Sub now (InterfaceStats.LastCheck i))) ∧
  InterfaceStats.SpeedTx (updateInterfaceStats now rx tx prx ptx i) =
    F64.div (F64.of_Z (wrap_u64 (tx - InterfaceStats.BytesTx i)))
            (Seconds (Sub now (InterfaceStats.LastCheck i))).
Proof. intros Hpos. unfold updateInterfaceStats. by rewrite Hpos. Qed.

(** An interface read at time 0, and read again one second later after its
    counters restarted. *)
Definition beforeReset : list Call :=
  [CallUpdateInterface 0 "eth0" 3000 1500 30 15].

(** C7, as stated, fails on a counter reset: the byte counters are
    unsigned, the difference wraps, and the speed is a large positive
    number, here 2^64 - 2000 bytes per second for rx 3000 -> 1000. *)
Lemma speed_after_counter_reset_not_negative :
  let st := run beforeReset (NewStore 0) in
  ∃ i i',
    ifaceOf st "eth0" = Some i ∧
    1000 < InterfaceStats.BytesRx i ∧
    InterfaceStats.LastCheck i < Second ∧
    ifaceOf (UpdateInterface Second "eth0" 1000 500 40 20 st) "eth0"
      = Some i' ∧
    InterfaceStats.SpeedRx i' = F64.of_Z (2 ^ 64 - 2000) ∧
    F64.ltb (InterfaceStats.SpeedRx i') F64.zero = false ∧
    F64.ltb F64.zero (InterfaceStats.SpeedRx i') = true.
Proof.
  eexists _, _. split; [vm_compute; reflexivity|].
  split; [vm_compute; reflexivity|]. split; [vm_compute; reflexivity|].
  split; [vm_compute; reflexivity|]. repeat split.
Qed.

(** C7 (amended).  When [UpdateInterface] is called on an interface the
    store holds, later than its last update, the elapsed seconds the code
    computes are more than 0 and the stored speed of each direction is
    [float64(newBytes - oldBytes) / elapsedSeconds] with the difference
    taken in [uint64], that is modulo 2^64.  The speed is therefore never
    negative: when the new counter is below the stored one the difference
    wraps. *)
Theorem UpdateInterface_speed t0 cs now name rx tx prx ptx i :
  let st := run cs (NewStore t0) in
  let timeDiff := Seconds (Sub now (InterfaceStats.LastCheck i)) in
  ifaceOf st name = Some i →
  InterfaceStats.LastCheck i < now →
  F64.ltb F64.zero timeDiff = true ∧
  ∃ i',
    ifaceOf (UpdateInterface now name rx tx prx ptx st) name = Some i' ∧
    InterfaceStats.SpeedRx i' =
      F64.div (F64.of_Z (wrap_u64 (rx - InterfaceStats.BytesRx i))) timeDiff ∧
    InterfaceStats.SpeedTx i' =
      F64.div (F64.of_Z (wrap_u64 (tx - InterfaceStats.BytesTx i))) timeDiff ∧
    F64.ltb (InterfaceStats.SpeedRx i') F64.zero = false ∧
    F64.ltb (InterfaceStats.SpeedTx i') F64.zero = false.
Proof.
  intros st timeDiff Hi Hlater.
  assert (Hpos : F64.ltb F64.zero timeDiff = true)
    by apply Seconds_pos, Sub_pos, Hlater.
  split; [done|].
  assert (Hwf : wf st) by apply run_wf, wf_NewStore.
  eexists. split.
  { rewrite UpdateInterface_ifaceOf, decide_True, Hi by done. done. }
  destruct (updateInterfaceStats_speed now rx tx prx ptx i Hpos) as [-> ->].
  repeat split;
    apply signClear_not_negative, div_signClear, Hpos;
    apply of_Z_signClear, wrap_u64_range.
Qed.

(** The scenario of the specification: rx 1000 -> 3000 and tx 500 -> 1500
    one second apart. *)
Definition firstReading : list Call :=
  [CallUpdateInterface 0 "eth0" 1000 500 10 5].

Lemma UpdateInterface_speed_witness :
  let st := run firstReading (NewStore 0) in
  ∃ i',
    ifaceOf (UpdateInterface Second "eth0" 3000 1500 20 10 st) "eth0"
      = Some i' ∧
    InterfaceStats.SpeedRx i' = F64.of_Z 2000 ∧
    InterfaceStats.SpeedTx i' = F64.of_Z 1000.
Proof.
  intros st.
  destruct (UpdateInterface_speed 0 firstReading Second "eth0"
              3000 1500 20 10 _
              ltac:(vm_compute; reflexivity) ltac:(vm_compute; reflexivity))
    as (_ & i' & Hi' & Hrx & Htx & _).
  exists i'. split; [done|]. rewrite Hrx, Htx. split; vm_compute; reflexivity.
Defined.
(** * The probe of one host *)

Lemma tcpFallback_first_open host net ports :
  ∀ k port rtt log,
  ports !! k = Some port →
  (∀ j port', (j < k)%nat → ports !! j = Some port' →
              net (TCP host port') = None) →
  net (TCP host port) = Some rtt →
  tcpFallback host ports net log =
    (PingResult.mk host rtt true ("TCP:" +:+ port) None,
     log ++ (TCP host <$> take (S k) ports)).
Proof.
  induction ports as [|p ports IH]; intros k port rtt log Hk Hclosed Hopen;
    [done|].
  destruct k as [|k]; simpl in Hk.
  - injection Hk as ->. cbn. unfold mbind, Net_bind, tcpPing, attempt.
    rewrite Hopen. by rewrite take_0.
  - cbn. unfold mbind, Net_bind, tcpPing, attempt.
    rewrite (Hclosed 0%nat p) by (done || lia).
    rewrite (IH k port rtt) by
      (try done; intros j port' Hj; apply (Hclosed (S j)); lia).
    by rewrite <- app_assoc.
Qed.

Lemma tcpFallback_all_closed host net ports log :
  (∀ port, port ∈ ports → net (TCP host port) = None) →
  tcpFallback host ports net log =
    (PingResult.mk host 0 false "FAILED"
       (Some "both ICMP and TCP ping failed"),
     log ++ (TCP host <$> ports)).
Proof.
  revert log. induction ports as [|p ports IH]; intros log Hclosed.
  - cbn. by rewrite app_nil_r.
  - cbn. unfold mbind, Net_bind, tcpPing, attempt.
    rewrite Hclosed by left. rewrite IH by (intros; apply Hclosed; by right).
    by rewrite <- app_assoc.
Qed.

Lemma last_appendBounded {A} (h : list A) x :
  last (appendBounded h x) = Some x.
Proof.
  unfold appendBounded. case_decide as Hlen; [|apply last_snoc].
  rewrite length_app in Hlen. simpl in Hlen.
  rewrite drop_app_le by (unfold MaxHistoryPoints in Hlen; lia).
  apply last_snoc.
Qed.

Lemma pingStep_last host o pt :
  ∃ ps, pingStep host o pt = Some ps ∧ last (PingStats.History ps) = Some pt.
Proof.
  unfold pingStep. eexists. split; [done|]. destruct o as [p|].
  - rewrite updatePingStats_History, last_appendBounded. by destruct pt.
  - by destruct pt.
Qed.

Lemma tcpFallback_not_ICMP host net ports log :
  PingResult.Method (tcpFallback host ports net log).1 ≠ "ICMP".
Proof.
  revert log. induction ports as [|p ports IH]; intros log; [done|].
  cbn. unfold mbind, Net_bind, tcpPing, attempt.
  destruct (net (TCP host p)); [done|]. apply IH.
Qed.


(** A host that answers on port 443 only. *)
Definition only443 (a : Attempt) : option Duration :=
  match a with
  | TCP "10.0.0.1" "443" => Some (7 * Millisecond)
  | _ => None
  end.


(** * The sweep *)

(** ** Addresses as numbers *)

(** The number a big-endian sequence of bytes denotes. *)
Definition toZ (ip : IP) : Z := foldl (λ acc b, acc * 256 + b) 0 ip.

(** The four bytes of a number below 2^32. *)
Definition ofZ (v : Z) : IP :=
  [v / 2 ^ 24 mod 256; v / 2 ^ 16 mod 256; v / 2 ^ 8 mod 256; v mod 256].

Definition lastOctet (ip : IP) : Z := ip !!! 3%nat.

(** [lia] with quotients and remainders by constants. *)
#[local] Ltac dlia := Z.div_mod_to_equations; lia.

#[local] Ltac pow_lit :=
  repeat match goal with
         | |- context [2 ^ ?k] =>
             let x := eval vm_compute in (2 ^ k) in change (2 ^ k) with x
         end.

Lemma isIPv4_inv ip :
  isIPv4 ip →
  ∃ a b c d, ip = [a; b; c; d] ∧ isByte a ∧ isByte b ∧ isByte c ∧ isByte d.
Proof.
  intros [Hlen Hb].
  destruct ip as [|a [|b [|c [|d [|e ip]]]]]; try discriminate.
  exists a, b, c, d. split; [done|].
  by repeat (apply Forall_cons in Hb as [? Hb]).
Qed.

Lemma ofZ_isIPv4 v : isIPv4 (ofZ v).
Proof.
  split; [done|]. unfold ofZ, isByte.
  repeat constructor; apply Z.mod_pos_bound; lia.
Qed.

Lemma toZ_range ip : isIPv4 ip → 0 <= toZ ip < 2 ^ 32.
Proof.
  intros (a & b & c & d & -> & Ha & Hb & Hc & Hd)%isIPv4_inv.
  unfold isByte, toZ in *. simpl. lia.
Qed.

Lemma toZ_ofZ v : 0 <= v < 2 ^ 32 → toZ (ofZ v) = v.
Proof. intros Hv. unfold toZ, ofZ. simpl. pow_lit. dlia. Qed.

Lemma ofZ_toZ ip : isIPv4 ip → ofZ (toZ ip) = ip.
Proof.
  intros (a & b & c & d & -> & Ha & Hb & Hc & Hd)%isIPv4_inv.
  unfold isByte, toZ, ofZ in *. simpl. pow_lit.
  f_equal; [|f_equal; [|f_equal; [|f_equal]]]; dlia.
Qed.

Lemma lastOctet_ofZ v : lastOctet (ofZ v) = v mod 256.
Proof. reflexivity. Qed.

(** [incIP] adds one modulo 2^32. *)
Lemma incIP_ofZ ip :
  isIPv4 ip → incIP ip = ofZ ((toZ ip + 1) mod 2 ^ 32).
Proof.
  intros (a & b & c & d & -> & Ha & Hb & Hc & Hd)%isIPv4_inv.
  unfold isByte, toZ, ofZ, incIP in *. simpl. pow_lit.
  repeat case_decide;
    (f_equal; [|f_equal; [|f_equal; [|f_equal]]]); dlia.
Qed.

(** ** Masks *)

Lemma ones_cases ones :
  0 <= ones <= 32 → ∃ n : nat, (n ≤ 32)%nat ∧ ones = Z.of_nat n.
Proof. intros H. exists (Z.to_nat ones). lia. Qed.

Lemma land_byte b k :
  isByte b → 0 <= k <= 8 → Z.land b (256 - 2 ^ k) = b - b mod 2 ^ k.
Proof.
  intros Hb Hk.
  assert (Hall :
    forallb (λ k, forallb (λ b, Z.land b (256 - 2 ^ k) =? b - b mod 2 ^ k)
                          (seqZ 0 256)) (seqZ 0 9) = true)
    by (vm_compute; reflexivity).
  rewrite forallb_forall in Hall.
  specialize (Hall k). rewrite forallb_forall in Hall.
  apply Z.eqb_eq, Hall; apply list_elem_of_In, elem_of_seqZ;
    unfold isByte in *; lia.
Qed.

(** Masking an address with the mask of a prefix length clears its low
    [32 - ones] bits. *)
Lemma Mask_ofZ ip ones :
  isIPv4 ip → 0 <= ones <= 32 →
  Mask ip (maskBytes 4 ones) =
    ofZ (toZ ip - toZ ip mod 2 ^ (32 - ones)).
Proof.
  intros (a & b & c & d & -> & Ha & Hb & Hc & Hd)%isIPv4_inv
         (n & Hn & ->)%ones_cases.
  do 33 (destruct n as [|n];
    [ unfold Mask, toZ, ofZ; simpl;
      repeat match goal with
             | |- context [Z.land ?x ?m] =>
                 let k := eval vm_compute in (Z.log2 (256 - m)) in
                 change m with (256 - 2 ^ k);
                 rewrite (land_byte x k) by (done || lia)
             end;
      pow_lit; unfold isByte in *;
      (f_equal; [|f_equal; [|f_equal; [|f_equal]]]); dlia
    | ]).
  lia.
Qed.

(** ** The test on the text of the address *)

Lemma list_ascii_of_string_app s1 s2 :
  String.list_ascii_of_string (s1 +:+ s2) =
    String.list_ascii_of_string s1 ++ String.list_ascii_of_string s2.
Proof. induction s1 as [|a s1 IH]; simpl; by f_equal. Qed.

Lemma suffix_test_byte d R :
  isByte d →
  isPrefix (rev (String.list_ascii_of_string ".0"))
      (rev (String.list_ascii_of_string (byteString d)) ++ "."%char :: R)
  || isPrefix (rev (String.list_ascii_of_string ".255"))
      (rev (String.list_ascii_of_string (byteString d)) ++ "."%char :: R) =
    bool_decide (d = 0 ∨ d = 255).
Proof.
  intros Hd. unfold isByte in Hd.
  assert (∃ n : nat, (n < 256)%nat ∧ d = Z.of_nat n) as (n & Hn & ->)
    by (exists (Z.to_nat d); lia).
  do 256 (destruct n as [|n]; [vm_compute; reflexivity|]).
  lia.
Qed.

(** The addresses the loop skips are those whose last byte is 0 or 255. *)
Lemma skipped_iff_lastOctet ip :
  isIPv4 ip →
  HasSuffix (ipString ip) ".0" || HasSuffix (ipString ip) ".255" =
    bool_decide (lastOctet ip = 0 ∨ lastOctet ip = 255).
Proof.
  intros (a & b & c & d & -> & Ha & Hb & Hc & Hd)%isIPv4_inv.
  unfold HasSuffix, ipString, lastOctet.
  rewrite !list_ascii_of_string_app, !app_assoc, rev_app_distr.
  change (String.list_ascii_of_string ".") with ["."%char].
  rewrite (rev_app_distr _ ["."%char]).
  change (rev ["."%char]) with ["."%char].
  exact (suffix_test_byte d _ Hd).
Qed.

(** ** Which addresses a network contains *)

(** An address the loop does not skip. *)
Definition hostLike (ip : IP) : Prop :=
  lastOctet ip ≠ 0 ∧ lastOctet ip ≠ 255.

#[global] Instance hostLike_dec ip : Decision (hostLike ip).
Proof. unfold hostLike. apply _. Defined.

#[global] Instance isByte_dec b : Decision (isByte b).
Proof. unfold isByte. apply _. Defined.

#[global] Instance isIPv4_dec ip : Decision (isIPv4 ip).
Proof. unfold isIPv4. apply _. Defined.

(** The [n] addresses that follow the number [nv + k], in order. *)
Definition addrsFrom (nv k : Z) (n : nat) : list IP :=
  (λ j, ofZ (nv + j)) <$> seqZ k (Z.of_nat n).

Section Subnet.
Variables (addr : IP) (ones : Z).
Hypothesis Haddr : isIPv4 addr.
Hypothesis Hones : 0 <= ones <= 32.

(** The size of the subnet and its first address, as numbers. *)
Definition blockSize : Z := 2 ^ (32 - ones).
Definition networkNumber : Z := toZ addr - toZ addr mod blockSize.

Definition subnetOf : IPNet :=
  mkIPNet (Mask addr (maskBytes 4 ones)) (maskBytes 4 ones).

Lemma ParseCIDR_subnetOf : ParseCIDR addr ones = Some subnetOf.
Proof.
  unfold ParseCIDR, CIDRMask. rewrite decide_False by lia.
  rewrite decide_False by lia. done.
Qed.

Lemma blockSize_pos : 0 < blockSize.
Proof. unfold blockSize. apply Z.pow_pos_nonneg; lia. Qed.

Lemma blockSize_divides : (blockSize | 2 ^ 32).
Proof.
  unfold blockSize. exists (2 ^ ones).
  rewrite <- Z.pow_add_r by lia. f_equal. lia.
Qed.

Lemma networkNumber_range :
  0 <= networkNumber ∧ networkNumber + blockSize <= 2 ^ 32 ∧
  networkNumber mod blockSize = 0.
Proof.
  pose proof blockSize_pos as Hpos.
  pose proof (toZ_range addr Haddr) as Hr.
  destruct blockSize_divides as [q Hq].
  unfold networkNumber.
  pose proof (Z.mod_pos_bound (toZ addr) blockSize Hpos) as Hm.
  pose proof (Z.div_mod (toZ addr) blockSize ltac:(lia)) as Hdm.
  assert (Heq : toZ addr - toZ addr mod blockSize =
                blockSize * (toZ addr / blockSize)) by lia.
  rewrite Heq. split; [|split].
  - apply Z.mul_nonneg_nonneg; [lia|]. apply Z.div_pos; lia.
  - assert (toZ addr / blockSize < q).
    { apply Z.div_lt_upper_bound; lia. }
    nia.
  - rewrite Z.mul_comm. apply Z.mod_mul. lia.
Qed.

Lemma netIP_subnetOf : netIP subnetOf = ofZ networkNumber.
Proof. by apply Mask_ofZ. Qed.

Lemma Contains_subnetOf ip :
  isIPv4 ip →
  Contains subnetOf ip = true ↔
    networkNumber <= toZ ip < networkNumber + blockSize.
Proof.
  intros Hip.
  pose proof blockSize_pos as Hpos.
  destruct networkNumber_range as (Hn0 & Hn1 & Hn2).
  pose proof (toZ_range ip Hip) as Hr.
  unfold Contains. rewrite andb_true_iff, !bool_decide_eq_true.
  change (zip_with Z.land ip (netMask subnetOf))
    with (Mask ip (maskBytes 4 ones)).
  change (zip_with Z.land (netIP subnetOf) (netMask subnetOf))
    with (Mask (netIP subnetOf) (maskBytes 4 ones)).
  rewrite netIP_subnetOf.
  rewrite !Mask_ofZ by (done || apply ofZ_isIPv4).
  rewrite toZ_ofZ by lia. fold blockSize. rewrite Hn2, Z.sub_0_r.
  pose proof (Z.mod_pos_bound (toZ ip) blockSize Hpos) as Hm.
  pose proof (Z.div_mod (toZ ip) blockSize ltac:(lia)) as Hdm.
  pose proof (Z.mod_le (toZ ip) blockSize ltac:(lia) Hpos) as Hle.
  split.
  - intros [_ Heq].
    apply (f_equal toZ) in Heq. rewrite !toZ_ofZ in Heq by lia. lia.
  - intros Hin. split; [by destruct Hip as [-> _]|]. f_equal.
    assert (Hq : toZ ip / blockSize = networkNumber / blockSize).
    { symmetry. apply Z.div_unique with (r := toZ ip - networkNumber); [lia|].
      pose proof (Z.div_mod networkNumber blockSize ltac:(lia)). lia. }
    pose proof (Z.div_mod networkNumber blockSize ltac:(lia)). lia.
Qed.

(** *** The loop *)

Hypothesis Hprefix : 1 <= ones.

Lemma blockSize_half : blockSize <= 2 ^ 31.
Proof. unfold blockSize. apply Z.pow_le_mono_r; lia. Qed.

Lemma after_last_not_contained :
  Contains subnetOf (ofZ ((networkNumber + blockSize) mod 2 ^ 32)) = false.
Proof.
  apply not_true_is_false. rewrite Contains_subnetOf by apply ofZ_isIPv4.
  pose proof blockSize_pos. pose proof blockSize_half.
  destruct networkNumber_range as (Hn0 & Hn1 & _).
  rewrite toZ_ofZ by (apply Z.mod_pos_bound; lia).
  destruct (decide (networkNumber + blockSize = 2 ^ 32)) as [Heq|Hne].
  - rewrite Heq, Z.mod_same by lia. lia.
  - rewrite Z.mod_small by lia. lia.
Qed.

Lemma sweepLoop_from ping (n : nat) :
  ∀ k fuel probed active,
  0 <= k → k + Z.of_nat n = blockSize → (n < fuel)%nat →
  sweepLoop fuel ping subnetOf (ofZ ((networkNumber + k) mod 2 ^ 32))
            probed active =
    let P := ipString <$> filter hostLike (addrsFrom networkNumber k n) in
    Some (probed ++ P, active ++ filter (λ s, ping s) P).
Proof.
  pose proof blockSize_pos as Hpos.
  destruct networkNumber_range as (Hn0 & Hn1 & _).
  induction n as [|n IH]; intros k fuel probed active Hk Hkn Hfuel;
    (destruct fuel as [|fuel]; [lia|]); cbn [sweepLoop].
  - replace k with blockSize by lia.
    rewrite after_last_not_contained. simpl. by rewrite !app_nil_r.
  - rewrite Z.mod_small by lia.
    assert (Hin : Contains subnetOf (ofZ (networkNumber + k)) = true).
    { apply Contains_subnetOf; [apply ofZ_isIPv4|].
      rewrite toZ_ofZ by lia. lia. }
    rewrite Hin, skipped_iff_lastOctet by apply ofZ_isIPv4.
    rewrite incIP_ofZ, toZ_ofZ by (apply ofZ_isIPv4 || lia).
    replace (networkNumber + k + 1) with (networkNumber + (k + 1)) by lia.
    unfold addrsFrom. rewrite seqZ_cons by lia. rewrite fmap_cons, filter_cons.
    replace (Z.succ k) with (k + 1) by lia.
    replace (Z.pred (Z.of_nat (S n))) with (Z.of_nat n) by lia.
    specialize (IH (k + 1)). unfold addrsFrom in IH.
    destruct (decide (hostLike (ofZ (networkNumber + k)))) as [Hhost|Hedge].
    + rewrite bool_decide_false by (unfold hostLike in Hhost; tauto).
      rewrite fmap_cons, filter_cons.
      destruct (ping (ipString (ofZ (networkNumber + k)))) eqn:Hping.
      * rewrite decide_True by done.
        rewrite IH by lia. cbn zeta. by rewrite <- !(assoc_L (++)).
      * rewrite decide_False by (intros []).
        rewrite IH by lia. cbn zeta. by rewrite <- !(assoc_L (++)).
    + rewrite bool_decide_true
        by (unfold hostLike in Hedge;
            destruct (decide (lastOctet (ofZ (networkNumber + k)) = 0));
            [tauto|]; right; apply dec_stable; tauto).
      by rewrite IH by lia.
Qed.

End Subnet.


(** ** What the sweep probes *)

(** The addresses of the subnet of [addr/ones], in increasing order. *)
Definition subnetAddrs (addr : IP) (ones : Z) : list IP :=
  addrsFrom (networkNumber addr ones) 0 (Z.to_nat (blockSize ones)).

(** The last address of a network: the bits the mask leaves free all set. *)
Definition Broadcast (n : IPNet) : IP :=
  zip_with (λ b m, Z.lor b (Z.lxor 255 m)) (netIP n) (netMask n).

Lemma subnetAddrs_Contains addr ones ip :
  isIPv4 addr → 0 <= ones <= 32 → isIPv4 ip →
  ip ∈ subnetAddrs addr ones ↔ Contains (subnetOf addr ones) ip = true.
Proof.
  intros Haddr Hones Hip.
  pose proof (blockSize_pos ones Hones) as Hpos.
  destruct (networkNumber_range addr ones Haddr Hones) as (Hn0 & Hn1 & _).
  rewrite Contains_subnetOf by done.
  unfold subnetAddrs, addrsFrom. rewrite list_elem_of_fmap.
  setoid_rewrite elem_of_seqZ. rewrite Z2Nat.id by lia. split.
  - intros (j & -> & Hj). rewrite toZ_ofZ by lia. lia.
  - intros Hin. exists (toZ ip - networkNumber addr ones). split; [|lia].
    replace (networkNumber addr ones + (toZ ip - networkNumber addr ones))
      with (toZ ip) by lia.
    by rewrite ofZ_toZ.
Qed.

Lemma slash24_hosts addr ip :
  isIPv4 addr → ip ∈ subnetAddrs addr 24 →
  hostLike ip ↔
    ip ≠ netIP (subnetOf addr 24) ∧ ip ≠ Broadcast (subnetOf addr 24).
Proof.
  intros Haddr Hin.
  destruct (networkNumber_range addr 24 Haddr ltac:(lia)) as (Hn0 & Hn1 & Hn2).
  unfold subnetAddrs, addrsFrom in Hin.
  apply list_elem_of_fmap in Hin as (j & -> & Hj%elem_of_seqZ).
  unfold Broadcast. rewrite netIP_subnetOf by (done || lia).
  change (netMask (subnetOf addr 24)) with [255; 255; 255; 0].
  change (blockSize 24) with 256 in *.
  change (Z.of_nat (Z.to_nat 256)) with 256 in Hj.
  generalize dependent (networkNumber addr 24). intros nv Hn0 Hn1 Hn2.
  unfold hostLike. rewrite lastOctet_ofZ.
  unfold ofZ. simpl zip_with. pow_lit.
  change (Z.lxor 255 255) with 0. change (Z.lxor 255 0) with 255.
  rewrite !Z.lor_0_r, Hn2. change (Z.lor 0 255) with 255.
  split.
  - intros [H0 H255]. split; intros [= ? ? ? ?]; congruence.
  - intros [Hnet Hbc]. split; intros Hlast.
    + apply Hnet. f_equal; [|f_equal; [|f_equal; [|f_equal]]]; dlia.
    + apply Hbc. f_equal; [|f_equal; [|f_equal; [|f_equal]]]; dlia.
Qed.

(** C9, as stated, fails for prefix lengths other than 24.  In
    192.168.1.1/30 the broadcast address 192.168.1.3 is probed; in
    192.168.0.7/23 the addresses 192.168.0.255 and 192.168.1.0, which are
    neither the network address nor the broadcast address, are not. *)
Lemma pingSweep_not_exactly_the_hosts :
  (∃ ipnet probed active,
     ParseCIDR [192; 168; 1; 1] 30 = Some ipnet ∧
     pingSweep 10 (λ _, true) [192; 168; 1; 1] 30 = Some (probed, active) ∧
     Broadcast ipnet = [192; 168; 1; 3] ∧
     ipString [192; 168; 1; 3] ∈ probed) ∧
  (∃ ipnet probed active,
     ParseCIDR [192; 168; 0; 7] 23 = Some ipnet ∧
     pingSweep 600 (λ _, true) [192; 168; 0; 7] 23 = Some (probed, active) ∧
     netIP ipnet = [192; 168; 0; 0] ∧
     Broadcast ipnet = [192; 168; 1; 255] ∧
     Contains ipnet [192; 168; 0; 255] = true ∧
     Contains ipnet [192; 168; 1; 0] = true ∧
     (ipString [192; 168; 0; 255] ∉ probed) ∧
     (ipString [192; 168; 1; 0] ∉ probed)).
Proof.
  split.
  - eexists _, _, _. split; [reflexivity|].
    split; [vm_compute; reflexivity|]. split; [reflexivity|].
    apply (bool_decide_unpack _). vm_compute. exact I.
  - eexists _, _, _. split; [reflexivity|].
    split; [vm_compute; reflexivity|].
    do 4 (split; [reflexivity|]).
    split; apply (bool_decide_unpack _); vm_compute; exact I.
Qed.

(** C9 (amended).  For an IPv4 subnet [addr/ones] with a prefix length of 1
    to 32, the loop of [pingSweep] ends, and the addresses it hands to
    [ping] are, in increasing order, the addresses the subnet contains whose
    last byte is neither 0 nor 255; [active] holds those for which [ping]
    succeeded.  For a /24 these are the addresses of the subnet other than
    its network address and its broadcast address. *)
Theorem pingSweep_probes_by_last_octet ping addr ones fuel :
  isIPv4 addr → 1 <= ones <= 32 →
  (Z.to_nat (2 ^ (32 - ones)) < fuel)%nat →
  ∃ ipnet,
    ParseCIDR addr ones = Some ipnet ∧
    (∀ ip, isIPv4 ip →
           ip ∈ subnetAddrs addr ones ↔ Contains ipnet ip = true) ∧
    pingSweep fuel ping addr ones =
      Some (ipString <$> filter hostLike (subnetAddrs addr ones),
            filter (λ s, ping s)
              (ipString <$> filter hostLike (subnetAddrs addr ones))) ∧
    (ones = 24 →
     ∀ ip, ip ∈ subnetAddrs addr ones →
           hostLike ip ↔ ip ≠ netIP ipnet ∧ ip ≠ Broadcast ipnet).
Proof.
  intros Haddr Hones Hfuel. exists (subnetOf addr ones).
  assert (Hones' : 0 <= ones <= 32) by lia.
  split; [by apply ParseCIDR_subnetOf|].
  split; [intros ip Hip; by apply subnetAddrs_Contains|].
  split.
  - unfold pingSweep. rewrite ParseCIDR_subnetOf by done.
    pose proof (blockSize_pos ones Hones') as Hpos.
    destruct (networkNumber_range addr ones Haddr Hones')
      as (Hn0 & Hn1 & Hn2).
    replace (Mask (netIP (subnetOf addr ones)) (netMask (subnetOf addr ones)))
      with (ofZ ((networkNumber addr ones + 0) mod 2 ^ 32)).
    + rewrite (sweepLoop_from addr ones Haddr Hones' ltac:(lia) ping
                 (Z.to_nat (blockSize ones)))
        by (unfold blockSize in *; lia).
      done.
    + rewrite Z.add_0_r, Z.mod_small by lia.
      rewrite netIP_subnetOf by done.
      change (netMask (subnetOf addr ones)) with (maskBytes 4 ones).
      rewrite Mask_ofZ by (apply ofZ_isIPv4 || done).
      rewrite toZ_ofZ by lia. fold (blockSize ones).
      by rewrite Hn2, Z.sub_0_r.
  - intros ->. intros ip Hin. by apply slash24_hosts.
Qed.

(** The subnet of 192.168.1.77/24, where only 192.168.1.2 answers. *)
Lemma pingSweep_probes_by_last_octet_witness :
  ∃ probed,
    pingSweep 257 (λ s, bool_decide (s = "192.168.1.2")) [192; 168; 1; 77] 24
      = Some (probed, ["192.168.1.2"]) ∧
    length probed = 254%nat ∧
    head probed = Some "192.168.1.1" ∧
    last probed = Some "192.168.1.254".
Proof.
  destruct (pingSweep_probes_by_last_octet
              (λ s, bool_decide (s = "192.168.1.2")) [192; 168; 1; 77] 24 257)
    as (ipnet & _ & _ & Hsweep & _).
  - apply (bool_decide_unpack _). vm_compute. exact I.
  - lia.
  - vm_compute. lia.
  - rewrite Hsweep. eexists. split; [vm_compute; reflexivity|].
    repeat split; vm_compute; reflexivity.
Defined.

(** With a prefix length of 0 the loop does not end: after
    255.255.255.255 comes 0.0.0.0, which the network contains again. *)
Lemma sweepLoop_slash0_never_ends ping addr fuel :
  isIPv4 addr →
  ∀ ip probed active, isIPv4 ip →
    sweepLoop fuel ping (subnetOf addr 0) ip probed active = None.
Proof.
  intros Haddr. induction fuel as [|fuel IH]; intros ip probed active Hip;
    [done|].
  cbn [sweepLoop].
  assert (Hin : Contains (subnetOf addr 0) ip = true).
  { apply Contains_subnetOf; [done|lia|done|].
    destruct (networkNumber_range addr 0 Haddr ltac:(lia)) as (? & ? & _).
    pose proof (toZ_range ip Hip).
    change (blockSize 0) with (2 ^ 32) in *. lia. }
  rewrite Hin, incIP_ofZ by done.
  destruct (_ || _); [|destruct (ping _)]; apply IH, ofZ_isIPv4.
Qed.

(** * More of the store *)

(** ** [UpdatePing] through the views *)

Lemma UpdatePing_pingOf now host latency success st k :
  wf st →
  pingOf (UpdatePing now host latency success st) k =
    if decide (k = host) then
      Some (match pingOf st host with
            | Some p => updatePingStats now latency success p
            | None =>
                PingStats.setAvgLatency 0
                  (newPingStats now host latency success)
            end)
    else pingOf st k.
Proof.
  intros (_ & _ & Hp). unfold UpdatePing, pingOf.
  destruct (PingResults (store st) !! host) as [p|] eqn:Hk; simpl.
  - rewrite (deref_alter _ _ _ host p) by done.
    case_decide; [subst k|done].
    unfold deref. rewrite Hk. simpl.
    destruct (proj1 Hp _ _ Hk) as [d ->]. done.
  - rewrite lookup_insert_eq.
    assert (Hnone : deref (PingResults (store st)) (pingObjs (heap st)) host
                    = None) by (unfold deref; by rewrite Hk).
    rewrite Hnone.
    destruct success; simpl.
    + rewrite deref_alloc by done. by case_decide.
    + unfold deref. rewrite lookup_insert. case_decide as Hkk.
      * subst k. rewrite decide_True by done. simpl.
        by rewrite !lookup_alter_eq, lookup_insert_eq.
      * rewrite decide_False by done.
        destruct (PingResults (store st) !! k) as [q|] eqn:Hq; simpl; [|done].
        assert (q ≠ fresh (dom (pingObjs (heap st)))).
        { intros ->. by eapply fresh_not_pointed. }
        by rewrite !lookup_alter_ne, lookup_insert_ne.
Qed.

Lemma UpdatePing_ifaceOf now host latency success st k :
  ifaceOf (UpdatePing now host latency success st) k = ifaceOf st k.
Proof.
  unfold UpdatePing, ifaceOf.
  destruct (PingResults (store st) !! host); [done|].
  by destruct success.
Qed.

Lemma UpdatePing_deviceOf now host latency success st k :
  deviceOf (UpdatePing now host latency success st) k = deviceOf st k.
Proof.
  unfold UpdatePing, deviceOf.
  destruct (PingResults (store st) !! host); [done|].
  by destruct success.
Qed.

Lemma UpdatePing_LastUpdated now host latency success st :
  LastUpdated (store (UpdatePing now host latency success st)) =
    LastUpdated (store st).
Proof.
  unfold UpdatePing.
  destruct (PingResults (store st) !! host); [done|].
  by destruct success.
Qed.


(** ** The statistics of a host as a function of its samples *)

(** Induction over the samples of a host: the first makes the object, each
    later one updates it. *)
Lemma foldl_pingStep_ind host (P : list PingPoint.t → PingStats.t → Prop) :
  (∀ pt, P [pt] (newPingStats (PingPoint.Timestamp pt) host
                   (PingPoint.Latency pt) (PingPoint.Success pt))) →
  (∀ samples ps pt,
     samples ≠ [] → P samples ps →
     P (samples ++ [pt])
       (updatePingStats (PingPoint.Timestamp pt) (PingPoint.Latency pt)
          (PingPoint.Success pt) ps)) →
  ∀ samples,
    match foldl (pingStep host) None samples with
    | None => samples = []
    | Some ps => samples ≠ [] ∧ P samples ps
    end.
Proof.
  intros Hnew Hupd samples.
  induction samples as [|pt samples IH] using rev_ind; [done|].
  rewrite foldl_app. cbn [foldl]. unfold pingStep at 1.
  destruct (foldl _ None samples) as [ps|].
  - destruct IH as [Hne HP]. split; [by destruct samples|]. by apply Hupd.
  - subst samples. split; [done|]. apply Hnew.
Qed.

Lemma run_pingStep_ind t0 cs host (P : list PingPoint.t → PingStats.t → Prop) :
  (∀ pt, P [pt] (newPingStats (PingPoint.Timestamp pt) host
                   (PingPoint.Latency pt) (PingPoint.Success pt))) →
  (∀ samples ps pt,
     samples ≠ [] → P samples ps →
     P (samples ++ [pt])
       (updatePingStats (PingPoint.Timestamp pt) (PingPoint.Latency pt)
          (PingPoint.Success pt) ps)) →
  match pingOf (run cs (NewStore t0)) host with
  | None => pingSamples host cs = []
  | Some ps => pingSamples host cs ≠ [] ∧ P (pingSamples host cs) ps
  end.
Proof.
  intros Hnew Hupd.
  rewrite run_pingOf, pingOf_NewStore by apply wf_NewStore.
  by apply foldl_pingStep_ind.
Qed.

Section UpdatePingStatsMoreFields.
Variables (now : Time) (rtt : Duration) (success : bool) (ping : PingStats.t).

Lemma updatePingStats_LastLatency :
  PingStats.LastLatency (updatePingStats now rtt success ping) =
    if success then rtt else PingStats.LastLatency ping.
Proof.
  unfold updatePingStats.
  destruct success; simpl; repeat case_match; reflexivity.
Qed.

Lemma updatePingStats_Host :
  PingStats.Host (updatePingStats now rtt success ping) = PingStats.Host ping.
Proof.
  unfold updatePingStats.
  destruct success; simpl; repeat case_match; reflexivity.
Qed.

Lemma updatePingStats_LastUpdated :
  PingStats.LastUpdated (updatePingStats now rtt success ping) = now.
Proof.
  unfold updatePingStats.
  destruct success; simpl; repeat case_match; reflexivity.
Qed.

Lemma updatePingStats_AvgLatency_failure :
  success = false →
  PingStats.AvgLatency (updatePingStats now rtt success ping) =
    PingStats.AvgLatency ping.
Proof. intros ->. reflexivity. Qed.

End UpdatePingStatsMoreFields.

(** The successful samples. *)
Definition succeeded (samples : list PingPoint.t) : list PingPoint.t :=
  filter (λ p, PingPoint.Success p = true) samples.

Lemma succeeded_snoc samples pt :
  succeeded (samples ++ [pt]) =
    succeeded samples ++ (if PingPoint.Success pt then [pt] else []).
Proof.
  unfold succeeded. rewrite filter_app. f_equal.
  destruct pt as [ts lat [|]]; reflexivity.
Qed.

(** The latency of the latest successful sample; of the first sample when
    none succeeded. *)
Definition latestLatency (samples : list PingPoint.t) : option Duration :=
  PingPoint.Latency <$>
    match last (succeeded samples) with
    | Some pt => Some pt
    | None => head samples
    end.

(** X2.  [LastLatency] of a host is the round-trip time of its latest
    successful probe.  As long as no probe of the host has succeeded it is
    the value recorded with the first, failed, probe; a failed probe never
    changes it afterwards. *)
Theorem LastLatency_is_latest_success t0 cs host :
  PingStats.LastLatency <$> pingOf (run cs (NewStore t0)) host =
    latestLatency (pingSamples host cs).
Proof.
  assert (H := run_pingStep_ind t0 cs host
    (λ samples ps, Some (PingStats.LastLatency ps) = latestLatency samples)).
  lapply H; [clear H; intros H; lapply H; clear H|].
  - intros H. destruct (pingOf _ host) as [ps|]; [apply H|by rewrite H].
  - intros samples ps' pt Hne IH.
    rewrite updatePingStats_LastLatency. unfold latestLatency in *.
    rewrite succeeded_snoc.
    destruct (PingPoint.Success pt).
    + by rewrite last_snoc.
    + rewrite app_nil_r, IH.
      destruct (last (succeeded samples)); [done|].
      by destruct samples.
  - by intros [ts lat [|]].
Qed.

(** ** The average latency over a history with failures *)

Lemma rescan_from history : ∀ total count,
  in_i64 total → in_i64 count →
  foldl (λ '(total, count) point,
           if PingPoint.Success point
           then (wrap_i64 (total + PingPoint.Latency point),
                 wrap_i64 (count + 1))
           else (total, count))
        (total, count) history =
    (wrap_i64 (total + sumZ (latencies (succeeded history))),
     wrap_i64 (count + Z.of_nat (length (succeeded history)))).
Proof.
  induction history as [|pt history IH]; intros total count Ht Hc.
  - simpl. by rewrite !Z.add_0_r, !wrap_i64_small.
  - cbn [foldl]. destruct pt as [ts lat [|]]; cbn [PingPoint.Success].
    + rewrite IH by apply wrap_i64_range. rewrite !wrap_i64_add_l.
      unfold succeeded. rewrite filter_cons_True by done.
      cbn [latencies fmap list_fmap sumZ foldr length PingPoint.Latency].
      f_equal; f_equal; unfold latencies, sumZ; lia.
    + rewrite IH by done. unfold succeeded. by rewrite filter_cons_False.
Qed.

Lemma foldl_pingStep_Some host samples : ∀ p,
  ∃ p', foldl (pingStep host) (Some p) samples = Some p'.
Proof.
  induction samples as [|pt samples IH]; intros p; [by eexists|].
  cbn [foldl]. unfold pingStep at 2. apply IH.
Qed.

(** Failed samples leave the average as it is. *)
Lemma foldl_pingStep_failures host samples : ∀ p p',
  succeeded samples = [] →
  foldl (pingStep host) (Some p) samples = Some p' →
  PingStats.AvgLatency p' = PingStats.AvgLatency p.
Proof.
  induction samples as [|pt samples IH]; intros p p' Hf; cbn [foldl].
  - by intros [= ->].
  - unfold pingStep at 2. unfold succeeded in Hf.
    destruct (PingPoint.Success pt) eqn:Hs.
    + by rewrite filter_cons_True in Hf.
    + rewrite filter_cons_False in Hf by by rewrite Hs.
      intros Hp'. rewrite (IH _ _ Hf Hp').
      by apply updatePingStats_AvgLatency_failure.
Qed.

(** X3.  The average latency of a host whose latest successful probe [pt]
    was not its first probe: the round-trip time of [pt] plus those of the
    successful probes among the (at most 100) samples the history held when
    [pt] came, divided by their number with truncation toward zero, the sum
    taken in 64 bits.  Failed probes, before or after, do not enter it. *)
Theorem average_latency_over_window t0 cs host ps pre pt post :
  pingOf (run cs (NewStore t0)) host = Some ps →
  pingSamples host cs = pre ++ pt :: post →
  pre ≠ [] →
  PingPoint.Success pt = true →
  succeeded post = [] →
  in_i64 (PingPoint.Latency pt) →
  PingStats.AvgLatency ps =
    Z.quot
      (wrap_i64 (PingPoint.Latency pt +
                 sumZ (latencies (succeeded (lastN MaxHistoryPoints pre)))))
      (1 + Z.of_nat (length (succeeded (lastN MaxHistoryPoints pre)))).
Proof.
  intros Hps Hsplit Hpre Hok Hpost Hlat.
  rewrite run_pingOf, pingOf_NewStore, Hsplit in Hps by apply wf_NewStore.
  rewrite foldl_app in Hps. cbn [foldl] in Hps.
  pose proof (foldl_pingHistory host pre) as Hh.
  destruct (foldl (pingStep host) None pre) as [p0|]; [|done].
  simpl in Hh. unfold pingStep at 2 in Hps.
  rewrite (foldl_pingStep_failures _ _ _ _ Hpost Hps), Hok.
  assert (Hne : PingStats.History p0 ≠ []).
  { rewrite Hh. intros Hnil. apply (f_equal length) in Hnil.
    rewrite length_lastN in Hnil. unfold MaxHistoryPoints in Hnil.
    destruct pre; simpl in *; [done|lia]. }
  rewrite updatePingStats_AvgLatency_success by done.
  rewrite Hh. unfold rescan. rewrite rescan_from by done. cbn [fst snd].
  assert (Hlen : (length (succeeded (lastN MaxHistoryPoints pre))
                  ≤ MaxHistoryPoints)%nat).
  { etrans; [apply length_filter|]. rewrite length_lastN. lia. }
  unfold MaxHistoryPoints in Hlen.
  rewrite (wrap_i64_small (1 + _))
    by (unfold in_i64, min_i64, max_i64, MaxHistoryPoints; lia).
  apply div_i64_small; [apply wrap_i64_range|lia].
Qed.

(** A success of 10 ms, a failure, a success of 30 ms, a failure. *)
Definition mixedProbes : list Call :=
  [probeOk 0 "8.8.8.8" (10 * Millisecond); probeFailed 5 "8.8.8.8";
   probeOk 10 "8.8.8.8" (30 * Millisecond); probeFailed 15 "8.8.8.8"].

Lemma average_latency_over_window_witness :
  ∃ ps, pingOf (run mixedProbes (NewStore 0)) "8.8.8.8" = Some ps ∧
        PingStats.AvgLatency ps = 20 * Millisecond.
Proof.
  eexists. split; [vm_compute; reflexivity|].
  match goal with
  | |- PingStats.AvgLatency ?ps = _ =>
      rewrite (average_latency_over_window 0 mixedProbes "8.8.8.8" ps
                 [PingPoint.mk 0 (10 * Millisecond) true;
                  PingPoint.mk 5 0 false]
                 (PingPoint.mk 10 (30 * Millisecond) true)
                 [PingPoint.mk 15 0 false]
                 ltac:(vm_compute; reflexivity) ltac:(vm_compute; reflexivity)
                 ltac:(discriminate) ltac:(reflexivity)
                 ltac:(vm_compute; reflexivity)
                 ltac:(apply (bool_decide_unpack _); vm_compute; exact I))
  end.
  vm_compute. reflexivity.
Defined.

(** ** The newest point of a history *)

(** X4.  The statistics of a probed host are in step with their history:
    the object carries the name of its key, its history is never empty, and
    the newest point of the history is the latest sample recorded for the
    host, at the time the object says it was last updated; when that sample
    succeeded its latency is [LastLatency]. *)
Theorem ping_newest_point_mirrors_object t0 cs host ps :
  pingOf (run cs (NewStore t0)) host = Some ps →
  PingStats.Host ps = host ∧
  ∃ pt,
    last (PingStats.History ps) = Some pt ∧
    last (pingSamples host cs) = Some pt ∧
    PingPoint.Timestamp pt = PingStats.LastUpdated ps ∧
    (PingPoint.Success pt = true →
     PingPoint.Latency pt = PingStats.LastLatency ps).
Proof.
  intros Hps.
  assert (H := run_pingStep_ind t0 cs host
    (λ samples ps,
       PingStats.Host ps = host ∧
       ∃ pt,
         last (PingStats.History ps) = Some pt ∧
         last samples = Some pt ∧
         PingPoint.Timestamp pt = PingStats.LastUpdated ps ∧
         (PingPoint.Success pt = true →
          PingPoint.Latency pt = PingStats.LastLatency ps))).
  rewrite Hps in H. apply H; clear.
  - intros [ts lat s]. split; [done|]. by eexists.
  - intros samples ps pt _ [Hhost _].
    rewrite updatePingStats_Host. split; [done|]. exists pt.
    rewrite updatePingStats_History, updatePingStats_LastUpdated,
      updatePingStats_LastLatency, last_appendBounded, last_snoc.
    destruct pt as [ts lat s]. repeat split. simpl. by intros ->.
Qed.

Lemma ping_newest_point_mirrors_object_witness :
  ∃ ps, pingOf (run mixedProbes (NewStore 0)) "8.8.8.8" = Some ps ∧
        last (PingStats.History ps) = Some (PingPoint.mk 15 0 false) ∧
        PingStats.LastUpdated ps = 15.
Proof.
  eexists. split; [vm_compute; reflexivity|].
  match goal with
  | |- last (PingStats.History ?ps) = _ ∧ _ =>
      destruct (ping_newest_point_mirrors_object 0 mixedProbes "8.8.8.8" ps
                  ltac:(vm_compute; reflexivity))
        as (_ & pt & Hh & Hs & Ht & _)
  end.
  rewrite Hh, <- Ht. vm_compute in Hs. injection Hs as <-. done.
Defined.

(** ** An interface and its latest reading *)

Lemma run_ifaceStep_ind t0 cs name
    (P : list Reading → InterfaceStats.t → Prop) :
  (∀ r, P [r] (newInterfaceStats (rdNow r) name (rdBytesRx r) (rdBytesTx r)
                 (rdPacketsRx r) (rdPacketsTx r))) →
  (∀ readings i r,
     readings ≠ [] → P readings i →
     P (readings ++ [r])
       (updateInterfaceStats (rdNow r) (rdBytesRx r) (rdBytesTx r)
          (rdPacketsRx r) (rdPacketsTx r) i)) →
  match ifaceOf (run cs (NewStore t0)) name with
  | None => ifaceReadings name cs = []
  | Some i => ifaceReadings name cs ≠ [] ∧ P (ifaceReadings name cs) i
  end.
Proof.
  intros Hnew Hupd.
  rewrite run_ifaceOf, ifaceOf_NewStore by apply wf_NewStore.
  induction (ifaceReadings name cs) as [|r readings IH] using rev_ind; [done|].
  rewrite foldl_app. cbn [foldl]. unfold ifaceStep at 1.
  destruct (foldl _ None readings) as [i|].
  - destruct IH as [Hne HP]. split; [by destruct readings|]. by apply Hupd.
  - subst readings. split; [done|]. apply Hnew.
Qed.

Section UpdateInterfaceStatsFields.
Variables (now : Time) (rx tx prx ptx : Z) (i : InterfaceStats.t).

Lemma updateInterfaceStats_counters :
  InterfaceStats.Name (updateInterfaceStats now rx tx prx ptx i) =
    InterfaceStats.Name i ∧
  InterfaceStats.BytesRx (updateInterfaceStats now rx tx prx ptx i) = rx ∧
  InterfaceStats.BytesTx (updateInterfaceStats now rx tx prx ptx i) = tx ∧
  InterfaceStats.PacketsRx (updateInterfaceStats now rx tx prx ptx i) = prx ∧
  InterfaceStats.PacketsTx (updateInterfaceStats now rx tx prx ptx i) = ptx ∧
  InterfaceStats.LastCheck (updateInterfaceStats now rx tx prx ptx i) = now.
Proof. unfold updateInterfaceStats. by destruct (F64.ltb _ _). Qed.

Lemma updateInterfaceStats_newest :
  last (InterfaceStats.History (updateInterfaceStats now rx tx prx ptx i)) =
    Some (DataPoint.mk now rx tx
            (InterfaceStats.SpeedRx (updateInterfaceStats now rx tx prx ptx i))
            (InterfaceStats.SpeedTx
               (updateInterfaceStats now rx tx prx ptx i))).
Proof.
  unfold updateInterfaceStats.
  destruct (F64.ltb _ _); simpl; apply last_appendBounded.
Qed.

Lemma updateInterfaceStats_same_speed :
  F64.ltb F64.zero (Seconds (Sub now (InterfaceStats.LastCheck i))) = false →
  InterfaceStats.SpeedRx (updateInterfaceStats now rx tx prx ptx i) =
    InterfaceStats.SpeedRx i ∧
  InterfaceStats.SpeedTx (updateInterfaceStats now rx tx prx ptx i) =
    InterfaceStats.SpeedTx i.
Proof. intros Hle. unfold updateInterfaceStats. by rewrite Hle. Qed.

End UpdateInterfaceStatsFields.

(** X5.  An interface of the store carries the name of its key and the
    counters and the time of the latest reading made of it.  Its history is
    empty exactly as long as it has been read once, and then both speeds
    are 0; from the second reading on, the newest point of the history
    repeats the time, the byte counters and the speeds of the object. *)
Theorem interface_holds_latest_reading t0 cs name i :
  ifaceOf (run cs (NewStore t0)) name = Some i →
  InterfaceStats.Name i = name ∧
  last (ifaceReadings name cs) =
    Some (mkReading (InterfaceStats.LastCheck i)
            (InterfaceStats.BytesRx i) (InterfaceStats.BytesTx i)
            (InterfaceStats.PacketsRx i) (InterfaceStats.PacketsTx i)) ∧
  (InterfaceStats.History i = [] ↔ length (ifaceReadings name cs) = 1%nat) ∧
  (InterfaceStats.History i = [] →
   InterfaceStats.SpeedRx i = F64.zero ∧
   InterfaceStats.SpeedTx i = F64.zero) ∧
  (InterfaceStats.History i ≠ [] →
   last (InterfaceStats.History i) =
     Some (DataPoint.mk (InterfaceStats.LastCheck i)
             (InterfaceStats.BytesRx i) (InterfaceStats.BytesTx i)
             (InterfaceStats.SpeedRx i) (InterfaceStats.SpeedTx i))).
Proof.
  intros Hi.
  assert (H := run_ifaceStep_ind t0 cs name
    (λ readings i,
       InterfaceStats.Name i = name ∧
       last readings =
         Some (mkReading (InterfaceStats.LastCheck i)
                 (InterfaceStats.BytesRx i) (InterfaceStats.BytesTx i)
                 (InterfaceStats.PacketsRx i) (InterfaceStats.PacketsTx i)) ∧
       (InterfaceStats.History i = [] ↔ length readings = 1%nat) ∧
       (InterfaceStats.History i = [] →
        InterfaceStats.SpeedRx i = F64.zero ∧
        InterfaceStats.SpeedTx i = F64.zero) ∧
       (InterfaceStats.History i ≠ [] →
        last (InterfaceStats.History i) =
          Some (DataPoint.mk (InterfaceStats.LastCheck i)
                  (InterfaceStats.BytesRx i) (InterfaceStats.BytesTx i)
                  (InterfaceStats.SpeedRx i) (InterfaceStats.SpeedTx i))))).
  rewrite Hi in H. apply H; clear.
  - intros [now rx tx prx ptx]. simpl. repeat split; done.
  - intros readings i r Hne (Hname & _).
    pose proof (updateInterfaceStats_newest (rdNow r) (rdBytesRx r)
                  (rdBytesTx r) (rdPacketsRx r) (rdPacketsTx r) i) as Hlast.
    destruct (updateInterfaceStats_counters (rdNow r) (rdBytesRx r)
                (rdBytesTx r) (rdPacketsRx r) (rdPacketsTx r) i)
      as (-> & -> & -> & -> & -> & ->).
    assert (Hnil : InterfaceStats.History
                     (updateInterfaceStats (rdNow r) (rdBytesRx r)
                        (rdBytesTx r) (rdPacketsRx r) (rdPacketsTx r) i)
                   ≠ []) by (intros Hnil; by rewrite Hnil in Hlast).
    split; [done|]. rewrite last_snoc. split; [by destruct r|].
    split; [|split; [done|by intros _]].
    split; [done|]. rewrite length_app. simpl.
    destruct readings; simpl in *; [done|lia].
Qed.

(** Two readings of one interface, one second apart. *)
Definition twoReadings : list Call :=
  [CallUpdateInterface 0 "eth0" 1000 500 10 5;
   CallUpdateInterface Second "eth0" 3000 1500 20 10].

Lemma interface_holds_latest_reading_witness :
  ∃ i, ifaceOf (run twoReadings (NewStore 0)) "eth0" = Some i ∧
       InterfaceStats.BytesRx i = 3000 ∧
       InterfaceStats.LastCheck i = Second ∧
       last (InterfaceStats.History i) =
         Some (DataPoint.mk Second 3000 1500 (F64.of_Z 2000)
                 (F64.of_Z 1000)).
Proof.
  eexists. split; [vm_compute; reflexivity|].
  match goal with
  | |- InterfaceStats.BytesRx ?i = _ ∧ _ =>
      destruct (interface_holds_latest_reading 0 twoReadings "eth0" i
                  ltac:(vm_compute; reflexivity))
        as (_ & _ & _ & _ & Hpt)
  end.
  rewrite Hpt by (vm_compute; discriminate). repeat split.
Defined.

(** ** A reading that is not later than the one before *)

(** Not more than 0: a zero, a negative number, minus infinity, or NaN. *)
Definition notPositive (x : F64.t) : Prop :=
  match x with
  | S754_infinity false | S754_finite false _ _ => False
  | _ => True
  end.

Lemma binary_round_aux_notPositive mx ex lx :
  notPositive (binary_round_aux F64.prec F64.emax true mx ex lx).
Proof.
  unfold binary_round_aux.
  destruct (shr_fexp _ _ mx ex lx) as [mrs' e'].
  destruct (shr_fexp _ _ _ e' loc_Exact) as [mrs'' e''].
  destruct (shr_m mrs''); [done| |done].
  by destruct (Z.leb _ _).
Qed.

Lemma of_Z_notPositive n : n <= 0 → notPositive (F64.of_Z n).
Proof.
  intros Hn. unfold F64.of_Z, binary_normalize.
  destruct n as [|m|m]; [done|lia|].
  unfold binary_round. destruct (shl_align _ _ _) as [mz ez].
  apply binary_round_aux_notPositive.
Qed.

Lemma div_notPositive x y :
  notPositive x → F64.ltb F64.zero y = true → notPositive (F64.div x y).
Proof.
  intros Hx [->|(m & e & ->)]%ltb_zero_inv;
    destruct x as [sx|[|]| |[|] mx ex]; simpl in *; try done.
  destruct (SFdiv_core_binary _ _ _ _ _ _) as [[mz ez] lz].
  apply binary_round_aux_notPositive.
Qed.

Lemma add_notPositive x y :
  notPositive x → notPositive y → notPositive (F64.add x y).
Proof.
  destruct x as [sx|[|]| |[|] mx ex], y as [sy|[|]| |[|] my ey];
    simpl; try done.
  - intros _ _. by destruct sx, sy.
  - intros _ _. unfold F64.add, SFadd.
    cbn [cond_Zopp Z.opp Z.add binary_normalize].
    unfold binary_round. destruct (shl_align _ _ _) as [mz ez].
    apply binary_round_aux_notPositive.
Qed.

Lemma notPositive_ltb x : notPositive x → F64.ltb F64.zero x = false.
Proof. by destruct x as [s|[|]| |[|] m e]. Qed.

(** The seconds of a duration that is not positive are not more than 0. *)
Lemma Seconds_notPositive d : d <= 0 → F64.ltb F64.zero (Seconds d) = false.
Proof.
  intros Hd. unfold Seconds, Second.
  assert (Hq : Z.quot d 1000000000 <= 0).
  { rewrite <- (Z.opp_involutive d), Z.quot_opp_l by lia.
    pose proof (Z.quot_pos (- d) 1000000000 ltac:(lia) ltac:(lia)). lia. }
  assert (Hr : Z.rem d 1000000000 <= 0)
    by (apply Z.rem_nonpos; lia).
  apply notPositive_ltb, add_notPositive.
  - by apply of_Z_notPositive.
  - apply div_notPositive; [by apply of_Z_notPositive|done].
Qed.

Lemma Sub_not_later t u : t <= u → Sub t u <= 0.
Proof.
  intros Hle. unfold Sub, min_i64, max_i64.
  repeat case_match; lia.
Qed.

(** X6.  When [UpdateInterface] finds that no time has passed since the
    last update of the interface, or that the clock went back, it keeps
    both speeds as they are: the new point of the history carries the old
    speeds with the new counters, and the counters and the time of the
    object are overwritten all the same. *)
Theorem UpdateInterface_clock_not_advanced t0 cs now name rx tx prx ptx i :
  let st := run cs (NewStore t0) in
  ifaceOf st name = Some i →
  now <= InterfaceStats.LastCheck i →
  ∃ i',
    ifaceOf (UpdateInterface now name rx tx prx ptx st) name = Some i' ∧
    InterfaceStats.SpeedRx i' = InterfaceStats.SpeedRx i ∧
    InterfaceStats.SpeedTx i' = InterfaceStats.SpeedTx i ∧
    last (InterfaceStats.History i') =
      Some (DataPoint.mk now rx tx
              (InterfaceStats.SpeedRx i) (InterfaceStats.SpeedTx i)) ∧
    InterfaceStats.BytesRx i' = rx ∧
    InterfaceStats.BytesTx i' = tx ∧
    InterfaceStats.LastCheck i' = now.
Proof.
  intros st Hi Hle.
  assert (Hwf : wf st) by apply run_wf, wf_NewStore.
  eexists. split.
  { rewrite UpdateInterface_ifaceOf, decide_True, Hi by done. done. }
  rewrite updateInterfaceStats_newest.
  destruct (updateInterfaceStats_same_speed now rx tx prx ptx i) as [-> ->].
  { by apply Seconds_notPositive, Sub_not_later. }
  destruct (updateInterfaceStats_counters now rx tx prx ptx i)
    as (_ & -> & -> & _ & _ & ->).
  repeat split.
Qed.

Lemma UpdateInterface_clock_not_advanced_witness :
  let st := run twoReadings (NewStore 0) in
  ∃ i',
    ifaceOf (UpdateInterface Second "eth0" 9000 4500 30 15 st) "eth0"
      = Some i' ∧
    InterfaceStats.SpeedRx i' = F64.of_Z 2000 ∧
    InterfaceStats.BytesRx i' = 9000.
Proof.
  intros st.
  destruct (UpdateInterface_clock_not_advanced 0 twoReadings Second "eth0"
              9000 4500 30 15 _
              ltac:(vm_compute; reflexivity) ltac:(vm_compute; discriminate))
    as (i' & Hi' & Hrx & _ & _ & Hb & _).
  exists i'. split; [done|]. rewrite Hrx, Hb. split; vm_compute; reflexivity.
Defined.

(** ** The keys of the store *)

Definition ifaceKey (c : Call) : option string :=
  match c with CallUpdateInterface _ name _ _ _ _ => Some name | _ => None end.
Definition deviceKey (c : Call) : option string :=
  match c with CallUpdateDevice _ ip _ _ => Some ip | _ => None end.
Definition pingKey (c : Call) : option string :=
  match c with CallStorePingData _ host _ _ _ => Some host | _ => None end.

Lemma union_singleton_elem (X : gset string) k : k ∈ X → X = {[k]} ∪ X.
Proof.
  intros Hk. apply set_eq. intros x.
  rewrite elem_of_union, elem_of_singleton. split; [auto|].
  intros [->|]; auto.
Qed.

Lemma list_to_set_snoc (l : list string) k :
  list_to_set (C := gset string) (l ++ [k]) = {[k]} ∪ list_to_set l.
Proof.
  rewrite list_to_set_app_L. simpl. by rewrite (right_id_L ∅ (∪)), (comm_L (∪)).
Qed.

Lemma UpdateInterface_keys now name rx tx prx ptx st :
  dom (Interfaces (store (UpdateInterface now name rx tx prx ptx st))) =
    {[name]} ∪ dom (Interfaces (store st)) ∧
  Devices (store (UpdateInterface now name rx tx prx ptx st)) =
    Devices (store st) ∧
  PingResults (store (UpdateInterface now name rx tx prx ptx st)) =
    PingResults (store st).
Proof.
  unfold UpdateInterface.
  destruct (Interfaces (store st) !! name) as [p|] eqn:Hk; simpl.
  - repeat split. apply union_singleton_elem. by apply elem_of_dom_2 in Hk.
  - repeat split. by rewrite dom_insert_L.
Qed.

Lemma UpdateDevice_keys now ip mac hostname st :
  Interfaces (store (UpdateDevice now ip mac hostname st)) =
    Interfaces (store st) ∧
  dom (Devices (store (UpdateDevice now ip mac hostname st))) =
    {[ip]} ∪ dom (Devices (store st)) ∧
  PingResults (store (UpdateDevice now ip mac hostname st)) =
    PingResults (store st).
Proof.
  unfold UpdateDevice.
  destruct (Devices (store st) !! ip) as [p|] eqn:Hk; simpl.
  - repeat split. apply union_singleton_elem. by apply elem_of_dom_2 in Hk.
  - repeat split. by rewrite dom_insert_L.
Qed.

Lemma StorePingData_keys now host rtt success method st :
  Interfaces (store (StorePingData now host rtt success method st)) =
    Interfaces (store st) ∧
  Devices (store (StorePingData now host rtt success method st)) =
    Devices (store st) ∧
  dom (PingResults (store (StorePingData now host rtt success method st))) =
    {[host]} ∪ dom (PingResults (store st)).
Proof.
  unfold StorePingData.
  destruct (PingResults (store st) !! host) as [p|] eqn:Hk; simpl.
  - repeat split. apply union_singleton_elem. by apply elem_of_dom_2 in Hk.
  - repeat split. by rewrite dom_insert_L.
Qed.

Lemma is_Some_deref {A} m (h : gmap ptr A) k :
  table_wf m h → is_Some (deref m h k) ↔ k ∈ dom m.
Proof.
  intros [Hval _]. rewrite elem_of_dom. unfold deref.
  destruct (m !! k) as [p|] eqn:Hk; simpl.
  - split; [by eauto|]. intros _. by eapply Hval.
  - split; by intros [? ?].
Qed.

Lemma run_dom t0 cs :
  dom (Interfaces (store (run cs (NewStore t0)))) =
    list_to_set (omap ifaceKey cs) ∧
  dom (Devices (store (run cs (NewStore t0)))) =
    list_to_set (omap deviceKey cs) ∧
  dom (PingResults (store (run cs (NewStore t0)))) =
    list_to_set (omap pingKey cs).
Proof.
  induction cs as [|c cs IH] using rev_ind.
  { simpl. by rewrite !dom_empty_L. }
  rewrite run_snoc, !omap_app.
  destruct IH as (Hi & Hd & Hp). destruct c; simpl; rewrite !app_nil_r.
  - destruct (UpdateInterface_keys now name bytesRx bytesTx packetsRx
                packetsTx (run cs (NewStore t0))) as (-> & -> & ->).
    by rewrite list_to_set_snoc, Hi, Hd, Hp.
  - destruct (UpdateDevice_keys now ip mac hostname
                (run cs (NewStore t0))) as (-> & -> & ->).
    by rewrite list_to_set_snoc, Hi, Hd, Hp.
  - destruct (StorePingData_keys now host rtt success method
                (run cs (NewStore t0))) as (-> & -> & ->).
    by rewrite list_to_set_snoc, Hi, Hd, Hp.
Qed.

(** X7.  The store holds an entry for exactly the keys the calls made so
    far have named: an interface for every name given to [UpdateInterface],
    a device for every address given to [UpdateDevice], statistics for
    every host given to [StorePingData]; every key of a map leads to an
    object.  No call removes an entry, so none of the maps ever shrinks. *)
Theorem store_keys_are_the_keys_used t0 cs :
  let st := run cs (NewStore t0) in
  dom (Interfaces (store st)) = list_to_set (omap ifaceKey cs) ∧
  dom (Devices (store st)) = list_to_set (omap deviceKey cs) ∧
  dom (PingResults (store st)) = list_to_set (omap pingKey cs) ∧
  (∀ k, is_Some (ifaceOf st k) ↔ k ∈ omap ifaceKey cs) ∧
  (∀ k, is_Some (deviceOf st k) ↔ k ∈ omap deviceKey cs) ∧
  (∀ k, is_Some (pingOf st k) ↔ k ∈ omap pingKey cs).
Proof.
  intros st. destruct (run_dom t0 cs) as (Hi & Hd & Hp).
  destruct (run_wf cs (NewStore t0) (wf_NewStore t0)) as (Wi & Wd & Wp).
  fold st in Hi, Hd, Hp, Wi, Wd, Wp.
  split; [done|]. split; [done|]. split; [done|].
  split; [|split]; intros k.
  - unfold ifaceOf. rewrite is_Some_deref, Hi by done.
    apply elem_of_list_to_set.
  - unfold deviceOf. rewrite is_Some_deref, Hd by done.
    apply elem_of_list_to_set.
  - unfold pingOf. rewrite is_Some_deref, Hp by done.
    apply elem_of_list_to_set.
Qed.

Lemma store_keys_are_the_keys_used_witness :
  is_Some (pingOf (run mixedProbes (NewStore 0)) "8.8.8.8") ∧
  ¬ is_Some (pingOf (run mixedProbes (NewStore 0)) "1.1.1.1").
Proof.
  destruct (store_keys_are_the_keys_used 0 mixedProbes)
    as (_ & _ & _ & _ & _ & Hp).
  split.
  - apply Hp. apply (bool_decide_unpack _). vm_compute. exact I.
  - rewrite Hp. apply (bool_decide_unpack _). vm_compute. exact I.
Defined.

(** The time of a call that stamps the store. *)
Definition stamp (c : Call) : option Time :=
  match c with
  | CallUpdateInterface now _ _ _ _ _ => Some now
  | CallUpdateDevice _ _ _ _ => None
  | CallStorePingData now _ _ _ _ => Some now
  end.

(** X8.  [LastUpdated] of the store is the time of the latest call of
    [UpdateInterface] or [StorePingData], and the time the store was made
    as long as there was none: [UpdateDevice] never sets it. *)
Theorem store_LastUpdated_is_latest_stamp t0 cs :
  LastUpdated (store (run cs (NewStore t0))) =
    default t0 (last (omap stamp cs)).
Proof.
  induction cs as [|c cs IH] using rev_ind; [done|].
  rewrite run_snoc, omap_app.
  destruct c; simpl.
  - rewrite last_snoc. unfold UpdateInterface.
    by destruct (Interfaces _ !! name).
  - rewrite app_nil_r, <- IH. unfold UpdateDevice.
    by destruct (Devices _ !! ip).
  - rewrite last_snoc. unfold StorePingData.
    by destruct (PingResults _ !! host).
Qed.

(** ** The devices of the store *)

Lemma run_deviceStep_ind t0 cs ip (P : list Sighting → Device.t → Prop) :
  (∀ s, P [s] (newDevice (sgNow s) ip (sgMAC s) (sgHostname s))) →
  (∀ sightings d s,
     sightings ≠ [] → P sightings d →
     P (sightings ++ [s])
       (updateDeviceObj (sgNow s) (sgMAC s) (sgHostname s) d)) →
  match deviceOf (run cs (NewStore t0)) ip with
  | None => deviceSightings ip cs = []
  | Some d => deviceSightings ip cs ≠ [] ∧ P (deviceSightings ip cs) d
  end.
Proof.
  intros Hnew Hupd.
  rewrite run_deviceOf, deviceOf_NewStore by apply wf_NewStore.
  induction (deviceSightings ip cs) as [|s sightings IH] using rev_ind;
    [done|].
  rewrite foldl_app. cbn [foldl]. unfold deviceStep at 1.
  destruct (foldl _ None sightings) as [d|].
  - destruct IH as [Hne HP]. split; [by destruct sightings|]. by apply Hupd.
  - subst sightings. split; [done|]. apply Hnew.
Qed.

(** X9.  A device of the store carries the address of its key, the time of
    the latest sighting of that address, and an [IsActive] flag that is
    always set: only the copies [GetDevices] hands out can say inactive.
    [Vendor] is never filled in. *)
Theorem stored_device_is_active_and_stamped t0 cs ip d :
  deviceOf (run cs (NewStore t0)) ip = Some d →
  Device.IP d = ip ∧
  Device.IsActive d = true ∧
  Device.Vendor d = "" ∧
  Some (Device.LastSeen d) = sgNow <$> last (deviceSightings ip cs).
Proof.
  intros Hd.
  assert (H := run_deviceStep_ind t0 cs ip
    (λ sightings d,
       Device.IP d = ip ∧ Device.IsActive d = true ∧ Device.Vendor d = "" ∧
       Some (Device.LastSeen d) = sgNow <$> last sightings)).
  rewrite Hd in H. apply H; clear.
  - by intros [now mac hostname].
  - intros sightings d s _ (Hip & _ & Hv & _).
    destruct (updateDeviceObj_others (sgNow s) (sgMAC s) (sgHostname s) d)
      as (-> & -> & -> & ->).
    by rewrite last_snoc.
Qed.

Lemma stored_device_is_active_and_stamped_witness :
  ∃ d, deviceOf (run (sightingsOfOne ++ laterSightings) (NewStore 0))
         "10.0.0.5" = Some d ∧
       Device.IsActive d = true ∧ Device.Vendor d = "".
Proof.
  eexists. split; [vm_compute; reflexivity|].
  match goal with
  | |- Device.IsActive ?d = _ ∧ _ =>
      destruct (stored_device_is_active_and_stamped 0
                  (sightingsOfOne ++ laterSightings) "10.0.0.5" d
                  ltac:(vm_compute; reflexivity))
        as (_ & Ha & Hv & _)
  end.
  by rewrite Ha, Hv.
Defined.

(** One sighting of each address of a list. *)
Definition sightEach (now : Time) (ips : list string) : list Call :=
  (λ ip, CallUpdateDevice now ip "" "") <$> ips.

Lemma omap_deviceKey_sightEach now ips :
  omap deviceKey (sightEach now ips) = ips.
Proof.
  unfold sightEach. induction ips as [|ip ips IH]; [done|].
  simpl. f_equal. apply IH.
Qed.

(** X10.  [MaxDevices] is not enforced: every address sighted gets its
    device, however many there are.  After the sighting of pairwise
    distinct addresses that the store did not hold, the number of devices
    has grown by their number, also beyond [MaxDevices]. *)
Theorem devices_are_not_bounded t0 cs now ips :
  NoDup ips →
  (∀ ip, ip ∈ ips → deviceOf (run cs (NewStore t0)) ip = None) →
  size (Devices (store (run (cs ++ sightEach now ips) (NewStore t0)))) =
    (size (Devices (store (run cs (NewStore t0)))) + length ips)%nat.
Proof.
  intros Hnd Hnew.
  destruct (run_dom t0 (cs ++ sightEach now ips)) as (_ & Hd' & _).
  destruct (run_dom t0 cs) as (_ & Hd & _).
  rewrite <- !size_dom, Hd', omap_app, omap_deviceKey_sightEach.
  rewrite list_to_set_app_L, size_union, <- Hd, size_list_to_set; [done..|].
  intros ip Hin Hips%elem_of_list_to_set.
  apply Hnew in Hips.
  destruct (run_wf cs (NewStore t0) (wf_NewStore t0)) as (_ & Wd & _).
  rewrite <- Hd in Hin.
  apply (is_Some_deref _ _ _ Wd) in Hin. unfold deviceOf in Hips.
  rewrite Hips in Hin. by destruct Hin.
Qed.

Lemma devices_are_not_bounded_witness :
  size (Devices (store (run (seenOnce ++
                              sightEach 7 ["10.0.0.6"; "10.0.0.7"])
                          (NewStore 0)))) = 3%nat.
Proof.
  rewrite (devices_are_not_bounded 0 seenOnce 7 ["10.0.0.6"; "10.0.0.7"]).
  - vm_compute. reflexivity.
  - apply (bool_decide_unpack _). vm_compute. exact I.
  - intros ip Hin. rewrite !elem_of_cons, elem_of_nil in Hin.
    destruct Hin as [->|[->|[]]]; vm_compute; reflexivity.
Defined.

(** ** Calls for other keys *)

Lemma ifaceReadings_own name cs :
  ifaceReadings name (filter (λ c, ifaceKey c = Some name) cs) =
    ifaceReadings name cs.
Proof.
  unfold ifaceReadings. induction cs as [|c cs IH]; [done|].
  rewrite filter_cons, (bind_cons _ c cs). destruct c; simpl; try exact IH.
  destruct (decide (name0 = name)) as [->|Hne].
  - rewrite decide_True by done. rewrite bind_cons. simpl.
    rewrite decide_True by done. by rewrite IH.
  - rewrite decide_False by congruence. exact IH.
Qed.

Lemma deviceSightings_own ip cs :
  deviceSightings ip (filter (λ c, deviceKey c = Some ip) cs) =
    deviceSightings ip cs.
Proof.
  unfold deviceSightings. induction cs as [|c cs IH]; [done|].
  rewrite filter_cons, (bind_cons _ c cs). destruct c; simpl; try exact IH.
  destruct (decide (ip0 = ip)) as [->|Hne].
  - rewrite decide_True by done. rewrite bind_cons. simpl.
    rewrite decide_True by done. by rewrite IH.
  - rewrite decide_False by congruence. exact IH.
Qed.

Lemma pingSamples_own host cs :
  pingSamples host (filter (λ c, pingKey c = Some host) cs) =
    pingSamples host cs.
Proof.
  unfold pingSamples. induction cs as [|c cs IH]; [done|].
  rewrite filter_cons, (bind_cons _ c cs). destruct c; simpl; try exact IH.
  destruct (decide (host0 = host)) as [->|Hne].
  - rewrite decide_True by done. rewrite bind_cons. simpl.
    rewrite decide_True by done. by rewrite IH.
  - rewrite decide_False by congruence. exact IH.
Qed.

(** X11.  What the store holds under a key depends on the calls made for
    that key alone, in their order: the interface, the device or the
    statistics under a key are the same as if every call for another key,
    and every call of another kind, had not been made.  The three
    collectors can therefore interleave in any way without changing what
    each key ends up with. *)
Theorem other_calls_do_not_matter t0 cs key :
  ifaceOf (run cs (NewStore t0)) key =
    ifaceOf (run (filter (λ c, ifaceKey c = Some key) cs) (NewStore t0)) key ∧
  deviceOf (run cs (NewStore t0)) key =
    deviceOf (run (filter (λ c, deviceKey c = Some key) cs) (NewStore t0))
      key ∧
  pingOf (run cs (NewStore t0)) key =
    pingOf (run (filter (λ c, pingKey c = Some key) cs) (NewStore t0)) key.
Proof.
  rewrite !run_ifaceOf, !run_deviceOf, !run_pingOf by apply wf_NewStore.
  by rewrite ifaceReadings_own, deviceSightings_own, pingSamples_own.
Qed.

(** ** The counters of a host *)

Lemma length_failed_succeeded samples :
  (length (failed samples) + length (succeeded samples))%nat = length samples.
Proof.
  unfold failed, succeeded. induction samples as [|pt samples IH]; [done|].
  rewrite !filter_cons. destruct (PingPoint.Success pt) eqn:Hs.
  - rewrite decide_False, decide_True by done. simpl. lia.
  - rewrite decide_True, decide_False by done. simpl. lia.
Qed.

Lemma packetLoss_none total : 1 <= total → packetLoss 0 total = F64.zero.
Proof.
  intros Ht. unfold packetLoss.
  destruct (of_Z_pos total Ht) as [->|(m & e & -> & _)]; reflexivity.
Qed.

(** X12.  As long as fewer than 2^63 probes of a host have been recorded,
    its counters are what they are meant to be: [TotalPings] is the number
    of probes, at least 1; [FailedPings] lies between 0 and [TotalPings],
    and the difference is the number of successful probes; the history
    holds [TotalPings] points, 100 at most; and a host without a failed
    probe has a packet loss of exactly 0. *)
Theorem ping_counters_consistent t0 cs host ps :
  pingOf (run cs (NewStore t0)) host = Some ps →
  Z.of_nat (length (pingSamples host cs)) < 2 ^ 63 →
  PingStats.TotalPings ps = Z.of_nat (length (pingSamples host cs)) ∧
  1 <= PingStats.TotalPings ps ∧
  0 <= PingStats.FailedPings ps <= PingStats.TotalPings ps ∧
  PingStats.TotalPings ps - PingStats.FailedPings ps =
    Z.of_nat (length (succeeded (pingSamples host cs))) ∧
  Z.of_nat (length (PingStats.History ps)) =
    Z.min (PingStats.TotalPings ps) 100 ∧
  (PingStats.FailedPings ps = 0 → PingStats.PacketLoss ps = F64.zero).
Proof.
  intros Hps Hlt.
  pose proof (run_pingCounted t0 cs host) as Hc.
  pose proof (foldl_pingHistory host (pingSamples host cs)) as Hh.
  rewrite <- (pingOf_NewStore t0 host), <- run_pingOf in Hh
    by apply wf_NewStore.
  rewrite Hps in Hc, Hh. simpl in Hh.
  destruct Hc as (Hne & Ht & Hf & Hl).
  pose proof (length_failed_succeeded (pingSamples host cs)) as Hsum.
  rewrite wrap_i64_small in Ht, Hf
    by (unfold in_i64, min_i64, max_i64; lia).
  assert (Hpos : (1 ≤ length (pingSamples host cs))%nat)
    by (destruct (pingSamples host cs); simpl; [done|lia]).
  rewrite Hh, length_lastN, Ht, Hf. unfold MaxHistoryPoints.
  split; [done|]. split; [lia|]. split; [lia|]. split; [lia|].
  split; [lia|].
  intros Hzero. rewrite Hl, Hf, Ht, Hzero. apply packetLoss_none. lia.
Qed.

Lemma ping_counters_consistent_witness :
  ∃ ps, pingOf (run mixedProbes (NewStore 0)) "8.8.8.8" = Some ps ∧
        PingStats.TotalPings ps = 4 ∧ PingStats.FailedPings ps = 2.
Proof.
  eexists. split; [vm_compute; reflexivity|].
  match goal with
  | |- PingStats.TotalPings ?ps = _ ∧ _ =>
      destruct (ping_counters_consistent 0 mixedProbes "8.8.8.8" ps
                  ltac:(vm_compute; reflexivity) ltac:(vm_compute; reflexivity))
        as (Ht & _ & _ & Hd & _)
  end.
  split; [by rewrite Ht|]. vm_compute in Hd. vm_compute. lia.
Defined.

(** * More of the probe *)

(** The attempts [pingHost] can make on a host, in its order. *)
Definition probesOf (host : string) : list Attempt :=
  ICMP host :: (TCP host <$> tcpPorts).

(** The method reported for an attempt that answered. *)
Definition methodOf (a : Attempt) : string :=
  match a with
  | ICMP _ => "ICMP"
  | TCP _ port => "TCP:" +:+ port
  end.

Definition resultOf (host : string) (a : Attempt) (r : option Duration)
    : PingResult.t :=
  match r with
  | Some rtt => PingResult.mk host rtt true (methodOf a) None
  | None =>
      PingResult.mk host 0 false "FAILED"
        (Some "both ICMP and TCP ping failed")
  end.

Lemma pingHost_cases net host log :
  ∃ k a,
    probesOf host !! k = Some a ∧
    (∀ j b, (j < k)%nat → probesOf host !! j = Some b → net b = None) ∧
    (net a = None → k = 4%nat) ∧
    pingHost host net log =
      (resultOf host a (net a), log ++ take (S k) (probesOf host)).
Proof.
  unfold pingHost, mbind, Net_bind, pingICMP, probesOf, tcpPorts.
  cbn [tcpFallback fmap list_fmap]. unfold mbind, Net_bind, tcpPing, attempt.
  assert (Hprev : ∀ (l : list Attempt) k,
            Forall (λ b, net b = None) (take k l) →
            ∀ j b, (j < k)%nat → l !! j = Some b → net b = None).
  { intros l k Hall j b Hj Hb. rewrite Forall_forall in Hall.
    apply Hall. apply list_elem_of_lookup. exists j.
    by rewrite lookup_take_lt. }
  destruct (net (ICMP host)) as [r0|] eqn:H0.
  { exists 0%nat, (ICMP host). rewrite H0.
    split; [done|]. split; [intros j b Hj; lia|]. by split. }
  destruct (net (TCP host "80")) as [r1|] eqn:H1.
  { exists 1%nat, (TCP host "80"). rewrite H1. cbn [mret Net_ret].
    rewrite <- !(assoc_L (++)).
    split; [done|]. split; [apply Hprev; by repeat constructor|]. by split. }
  destruct (net (TCP host "443")) as [r2|] eqn:H2.
  { exists 2%nat, (TCP host "443"). rewrite H2. cbn [mret Net_ret].
    rewrite <- !(assoc_L (++)).
    split; [done|]. split; [apply Hprev; by repeat constructor|]. by split. }
  destruct (net (TCP host "53")) as [r3|] eqn:H3.
  { exists 3%nat, (TCP host "53"). rewrite H3. cbn [mret Net_ret].
    rewrite <- !(assoc_L (++)).
    split; [done|]. split; [apply Hprev; by repeat constructor|]. by split. }
  exists 4%nat, (TCP host "22"). cbn [mret Net_ret].
  rewrite <- !(assoc_L (++)).
  split; [done|]. split; [apply Hprev; by repeat constructor|].
  split; [done|]. by destruct (net (TCP host "22")).
Qed.

Lemma pingHost_result net host log :
  (PingResult.Success (pingHost host net log).1 = true ↔
   ∃ b, b ∈ probesOf host ∧ is_Some (net b)) ∧
  (PingResult.Success (pingHost host net log).1 = false →
   PingResult.RTT (pingHost host net log).1 = 0 ∧
   PingResult.Method (pingHost host net log).1 = "FAILED").
Proof.
  destruct (pingHost_cases net host log) as (k & a & Hk & Hprev & Hall & ->).
  cbn [fst]. split.
  - split.
    + intros Hs. exists a. split; [by eapply list_elem_of_lookup_2|].
      by destruct (net a).
    + intros (b & Hb & Hans).
      destruct (net a) as [rtt|] eqn:Ha; [done|]. exfalso.
      specialize (Hall eq_refl). subst k.
      apply list_elem_of_lookup in Hb as [j Hj].
      destruct (decide (j = 4%nat)) as [->|Hne].
      * rewrite Hk in Hj. injection Hj as <-. rewrite Ha in Hans.
        by destruct Hans.
      * assert (Hlt : (j < 4)%nat).
        { apply lookup_lt_Some in Hj. simpl in Hj. lia. }
        rewrite (Hprev j b Hlt Hj) in Hans. by destruct Hans.
  - by destruct (net a) as [rtt|].
Qed.

(** X13.  One call of [pingHost] tries ICMP, then the TCP ports 80, 443, 53
    and 22, in that order, and stops at the first attempt that answers: it
    makes between one and five attempts, every attempt before the last got
    no answer, and nothing is tried after an answer.  The result is a
    success exactly when some attempt of the five would answer; it then
    carries the time and the method of the first that does, and no error.
    When none answers, all five were tried and the result is a failure
    with a round-trip time of 0 and the method [FAILED]. *)
Theorem pingHost_stops_at_first_answer net host log :
  ∃ k a,
    probesOf host !! k = Some a ∧
    (pingHost host net log).2 = log ++ take (S k) (probesOf host) ∧
    (∀ j b, (j < k)%nat → probesOf host !! j = Some b → net b = None) ∧
    (pingHost host net log).1 = resultOf host a (net a) ∧
    (PingResult.Success (pingHost host net log).1 = true ↔
     ∃ b, b ∈ probesOf host ∧ is_Some (net b)) ∧
    (PingResult.Success (pingHost host net log).1 = false →
     k = 4%nat ∧
     PingResult.RTT (pingHost host net log).1 = 0 ∧
     PingResult.Method (pingHost host net log).1 = "FAILED").
Proof.
  destruct (pingHost_result net host log) as [Hiff Hfail].
  destruct (pingHost_cases net host log) as (k & a & Hk & Hprev & Hall & Heq).
  exists k, a. split; [done|]. split; [by rewrite Heq|].
  split; [done|]. split; [by rewrite Heq|]. split; [done|].
  intros Hs. split; [|by apply Hfail].
  apply Hall. rewrite Heq in Hs. by destruct (net a).
Qed.

Lemma pingHost_stops_at_first_answer_witness :
  PingResult.Success (pingHost "10.0.0.1" only443 []).1 = true ∧
  (pingHost "10.0.0.1" only443 []).2 =
    [ICMP "10.0.0.1"; TCP "10.0.0.1" "80"; TCP "10.0.0.1" "443"].
Proof.
  destruct (pingHost_stops_at_first_answer only443 "10.0.0.1" [])
    as (k & a & _ & _ & _ & _ & Hiff & _).
  split; [|reflexivity].
  apply Hiff. exists (TCP "10.0.0.1" "443").
  split; [|by eexists]. apply (list_elem_of_lookup_2 _ 2%nat). reflexivity.
Defined.

(** ** One round of the ping collector *)

Lemma collectPingData_run targets net clock : ∀ log t0 cs,
  ∃ cs',
    (collectPingData targets net clock log (run cs (NewStore t0))).2 =
      run (cs ++ cs') (NewStore t0) ∧
    omap pingKey cs' = targets ∧
    Forall2 (λ c target,
               ∃ now rtt success method,
                 c = CallStorePingData now target rtt success method ∧
                 (success = true ↔
                  ∃ b, b ∈ probesOf target ∧ is_Some (net b)) ∧
                 (success = false → rtt = 0 ∧ method = "FAILED"))
            cs' targets.
Proof.
  induction targets as [|target targets IH]; intros log t0 cs.
  { exists []. by rewrite app_nil_r. }
  cbn [collectPingData].
  pose proof (pingHost_result net target log) as Hres.
  destruct (pingHost target net log) as [r log'].
  cbn [fst] in Hres.
  set (c := CallStorePingData (clock log') target (PingResult.RTT r)
              (PingResult.Success r) (PingResult.Method r)).
  change (StorePingData _ _ _ _ _ (run cs (NewStore t0)))
    with (call (run cs (NewStore t0)) c).
  rewrite <- run_snoc.
  destruct (IH log' t0 (cs ++ [c])) as (cs' & Hrun & Hkeys & Hall).
  exists (c :: cs'). rewrite Hrun, <- (assoc_L (++)). split; [done|].
  split; [simpl; by f_equal|].
  constructor; [|done].
  exists (clock log'), (PingResult.RTT r), (PingResult.Success r),
    (PingResult.Method r). done.
Qed.


(** Nothing answers. *)
Definition silent (a : Attempt) : option Duration := None.


(** ** The gateway among the targets *)

Lemma byteString_not_empty b : byteString b ≠ "".
Proof.
  unfold byteString, digit. by repeat case_match.
Qed.

Lemma gatewayOf_not_empty octets : gatewayOf octets ≠ "".
Proof.
  unfold gatewayOf.
  pose proof (byteString_not_empty (octets !!! 0%nat)) as H.
  by destruct (byteString (octets !!! 0%nat)).
Qed.

(** X15.  The targets of the ping collector are the three fixed hosts,
    with one address put in front when the machine has an IPv4 address
    [a.b.c.d]: the address [a.b.c.1], whatever [d] and the netmask are,
    and only if it accepts a TCP connection on port 80 or, failing that,
    on port 53; port 53 is tried only after port 80 failed, and ICMP is
    not tried.  Without a local address nothing is probed. *)
Theorem NewPingCollector_targets a b c d net log :
  let g := ipString [a; b; c; 1] in
  let answers :=
    bool_decide (is_Some (net (TCP g "80")) ∨ is_Some (net (TCP g "53"))) in
  NewPingCollector (Some [a; b; c; d]) net log =
    ((if answers then [g] else []) ++ ["8.8.8.8"; "1.1.1.1"; "127.0.0.1"],
     log ++ TCP g "80" ::
       match net (TCP g "80") with
       | Some _ => []
       | None => [TCP g "53"]
       end) ∧
  NewPingCollector None net log =
    (["8.8.8.8"; "1.1.1.1"; "127.0.0.1"], log).
Proof.
  intros g answers. split; [|done].
  unfold NewPingCollector, getGatewayIP, isValidGateway, attempt, mbind,
    Net_bind, mret, Net_ret.
  change (reparse [a; b; c; d])
    with (Some (replicate 10 0 ++ [255; 255; a; b; c; d])).
  cbv beta iota.
  change (To4 (replicate 10 0 ++ [255; 255; a; b; c; d]))
    with (Some [a; b; c; d]).
  cbv beta iota. change (gatewayOf [a; b; c; d]) with g.
  pose proof (gatewayOf_not_empty [a; b; c; d]) as Hg.
  change (gatewayOf [a; b; c; d]) with g in Hg.
  unfold answers.
  destruct (net (TCP g "80")) as [r1|] eqn:H1; cbv beta iota.
  - rewrite decide_True by done.
    rewrite bool_decide_true by (left; by eexists). done.
  - destruct (net (TCP g "53")) as [r2|] eqn:H2; cbv beta iota.
    + rewrite decide_True by done.
      rewrite bool_decide_true by (right; by eexists).
      by rewrite <- (assoc_L (++)).
    + rewrite decide_False by (by intros ?).
      rewrite bool_decide_false by (intros [[? ?]|[? ?]]; discriminate).
      by rewrite <- (assoc_L (++)).
Qed.

(** * More of the sweep *)

(** ** [incIP] on a slice of any length *)

Lemma toZ_snoc ip b : toZ (ip ++ [b]) = toZ ip * 256 + b.
Proof. unfold toZ. by rewrite foldl_app. Qed.

Lemma toZ_bound ip :
  Forall isByte ip → 0 <= toZ ip < 256 ^ Z.of_nat (length ip).
Proof.
  induction ip as [|b ip IH] using rev_ind; intros Hb.
  - simpl. unfold toZ. simpl. lia.
  - apply Forall_app in Hb as [Hip Hb]. apply Forall_inv in Hb.
    specialize (IH Hip). rewrite toZ_snoc, length_app. simpl.
    replace (Z.of_nat (length ip + 1)) with (Z.of_nat (length ip) + 1) by lia.
    rewrite Z.pow_add_r by lia. unfold isByte in Hb. lia.
Qed.

Lemma incIP_from_app n : ∀ hi lo,
  (n ≤ length hi)%nat →
  incIP_from n (hi ++ lo) = incIP_from n hi ++ lo.
Proof.
  induction n as [|j IH]; intros hi lo Hn; [done|].
  cbn [incIP_from]. unfold IP in *.
  rewrite lookup_total_app_l, insert_app_l by lia.
  rewrite lookup_total_app_l by (rewrite length_insert; lia).
  case_decide; [done|]. apply IH. rewrite length_insert. lia.
Qed.

Lemma incIP_snoc hi b :
  incIP (hi ++ [b]) =
    if decide ((b + 1) mod 256 ≠ 0) then hi ++ [(b + 1) mod 256]
    else incIP hi ++ [0].
Proof.
  unfold incIP. rewrite length_app. simpl.
  replace (length hi + 1)%nat with (S (length hi)) by lia.
  cbn [incIP_from]. unfold IP in *.
  assert (Hb : (hi ++ [b]) !!! length hi = b).
  { rewrite lookup_total_app_r by lia. by rewrite Nat.sub_diag. }
  assert (Hins : ∀ x, <[length hi := x]> (hi ++ [b]) = hi ++ [x]).
  { intros x. rewrite <- (Nat.add_0_r (length hi)) at 1.
    by rewrite insert_app_r. }
  rewrite Hb, Hins.
  assert (Hb' : (hi ++ [(b + 1) mod 256]) !!! length hi = (b + 1) mod 256).
  { rewrite lookup_total_app_r by lia. by rewrite Nat.sub_diag. }
  rewrite Hb'. case_decide as Hz; [done|].
  rewrite Hz. by apply incIP_from_app.
Qed.

(** X16.  [incIP] adds one to the number the bytes of the slice denote,
    modulo 256 to the power of its length, whatever the length: the result
    has the same length and holds bytes, and the slice of all-255 bytes
    wraps around to all zeros. *)
Theorem incIP_adds_one ip :
  Forall isByte ip →
  length (incIP ip) = length ip ∧
  Forall isByte (incIP ip) ∧
  toZ (incIP ip) = (toZ ip + 1) mod 256 ^ Z.of_nat (length ip).
Proof.
  induction ip as [|b hi IH] using rev_ind; intros Hb; [done|].
  apply Forall_app in Hb as [Hhi Hb]. apply Forall_inv in Hb.
  destruct (IH Hhi) as (Hlen & Hbytes & Hval). clear IH.
  pose proof (toZ_bound hi Hhi) as Hr.
  rewrite incIP_snoc. unfold isByte in Hb.
  rewrite (length_app hi [b]). simpl length.
  replace (Z.of_nat (length hi + 1)) with (Z.of_nat (length hi) + 1) by lia.
  rewrite Z.pow_add_r by lia. change (256 ^ 1) with 256.
  generalize dependent (256 ^ Z.of_nat (length hi)). intros M Hval Hr.
  case_decide as Hz.
  - rewrite length_app. split; [done|]. split.
    + apply Forall_app. split; [done|]. apply Forall_singleton.
      unfold isByte. apply Z.mod_pos_bound. lia.
    + rewrite !toZ_snoc.
      assert (b + 1 < 256) by (destruct (decide (b = 255)) as [->|]; [done|lia]).
      rewrite (Z.mod_small (b + 1)) by lia.
      rewrite Z.mod_small by nia. lia.
  - assert (b = 255) as -> by dlia.
    rewrite length_app, Hlen. split; [done|]. split.
    + apply Forall_app. split; [done|]. by apply Forall_singleton.
    + rewrite !toZ_snoc, Hval.
      replace (toZ hi * 256 + 255 + 1) with ((toZ hi + 1) * 256) by lia.
      rewrite Z.add_0_r. symmetry. rewrite (Z.mul_comm M 256).
      rewrite Z.mul_comm. rewrite Zmult_mod_distr_l. lia.
Qed.

Lemma incIP_adds_one_witness :
  incIP [10; 0; 255; 255] = [10; 1; 0; 0] ∧
  toZ (incIP (replicate 16 255)) = 0.
Proof.
  split; [reflexivity|].
  destruct (incIP_adds_one (replicate 16 255)) as (_ & _ & ->).
  - apply (bool_decide_unpack _). vm_compute. exact I.
  - vm_compute. reflexivity.
Defined.

(** ** How long the sweep is *)

Lemma pingSweep_from_network ping addr ones fuel :
  isIPv4 addr → 1 <= ones <= 32 →
  (Z.to_nat (2 ^ (32 - ones)) < fuel)%nat →
  pingSweep fuel ping addr ones =
    Some (ipString <$> filter hostLike (subnetAddrs addr ones),
          filter (λ s, ping s)
            (ipString <$> filter hostLike (subnetAddrs addr ones))).
Proof.
  intros Haddr Hones Hfuel.
  assert (Hones' : 0 <= ones <= 32) by lia.
  unfold pingSweep. rewrite ParseCIDR_subnetOf by done.
  pose proof (blockSize_pos ones Hones') as Hpos.
  destruct (networkNumber_range addr ones Haddr Hones')
    as (Hn0 & Hn1 & Hn2).
  replace (Mask (netIP (subnetOf addr ones)) (netMask (subnetOf addr ones)))
    with (ofZ ((networkNumber addr ones + 0) mod 2 ^ 32)).
  - rewrite (sweepLoop_from addr ones Haddr Hones' ltac:(lia) ping
               (Z.to_nat (blockSize ones)))
      by (unfold blockSize in *; lia).
    done.
  - rewrite Z.add_0_r, Z.mod_small by lia.
    rewrite netIP_subnetOf by done.
    change (netMask (subnetOf addr ones)) with (maskBytes 4 ones).
    rewrite Mask_ofZ by (apply ofZ_isIPv4 || done).
    rewrite toZ_ofZ by lia. fold (blockSize ones).
    by rewrite Hn2, Z.sub_0_r.
Qed.

Lemma length_filter_fmap_ext {A B} (P : B → Prop) (Q : A → Prop)
    `{∀ x, Decision (P x)} `{∀ x, Decision (Q x)} (f : A → B) l :
  (∀ x, x ∈ l → P (f x) ↔ Q x) →
  length (filter P (f <$> l)) = length (filter Q l).
Proof.
  induction l as [|x l IH]; intros Hext; [done|].
  rewrite fmap_cons, !filter_cons.
  assert (IH' : length (filter P (f <$> l)) = length (filter Q l)).
  { apply IH. intros y Hy. apply Hext. by right. }
  pose proof (Hext x ltac:(by left)) as Hx.
  destruct (decide (P (f x))), (decide (Q x)); simpl; try tauto; by rewrite IH'.
Qed.

(** Of 256 consecutive addresses that start at a multiple of 256, the loop
    probes 254. *)
Lemma hostLike_in_block base :
  base mod 256 = 0 →
  length (filter hostLike (addrsFrom base 0 256)) = 254%nat.
Proof.
  intros Hbase. unfold addrsFrom.
  rewrite (length_filter_fmap_ext hostLike (λ j, j ≠ 0 ∧ j ≠ 255)).
  - vm_compute. reflexivity.
  - intros j Hj%elem_of_seqZ. unfold hostLike. rewrite lastOctet_ofZ.
    change (Z.of_nat 256) with 256 in Hj.
    assert ((base + j) mod 256 = j) as -> by dlia. done.
Qed.

Lemma hostLike_in_blocks base (m : nat) :
  base mod 256 = 0 →
  length (filter hostLike (addrsFrom base 0 (256 * m))) = (254 * m)%nat.
Proof.
  intros Hbase. induction m as [|m IH].
  - by rewrite Nat.mul_0_r.
  - unfold addrsFrom in *.
    replace (Z.of_nat (256 * S m)) with (Z.of_nat (256 * m) + 256) by lia.
    rewrite seqZ_app, fmap_app, filter_app, length_app, IH by lia.
    rewrite (Z.add_comm 0), <- (fmap_add_seqZ (Z.of_nat (256 * m)) 0 256).
    rewrite <- list_fmap_compose.
    pose proof (hostLike_in_block (base + Z.of_nat (256 * m))) as Hblock.
    unfold addrsFrom in Hblock. change (Z.of_nat 256) with 256 in Hblock.
    erewrite (list_fmap_ext _ (λ j, ofZ (base + Z.of_nat (256 * m) + j)));
      [rewrite Hblock; [lia|]|].
    + rewrite Nat2Z.inj_mul. change (Z.of_nat 256) with 256. dlia.
    + intros i j _. simpl. f_equal. lia.
Qed.

(** X17.  A sweep of an IPv4 subnet with a prefix length of 1 to 24 ends
    and probes 254 addresses for each of the 2^(24 - ones) blocks of 256
    addresses of the subnet: 254 for a /24, 65024 for a /16; [active] holds
    no more than were probed. *)
Theorem pingSweep_probe_count ping addr ones fuel :
  isIPv4 addr → 1 <= ones <= 24 →
  (Z.to_nat (2 ^ (32 - ones)) < fuel)%nat →
  ∃ probed active,
    pingSweep fuel ping addr ones = Some (probed, active) ∧
    Z.of_nat (length probed) = 254 * 2 ^ (24 - ones) ∧
    (length active ≤ length probed)%nat.
Proof.
  intros Haddr Hones Hfuel.
  rewrite pingSweep_from_network by (done || lia).
  eexists _, _. split; [done|]. split; [|apply length_filter].
  rewrite length_fmap. unfold subnetAddrs.
  destruct (networkNumber_range addr ones Haddr ltac:(lia))
    as (Hn0 & Hn1 & Hn2).
  assert (Hbs : blockSize ones = 256 * 2 ^ (24 - ones)).
  { unfold blockSize. replace (32 - ones) with (8 + (24 - ones)) by lia.
    by rewrite Z.pow_add_r by lia. }
  assert (Hpow : 0 < 2 ^ (24 - ones)) by (apply Z.pow_pos_nonneg; lia).
  assert (Hnn : networkNumber addr ones mod 256 = 0).
  { rewrite Hbs in Hn2. apply Z.mod_divide in Hn2 as [q Hq]; [|lia].
    rewrite Hq.
    replace (q * (256 * 2 ^ (24 - ones))) with (q * 2 ^ (24 - ones) * 256)
      by lia.
    apply Z.mod_mul. lia. }
  replace (Z.to_nat (blockSize ones))
    with (256 * Z.to_nat (2 ^ (24 - ones)))%nat by (rewrite Hbs; lia).
  rewrite hostLike_in_blocks by done. lia.
Qed.

Lemma pingSweep_probe_count_witness :
  ∃ probed active,
    pingSweep 257 (λ s, bool_decide (s = "192.168.1.2")) [192; 168; 1; 77] 24
      = Some (probed, active) ∧
    Z.of_nat (length probed) = 254.
Proof.
  destruct (pingSweep_probe_count
              (λ s, bool_decide (s = "192.168.1.2")) [192; 168; 1; 77] 24 257)
    as (probed & active & Hsweep & Hlen & _).
  - apply (bool_decide_unpack _). vm_compute. exact I.
  - lia.
  - vm_compute. lia.
  - exists probed, active. split; [exact Hsweep|]. rewrite Hlen. reflexivity.
Defined.

(** X18.  With a prefix length of 0 the sweep never ends: the network
    contains every address, also the one [incIP] wraps around to after
    255.255.255.255, so that no number of iterations is enough. *)
Theorem pingSweep_slash0_never_ends ping addr fuel :
  isIPv4 addr → pingSweep fuel ping addr 0 = None.
Proof.
  intros Haddr. unfold pingSweep.
  rewrite ParseCIDR_subnetOf by (done || lia).
  apply sweepLoop_slash0_never_ends; [done|].
  rewrite netIP_subnetOf by (done || lia).
  change (netMask (subnetOf addr 0)) with (maskBytes 4 0).
  rewrite Mask_ofZ by (apply ofZ_isIPv4 || lia). apply ofZ_isIPv4.
Qed.

Lemma pingSweep_slash0_never_ends_witness :
  pingSweep 1000 (λ _, true) [10; 0; 0; 1] 0 = None.
Proof.
  apply pingSweep_slash0_never_ends.
  apply (bool_decide_unpack _). vm_compute. exact I.
Defined.

(** * The traffic collector *)

Definition loopbackName (name : string) : Prop :=
  name = "lo" ∨ name = "Loopback Pseudo-Interface 1".

#[global] Instance loopbackName_dec name : Decision (loopbackName name).
Proof. unfold loopbackName. apply _. Defined.

(** The call of the store one round of the collector makes for the
    interface at position [ki.1] of what the operating system reports: its
    name, then bytes received, bytes sent, packets received and packets
    sent, at the time the clock shows at this position. *)
Definition readingCall (clock : nat → Time)
    (ki : nat * IOCountersStat.t) : Call :=
  CallUpdateInterface (clock ki.1) (IOCountersStat.Name ki.2)
    (IOCountersStat.BytesRecv ki.2) (IOCountersStat.BytesSent ki.2)
    (IOCountersStat.PacketsRecv ki.2) (IOCountersStat.PacketsSent ki.2).

(** The calls for a list of interfaces, the first at position [k]: one
    for each interface that is not a loopback, in order. *)
Definition readingCalls (clock : nat → Time) (k : nat)
    (interfaces : list IOCountersStat.t) : list Call :=
  readingCall clock <$>
    filter (λ ki, ¬ loopbackName (IOCountersStat.Name ki.2))
           (zip (seq k (length interfaces)) interfaces).

Lemma readingCalls_cons clock k iface interfaces :
  readingCalls clock k (iface :: interfaces) =
    if decide (loopbackName (IOCountersStat.Name iface))
    then readingCalls clock (S k) interfaces
    else readingCall clock (k, iface) :: readingCalls clock (S k) interfaces.
Proof.
  unfold readingCalls. cbn [length seq zip zip_with].
  rewrite filter_cons. cbn [snd].
  destruct (decide (loopbackName (IOCountersStat.Name iface))).
  - by rewrite decide_False by tauto.
  - by rewrite decide_True by done.
Qed.

Lemma updateInterfaces_run clock interfaces : ∀ k t0 cs,
  ∃ cs',
    updateInterfaces clock k interfaces (run cs (NewStore t0)) =
      run (cs ++ cs') (NewStore t0) ∧
    omap ifaceKey cs' =
      filter (λ name, ¬ loopbackName name)
             (IOCountersStat.Name <$> interfaces) ∧
    Forall (λ c, deviceKey c = None ∧ pingKey c = None) cs' ∧
    cs' = readingCalls clock k interfaces.
Proof.
  induction interfaces as [|iface interfaces IH]; intros k t0 cs.
  { exists []. rewrite app_nil_r. by repeat split. }
  cbn [updateInterfaces].
  rewrite fmap_cons, filter_cons, readingCalls_cons.
  destruct (decide (IOCountersStat.Name iface = "lo")) as [Hlo|Hlo].
  { rewrite bool_decide_true by done. cbn [orb].
    rewrite decide_False by (intros H; apply H; by left).
    rewrite decide_True by (by left). apply IH. }
  rewrite (bool_decide_false _ Hlo). cbn [orb].
  destruct (decide (IOCountersStat.Name iface =
                      "Loopback Pseudo-Interface 1")) as [Hwin|Hwin].
  { rewrite bool_decide_true by done.
    rewrite decide_False by (intros H; apply H; by right).
    rewrite decide_True by (by right). apply IH. }
  rewrite (bool_decide_false _ Hwin).
  rewrite decide_True by (intros [?|?]; done).
  rewrite decide_False by (intros [?|?]; done).
  change (UpdateInterface _ _ _ _ _ _ (run cs (NewStore t0)))
    with (call (run cs (NewStore t0)) (readingCall clock (k, iface))).
  rewrite <- run_snoc.
  destruct (IH (S k) t0 (cs ++ [readingCall clock (k, iface)]))
    as (cs' & Hrun & Hkeys & Hothers & Hcalls).
  exists (readingCall clock (k, iface) :: cs').
  rewrite Hrun, <- (assoc_L (++)). split; [done|].
  split; [simpl; f_equal; apply Hkeys|].
  split; [by constructor|]. by rewrite Hcalls.
Qed.

Lemma ifaceReadings_other_keys name cs :
  name ∉ omap ifaceKey cs → ifaceReadings name cs = [].
Proof.
  induction cs as [|c cs IH]; [done|]. intros Hnot.
  unfold ifaceReadings. rewrite bind_cons.
  destruct c; simpl in *;
    try (apply IH; exact Hnot).
  rewrite not_elem_of_cons in Hnot. destruct Hnot as [Hne Hnot].
  rewrite decide_False by done. by apply IH.
Qed.

(** X19.  One round of the traffic collector, from any state the store
    reaches: when the operating system gives no counters the store is
    left as it is; otherwise the store is left as one call of
    [UpdateInterface] would leave it for each interface reported, in
    order, except the interfaces named exactly [lo] or
    [Loopback Pseudo-Interface 1], and the call for an interface has the
    arguments (name, bytes received, bytes sent, packets received, packets
    sent) of that interface, in this order.  Whatever is stored under the
    two loopback names is never touched by the collector, and no device and
    no probe statistics are. *)
Theorem collectTrafficStats_skips_loopback counters clock t0 cs :
  ∃ cs',
    collectTrafficStats counters clock (run cs (NewStore t0)) =
      run (cs ++ cs') (NewStore t0) ∧
    cs' =
      (λ ki, CallUpdateInterface (clock ki.1) (IOCountersStat.Name ki.2)
               (IOCountersStat.BytesRecv ki.2) (IOCountersStat.BytesSent ki.2)
               (IOCountersStat.PacketsRecv ki.2)
               (IOCountersStat.PacketsSent ki.2)) <$>
        filter (λ ki, ¬ loopbackName (IOCountersStat.Name ki.2))
               (zip (seq 0 (length (default [] counters)))
                    (default [] counters)) ∧
    omap ifaceKey cs' =
      filter (λ name, ¬ loopbackName name)
             (IOCountersStat.Name <$> default [] counters) ∧
    omap deviceKey cs' = [] ∧
    omap pingKey cs' = [] ∧
    (∀ name, loopbackName name →
       ifaceOf (collectTrafficStats counters clock (run cs (NewStore t0)))
         name = ifaceOf (run cs (NewStore t0)) name).
Proof.
  assert (∃ cs',
    collectTrafficStats counters clock (run cs (NewStore t0)) =
      run (cs ++ cs') (NewStore t0) ∧
    omap ifaceKey cs' =
      filter (λ name, ¬ loopbackName name)
             (IOCountersStat.Name <$> default [] counters) ∧
    Forall (λ c, deviceKey c = None ∧ pingKey c = None) cs' ∧
    cs' = readingCalls clock 0 (default [] counters))
    as (cs' & Hrun & Hkeys & Hothers & Hcalls).
  { destruct counters as [interfaces|]; simpl.
    - apply updateInterfaces_run.
    - exists []. rewrite app_nil_r. by repeat split. }
  exists cs'. split; [done|]. split; [exact Hcalls|]. split; [done|].
  split; [|split].
  - clear -Hothers. induction Hothers as [|c cs' [Hc _] _ IH]; [done|].
    simpl. by rewrite Hc.
  - clear -Hothers. induction Hothers as [|c cs' [_ Hc] _ IH]; [done|].
    simpl. by rewrite Hc.
  - intros name Hname. rewrite Hrun.
    rewrite !run_ifaceOf by apply wf_NewStore. f_equal.
    unfold ifaceReadings. rewrite bind_app.
    fold (ifaceReadings name cs) (ifaceReadings name cs').
    rewrite (ifaceReadings_other_keys name cs'), app_nil_r; [done|].
    rewrite Hkeys. intros Hin%list_elem_of_filter. by destruct Hin.
Qed.

(** What a Linux machine reports: the loopback and one network card, which
    has sent 1500 bytes in 10 packets and received 3000 bytes in 20. *)
Definition linuxCounters : list IOCountersStat.t :=
  [IOCountersStat.mk "lo" 700 700 7 7;
   IOCountersStat.mk "eth0" 1500 3000 10 20].

Lemma collectTrafficStats_skips_loopback_witness :
  collectTrafficStats (Some linuxCounters) (λ _, 5) (NewStore 0) =
    run [CallUpdateInterface 5 "eth0" 3000 1500 20 10] (NewStore 0) ∧
  ifaceOf (collectTrafficStats (Some linuxCounters) (λ _, 5) (NewStore 0))
    "eth0" =
    Some (InterfaceStats.mk "eth0" 3000 1500 20 10 F64.zero F64.zero [] 5) ∧
  ifaceOf (collectTrafficStats (Some linuxCounters) (λ _, 5) (NewStore 0))
    "lo" = None.
Proof.
  destruct (collectTrafficStats_skips_loopback (Some linuxCounters)
              (λ _, 5) 0 []) as (cs' & Hrun & Hcalls & _ & _ & _ & Hlo).
  change (run [] (NewStore 0)) with (NewStore 0) in Hrun, Hlo.
  split; [|split].
  - rewrite Hrun, Hcalls. vm_compute. reflexivity.
  - rewrite Hrun, Hcalls. vm_compute. reflexivity.
  - exact (Hlo "lo" (or_introl eq_refl)).
Defined.

(** * The handlers of the API *)

(** ** Looking up one interface or one host *)

Lemma GetInterfaceTraffic_reached t0 cs now key :
  GetInterfaceTraffic now key (run cs (NewStore t0)) =
    (if decide (key ∈ omap ifaceKey cs)
     then APIResponse.mk 200 "success"
            (ifaceOf (run cs (NewStore t0)) key) "" now
     else APIResponse.mk 404 "error" None "Interface not found" now).
Proof.
  destruct (run_dom t0 cs) as (Hi & _ & _).
  unfold GetInterfaceTraffic. rewrite GetInterfaces_pointers.
  unfold ifaceOf, deref.
  destruct (Interfaces (store (run cs (NewStore t0))) !! key) as [p|] eqn:Hk.
  - apply elem_of_dom_2 in Hk. rewrite Hi, elem_of_list_to_set in Hk.
    by rewrite decide_True.
  - apply not_elem_of_dom in Hk. rewrite Hi, elem_of_list_to_set in Hk.
    by rewrite decide_False.
Qed.

Lemma GetPing_reached t0 cs now key :
  GetPing now key (run cs (NewStore t0)) =
    (if decide (key ∈ omap pingKey cs)
     then APIResponse.mk 200 "success"
            (pingOf (run cs (NewStore t0)) key) "" now
     else APIResponse.mk 404 "error" None "Host not found" now).
Proof.
  destruct (run_dom t0 cs) as (_ & _ & Hp).
  unfold GetPing. rewrite GetPings_pointers.
  unfold pingOf, deref.
  destruct (PingResults (store (run cs (NewStore t0))) !! key) as [p|] eqn:Hk.
  - apply elem_of_dom_2 in Hk. rewrite Hp, elem_of_list_to_set in Hk.
    by rewrite decide_True.
  - apply not_elem_of_dom in Hk. rewrite Hp, elem_of_list_to_set in Hk.
    by rewrite decide_False.
Qed.

(** X20.  [GetInterfaceTraffic] answers 200 with the interface as the
    store holds it exactly when [UpdateInterface] has been called with that
    name, and 404 with the error [Interface not found] otherwise;
    [GetPing] answers 200 with the statistics of the host exactly when
    [StorePingData] has been called for it, and 404 with [Host not found]
    otherwise.  A 200 always carries an object. *)
Theorem lookup_handlers_found_iff_recorded t0 cs now key :
  let st := run cs (NewStore t0) in
  GetInterfaceTraffic now key st =
    (if decide (key ∈ omap ifaceKey cs)
     then APIResponse.mk 200 "success" (ifaceOf st key) "" now
     else APIResponse.mk 404 "error" None "Interface not found" now) ∧
  GetPing now key st =
    (if decide (key ∈ omap pingKey cs)
     then APIResponse.mk 200 "success" (pingOf st key) "" now
     else APIResponse.mk 404 "error" None "Host not found" now) ∧
  (APIResponse.StatusCode (GetInterfaceTraffic now key st) = 200 →
   is_Some (APIResponse.Data (GetInterfaceTraffic now key st))) ∧
  (APIResponse.StatusCode (GetPing now key st) = 200 →
   is_Some (APIResponse.Data (GetPing now key st))).
Proof.
  intros st.
  destruct (run_dom t0 cs) as (Hi & _ & Hp).
  destruct (run_wf cs (NewStore t0) (wf_NewStore t0)) as (Wi & _ & Wp).
  fold st in Hi, Hp, Wi, Wp. unfold st.
  rewrite GetInterfaceTraffic_reached, GetPing_reached. fold st.
  split; [done|]. split; [done|]. split.
  - destruct (decide (key ∈ omap ifaceKey cs)) as [Hin|Hin];
      [|simpl; discriminate].
    intros _. simpl. unfold ifaceOf. apply is_Some_deref; [done|].
    by rewrite Hi, elem_of_list_to_set.
  - destruct (decide (key ∈ omap pingKey cs)) as [Hin|Hin];
      [|simpl; discriminate].
    intros _. simpl. unfold pingOf. apply is_Some_deref; [done|].
    by rewrite Hp, elem_of_list_to_set.
Qed.

Lemma lookup_handlers_found_iff_recorded_witness :
  APIResponse.StatusCode
    (GetPing 20 "8.8.8.8" (run mixedProbes (NewStore 0))) = 200 ∧
  APIResponse.StatusCode
    (GetPing 20 "9.9.9.9" (run mixedProbes (NewStore 0))) = 404.
Proof.
  destruct (lookup_handlers_found_iff_recorded 0 mixedProbes 20 "8.8.8.8")
    as (_ & -> & _).
  destruct (lookup_handlers_found_iff_recorded 0 mixedProbes 20 "9.9.9.9")
    as (_ & -> & _).
  split; vm_compute; reflexivity.
Defined.

(** ** Counting the devices *)

Lemma snapshotDevice_IP cutoff d :
  Device.IP (snapshotDevice cutoff d) = Device.IP d.
Proof. unfold snapshotDevice. by destruct (Before _ _). Qed.

(** The snapshot of a reachable store: one copy for each device, under
    the same key. *)
Lemma GetDevices_reached t0 cs now :
  let st := run cs (NewStore t0) in
  let cutoff := Add now (- 5 * Minute) in
  dom (GetDevices now st).1 = dom (Devices (store st)) ∧
  (∀ k p, (GetDevices now st).1 !! k = Some p →
     ∃ d, deviceOf st k = Some d ∧
          (GetDevices now st).2 !! p = Some (snapshotDevice cutoff d) ∧
          Device.IP d = k ∧ Device.IsActive d = true).
Proof.
  intros st cutoff.
  destruct (run_wf cs (NewStore t0) (wf_NewStore t0)) as (_ & Wd & _).
  fold st in Wd.
  destruct (GetDevices_copiesOf now st (proj1 Wd)) as (_ & Hcopy & Hnew).
  fold cutoff in Hcopy.
  assert (Hlook : ∀ k p, (GetDevices now st).1 !! k = Some p →
     ∃ d, deviceOf st k = Some d ∧
          (GetDevices now st).2 !! p = Some (snapshotDevice cutoff d)).
  { intros k p Hk. specialize (Hcopy k). unfold deref in Hcopy at 1.
    rewrite Hk in Hcopy. simpl in Hcopy.
    destruct (Hnew _ _ Hk) as [_ [d' Hd']]. rewrite Hd' in Hcopy.
    fold (deviceOf st k) in Hcopy.
    destruct (deviceOf st k) as [d|]; [|done].
    exists d. split; [done|]. by rewrite Hd', Hcopy. }
  split.
  - apply set_eq. intros k. rewrite !elem_of_dom. split.
    + intros [p Hk]. destruct (Hlook _ _ Hk) as (d & Hd & _).
      apply deref_Some_lookup in Hd as (q & Hq & _). by eexists.
    + intros [q Hq]. destruct (proj1 Wd _ _ Hq) as [d Hd].
      specialize (Hcopy k). unfold deref in Hcopy at 2.
      rewrite Hq in Hcopy. simpl in Hcopy. rewrite Hd in Hcopy.
      unfold deref in Hcopy.
      destruct ((GetDevices now st).1 !! k) as [p|]; [by eexists|done].
  - intros k p Hk. destruct (Hlook _ _ Hk) as (d & Hd & Hp).
    exists d. split; [done|]. split; [done|].
    pose proof (foldl_deviceIs k (deviceSightings k cs)) as Hdev.
    rewrite <- (deviceOf_NewStore t0 k), <- run_deviceOf in Hdev
      by apply wf_NewStore.
    fold st in Hdev. rewrite Hd in Hdev.
    by destruct Hdev as (_ & ? & _ & _ & ? & _).
Qed.

Lemma rangeDevices_keys t0 cs now :
  Device.IP <$> rangeDevices (GetDevices now (run cs (NewStore t0))) =
    (map_to_list (GetDevices now (run cs (NewStore t0))).1).*1.
Proof.
  destruct (GetDevices_reached t0 cs now) as [_ Hlook].
  unfold rangeDevices.
  assert (Hall : ∀ kv,
            kv ∈ map_to_list (GetDevices now (run cs (NewStore t0))).1 →
            ∃ d, (GetDevices now (run cs (NewStore t0))).2 !! kv.2 = Some d ∧
                 Device.IP d = kv.1).
  { intros [k p] Hkv%elem_of_map_to_list.
    destruct (Hlook _ _ Hkv) as (d & _ & Hp & Hip & _).
    eexists. split; [done|]. by rewrite snapshotDevice_IP. }
  induction (map_to_list _) as [|kv l IH]; [done|].
  destruct (Hall kv ltac:(by left)) as (d & Hd & Hip).
  simpl. rewrite Hd. simpl. rewrite Hip. f_equal.
  apply IH. intros kv' Hin. apply Hall. by right.
Qed.

Lemma length_rangeDevices t0 cs now :
  length (rangeDevices (GetDevices now (run cs (NewStore t0)))) =
    size (Devices (store (run cs (NewStore t0)))).
Proof.
  destruct (GetDevices_reached t0 cs now) as [Hdom _].
  rewrite <- (length_fmap Device.IP), rangeDevices_keys, length_fmap.
  by rewrite length_map_to_list, <- !size_dom, Hdom.
Qed.

Lemma foldl_count_active l : ∀ n,
  foldl (λ activeCount device,
           if Device.IsActive device then S activeCount else activeCount)
        n l =
    (n + length (filter (λ device, Device.IsActive device = true) l))%nat.
Proof.
  induction l as [|d l IH]; intros n; simpl; [lia|].
  rewrite filter_cons. destruct (Device.IsActive d) eqn:Ha.
  - rewrite decide_True by done. rewrite IH. simpl. lia.
  - rewrite decide_False by done. by rewrite IH.
Qed.

(** X21.  The device counts of the API, at time [now], from any state the
    store reaches.  [GetDevices] lists one device for each address ever
    sighted and [total] is their number.  [GetActiveDevices] lists, once
    each, exactly the stored devices that were last seen no more than five
    minutes before [now], unchanged; its [total] is their number and is
    never more than the number of stored devices.  [getLiveData] reports
    the same two numbers as [active_devices] and [total_devices]. *)
Theorem device_counts_of_the_api t0 cs now :
  let st := run cs (NewStore t0) in
  (GetDevicesList now st).2 = size (Devices (store st)) ∧
  NoDup (GetActiveDevices now st).1 ∧
  (∀ d, d ∈ (GetActiveDevices now st).1 ↔
        ∃ ip, deviceOf st ip = Some d ∧
              now - 5 * Minute <= Device.LastSeen d) ∧
  (GetActiveDevices now st).2 = length (GetActiveDevices now st).1 ∧
  ((GetActiveDevices now st).2 ≤ size (Devices (store st)))%nat ∧
  liveDeviceCounts now st =
    ((GetActiveDevices now st).2, (GetDevicesList now st).2).
Proof.
  intros st.
  destruct (GetDevices_reached t0 cs now) as [Hdom Hlook]. fold st in Hdom, Hlook.
  pose proof (rangeDevices_keys t0 cs now) as Hkeys. fold st in Hkeys.
  pose proof (length_rangeDevices t0 cs now) as Hlen. fold st in Hlen.
  assert (Hnd : NoDup (rangeDevices (GetDevices now st))).
  { apply (NoDup_fmap_1 Device.IP). rewrite Hkeys.
    apply NoDup_fst_map_to_list. }
  unfold GetDevicesList, GetActiveDevices, liveDeviceCounts. cbn [fst snd].
  split; [done|]. split; [by apply NoDup_filter|]. split; [|split; [done|]].
  - intros d. rewrite list_elem_of_filter. unfold rangeDevices.
    rewrite list_elem_of_omap. split.
    + intros (Hact & [k p] & Hkv%elem_of_map_to_list & Hp).
      destruct (Hlook _ _ Hkv) as (d0 & Hd0 & Hp' & _ & Ha0).
      simpl in Hp. rewrite Hp' in Hp. injection Hp as <-.
      unfold snapshotDevice, Before, Add in *.
      destruct (Device.LastSeen d0 <? now + - 5 * Minute) eqn:Hlt;
        [by rewrite Ha0 in Hact || done|].
      exists k. split; [done|]. apply Z.ltb_ge in Hlt. lia.
    + intros (ip & Hd & Hrecent).
      destruct (deref_Some_lookup _ _ _ _ Hd) as (q & Hq & _).
      assert (Hin : ip ∈ dom (GetDevices now st).1)
        by (rewrite Hdom; by eapply elem_of_dom_2).
      apply elem_of_dom in Hin as [p Hk].
      destruct (Hlook _ _ Hk) as (d0 & Hd0 & Hp' & _ & Ha0).
      rewrite Hd in Hd0. injection Hd0 as <-.
      assert (Hsnap : snapshotDevice (Add now (- 5 * Minute)) d = d).
      { unfold snapshotDevice, Before, Add.
        destruct (Device.LastSeen d <? now + - 5 * Minute) eqn:Hlt; [|done].
        apply Z.ltb_lt in Hlt. lia. }
      rewrite Hsnap in Hp'. split; [done|].
      exists (ip, p). split; [by apply elem_of_map_to_list|done].
  - split.
    + rewrite <- Hlen. apply length_filter.
    + rewrite foldl_count_active, Nat.add_0_l. f_equal.
      by rewrite Hlen, <- !size_dom, Hdom.
Qed.

Lemma device_counts_of_the_api_witness :
  (GetActiveDevices (5 * Minute) (run seenOnce (NewStore 0))).2 = 1%nat ∧
  (GetActiveDevices (5 * Minute + 1) (run seenOnce (NewStore 0))).2 = 0%nat.
Proof.
  destruct (device_counts_of_the_api 0 seenOnce (5 * Minute))
    as (_ & _ & _ & -> & _).
  destruct (device_counts_of_the_api 0 seenOnce (5 * Minute + 1))
    as (_ & _ & _ & -> & _).
  split; vm_compute; reflexivity.
Defined.

(** * Device discovery *)

(** ** [extractMAC] *)

Definition noSpace (s : string) : Prop :=
  Forall (λ c, isSpace c = false) (String.list_ascii_of_string s).

Lemma lowerByte_colon c : lowerByte c = ":"%char ↔ c = ":"%char.
Proof.
  destruct c as [[] [] [] [] [] [] [] []]; vm_compute; split; congruence.
Qed.

Lemma lowerByte_idemp c : lowerByte (lowerByte c) = lowerByte c.
Proof. by destruct c as [[] [] [] [] [] [] [] []]. Qed.

Lemma isSpace_lowerByte c : isSpace (lowerByte c) = isSpace c.
Proof. by destruct c as [[] [] [] [] [] [] [] []]. Qed.

Lemma isSpace_not_colon c : isSpace c = true → c ≠ ":"%char.
Proof. by intros Hc ->. Qed.

Lemma Count_ToLower s : Count (ToLower s) ":" = Count s ":".
Proof.
  induction s as [|c s IH]; [done|]. simpl. rewrite IH. f_equal.
  destruct (decide (c = ":"%char)) as [->|Hc]; [done|].
  rewrite decide_False; [done|]. by rewrite lowerByte_colon.
Qed.

Lemma ToLower_idemp s : ToLower (ToLower s) = ToLower s.
Proof.
  induction s as [|c s IH]; [done|]. simpl. by rewrite lowerByte_idemp, IH.
Qed.

Lemma noSpace_ToLower s : noSpace s → noSpace (ToLower s).
Proof.
  unfold noSpace. induction s as [|c s IH]; [done|]. simpl.
  intros [Hc Hs]%Forall_cons. constructor; [|by apply IH].
  by rewrite isSpace_lowerByte.
Qed.

Lemma Count_app s1 s2 c : Count (s1 +:+ s2) c = (Count s1 c + Count s2 c)%nat.
Proof. induction s1 as [|a s1 IH]; [done|]. simpl. rewrite IH. lia. Qed.

Lemma noSpace_snoc word c :
  noSpace word → isSpace c = false → noSpace (word +:+ String c "").
Proof.
  unfold noSpace. intros Hw Hc. rewrite list_ascii_of_string_app.
  apply Forall_app. split; [done|]. by repeat constructor.
Qed.

Lemma snoc_not_empty word c : word +:+ String c "" ≠ "".
Proof. by destruct word. Qed.

(** The fields are not empty and hold no space. *)
Lemma fieldsFrom_words s : ∀ word,
  noSpace word →
  Forall (λ w, w ≠ "" ∧ noSpace w) (fieldsFrom word s).
Proof.
  induction s as [|c s IH]; intros word Hw; simpl.
  - case_decide; [done|]. by repeat constructor.
  - destruct (isSpace c) eqn:Hc.
    + case_decide; [apply IH; constructor|].
      constructor; [done|]. apply IH. constructor.
    + apply IH. by apply noSpace_snoc.
Qed.

(** The separators are not colons: the colons of a text are those of its
    fields. *)
Lemma fieldsFrom_colons s : ∀ word,
  foldr (λ w n, Count w ":" + n)%nat 0%nat (fieldsFrom word s) =
    (Count word ":" + Count s ":")%nat.
Proof.
  induction s as [|c s IH]; intros word; simpl.
  - case_decide as Hw; [by rewrite Hw|]. simpl. lia.
  - destruct (isSpace c) eqn:Hc.
    + destruct (decide (c = ":"%char)) as [->|_]; [by vm_compute in Hc|].
      case_decide as Hw; [by rewrite IH, Hw|]. simpl. rewrite IH. simpl. lia.
    + rewrite IH, Count_app. simpl. lia.
Qed.

Lemma append_empty_r (s : string) : s +:+ "" = s.
Proof.
  induction s as [|a s IH]; [done|].
  change (String a s +:+ "") with (String a (s +:+ "")). by f_equal.
Qed.

Lemma append_snoc (s1 s2 : string) c :
  (s1 +:+ String c "") +:+ s2 = s1 +:+ String c s2.
Proof.
  induction s1 as [|a s1 IH]; [done|].
  change (String a ((s1 +:+ String c "") +:+ s2) =
          String a (s1 +:+ String c s2)).
  by f_equal.
Qed.

(** A word without a space is its own single field. *)
Lemma fieldsFrom_word s : ∀ word,
  noSpace s → word +:+ s ≠ "" → fieldsFrom word s = [word +:+ s].
Proof.
  induction s as [|c s IH]; intros word Hs Hne; simpl.
  - rewrite append_empty_r in *. by rewrite decide_False.
  - apply Forall_cons in Hs as [Hc Hs]. rewrite Hc.
    rewrite IH; [by rewrite append_snoc|done|by rewrite append_snoc].
Qed.

Lemma Count_le_total w (l : list string) :
  w ∈ l →
  (Count w ":" ≤ foldr (λ w n, Count w ":" + n)%nat 0%nat l)%nat.
Proof.
  induction l as [|w' l IH]; [by intros ?%elem_of_nil|].
  intros [->|Hin]%elem_of_cons; simpl; [lia|]. specialize (IH Hin). lia.
Qed.

Lemma firstMAC_cases words :
  firstMAC words = "" ∧ Forall (λ w, Count w ":" ≠ 5%nat) words ∨
  ∃ pre w post,
    words = pre ++ w :: post ∧
    Forall (λ v, Count v ":" ≠ 5%nat) pre ∧
    Count w ":" = 5%nat ∧ firstMAC words = ToLower w.
Proof.
  induction words as [|w words IH]; [by left|]. simpl.
  case_decide as Hw.
  - right. exists [], w, words. by repeat split.
  - destruct IH as [[-> Hall]|(pre & w' & post & -> & Hpre & Hc & ->)].
    + left. split; [done|]. by constructor.
    + right. exists (w :: pre), w', post. split; [done|].
      split; [by constructor|done].
Qed.

Lemma firstMAC_first pre w post :
  Forall (λ v, Count v ":" ≠ 5%nat) pre →
  Count w ":" = 5%nat →
  firstMAC (pre ++ w :: post) = ToLower w.
Proof.
  intros Hpre Hw. induction Hpre as [|v pre Hv _ IH]; simpl.
  - by rewrite decide_True.
  - by rewrite decide_False.
Qed.

Lemma five_colons_not_empty w :
  Count w ":" = 5%nat → ToLower w ≠ "".
Proof.
  intros Hw Hempty. rewrite <- (Count_ToLower w), Hempty in Hw. done.
Qed.

(** X22.  [extractMAC] returns the lower case of the first field of the
    line that holds exactly five colons, and the empty string when no field
    does.  In the first case the result is not empty, holds exactly five
    colons itself, no space and no upper-case letter, and [extractMAC] maps
    it to itself.  Nothing else about the field is looked at.  A line
    with fewer than five colons, as one whose address is written with
    dashes, gives the empty string. *)
Theorem extractMAC_five_colons s :
  (extractMAC s = "" ∧ Forall (λ w, Count w ":" ≠ 5%nat) (Fields s) ∨
   ∃ pre w post,
     Fields s = pre ++ w :: post ∧
     Forall (λ v, Count v ":" ≠ 5%nat) pre ∧
     Count w ":" = 5%nat ∧
     extractMAC s = ToLower w ∧
     extractMAC s ≠ "" ∧
     Count (extractMAC s) ":" = 5%nat ∧ noSpace (extractMAC s) ∧
     ToLower (extractMAC s) = extractMAC s) ∧
  (∀ pre w post,
     Fields s = pre ++ w :: post →
     Forall (λ v, Count v ":" ≠ 5%nat) pre →
     Count w ":" = 5%nat →
     extractMAC s = ToLower w ∧ extractMAC s ≠ "") ∧
  ((Count s ":" < 5)%nat → extractMAC s = "") ∧
  extractMAC (extractMAC s) = extractMAC s.
Proof.
  unfold extractMAC.
  pose proof (fieldsFrom_words s "" ltac:(constructor)) as Hwords.
  pose proof (fieldsFrom_colons s "") as Hcolons. simpl in Hcolons.
  fold (Fields s) in Hwords, Hcolons.
  assert (Hfirst : ∀ pre w post,
            Fields s = pre ++ w :: post →
            Forall (λ v, Count v ":" ≠ 5%nat) pre →
            Count w ":" = 5%nat →
            firstMAC (Fields s) = ToLower w ∧ firstMAC (Fields s) ≠ "").
  { intros pre w post -> Hpre Hw. rewrite (firstMAC_first pre w post Hpre Hw).
    split; [done|]. by apply five_colons_not_empty. }
  split; [|split; [exact Hfirst|]].
  - destruct (firstMAC_cases (Fields s))
      as [[Hnone Hall]|(pre & w & post & Hsplit & Hpre & Hc & Hw)];
      [by left|].
    right. exists pre, w, post.
    assert (Hin : w ∈ Fields s).
    { rewrite Hsplit. apply elem_of_app. right. by left. }
    rewrite Forall_forall in Hwords. destruct (Hwords w Hin) as [Hne Hns].
    rewrite Hw, ToLower_idemp, Count_ToLower.
    repeat split; try done.
    + by apply five_colons_not_empty.
    + by apply noSpace_ToLower.
  - destruct (firstMAC_cases (Fields s))
      as [[Hnone Hall]|(pre & w & post & Hsplit & Hpre & Hc & Hw)].
    { rewrite Hnone. by split. }
    assert (Hin : w ∈ Fields s).
    { rewrite Hsplit. apply elem_of_app. right. by left. }
    rewrite Forall_forall in Hwords. destruct (Hwords w Hin) as [Hne Hns].
    split.
    + intros Hlt. pose proof (Count_le_total w (Fields s) Hin). lia.
    + rewrite Hw. unfold Fields.
      rewrite (fieldsFrom_word (ToLower w) "");
        [|by apply noSpace_ToLower|simpl; by destruct w].
      change ("" +:+ ToLower w) with (ToLower w).
      cbn [firstMAC]. rewrite decide_True by by rewrite Count_ToLower.
      by rewrite ToLower_idemp.
Qed.

(** A line with two fields of five colons: the first one is taken. *)
Lemma extractMAC_five_colons_witness :
  extractMAC "? (10.0.0.7) at 00:1A:2B:3C:4D:5E [ether] 0a:0B:0c:0D:0e:0F" =
    "00:1a:2b:3c:4d:5e" ∧
  extractMAC "  10.0.0.7   00-1a-2b-3c-4d-5e   dynamic" = "".
Proof.
  split.
  - destruct (extractMAC_five_colons
                "? (10.0.0.7) at 00:1A:2B:3C:4D:5E [ether] 0a:0B:0c:0D:0e:0F")
      as (_ & Hfirst & _).
    destruct (Hfirst ["?"; "(10.0.0.7)"; "at"] "00:1A:2B:3C:4D:5E"
                ["[ether]"; "0a:0B:0c:0D:0e:0F"]) as [Hmac _].
    + vm_compute. reflexivity.
    + repeat constructor; vm_compute; discriminate.
    + vm_compute. reflexivity.
    + exact Hmac.
  - destruct (extractMAC_five_colons
                "  10.0.0.7   00-1a-2b-3c-4d-5e   dynamic") as (_ & _ & Hfew & _).
    apply Hfew. vm_compute. lia.
Defined.

(** ** [parseARPTable] *)

Lemma extractMAC_colons s :
  extractMAC s ≠ "" → Count (extractMAC s) ":" = 5%nat.
Proof.
  unfold extractMAC.
  destruct (firstMAC_cases (Fields s))
    as [[-> _]|(pre & w & post & _ & _ & Hc & ->)]; [done|].
  by rewrite Count_ToLower.
Qed.

(** What a table built from lines holds under a key. *)
Definition fromLine (parseIP : string → option string) (lines : list string)
    (ip : string) (d : DeviceInfo.t) : Prop :=
  DeviceInfo.IP d = ip ∧ ip ≠ "" ∧
  DeviceInfo.Hostname d = "" ∧
  Count (DeviceInfo.MAC d) ":" = 5%nat ∧
  ∃ line,
    line ∈ lines ∧
    (2 ≤ length (Fields line))%nat ∧
    extractIP parseIP (Fields line !!! 0%nat) = ip ∧
    extractMAC line = DeviceInfo.MAC d.

Lemma foldl_parseLine parseIP lines :
  map_Forall (fromLine parseIP lines) (foldl (parseLine parseIP) ∅ lines).
Proof.
  induction lines as [|line lines IH] using rev_ind.
  { apply map_Forall_empty. }
  rewrite foldl_app. cbn [foldl].
  assert (Hweak : map_Forall (fromLine parseIP (lines ++ [line]))
                    (foldl (parseLine parseIP) ∅ lines)).
  { intros ip d Hd. destruct (IH ip d Hd) as (? & ? & ? & ? & l & Hl & ?).
    repeat split; try done. exists l. split; [|done].
    apply elem_of_app. by left. }
  unfold parseLine at 1.
  case_decide as Hlen; [done|]. case_decide as Hboth; [|done].
  destruct Hboth as [Hip Hmac].
  apply map_Forall_insert_2; [|done].
  repeat split; try done; [by apply extractMAC_colons|].
  exists line. split; [apply elem_of_app; right; by left|].
  split; [lia|done].
Qed.

(** X23.  Every entry of the table [parseARPTable] returns comes from a
    line of the output with at least two fields, whose first field,
    stripped of parentheses, reads as an IP address, and which holds a
    field with exactly five colons: the entry is stored under the text of
    that address, carries it as [IP], the lower case of that field as
    [MAC], and an empty [Hostname].  A line whose first field is not an
    address, or that has no such field, adds nothing; when the command
    fails the table is empty. *)
Theorem parseARPTable_entries parseIP lines ip d :
  parseARPTable parseIP (Some lines) !! ip = Some d →
  parseARPTable parseIP None = ∅ ∧
  DeviceInfo.IP d = ip ∧ ip ≠ "" ∧
  DeviceInfo.Hostname d = "" ∧
  Count (DeviceInfo.MAC d) ":" = 5%nat ∧
  ∃ line,
    line ∈ lines ∧
    (2 ≤ length (Fields line))%nat ∧
    extractIP parseIP (Fields line !!! 0%nat) = ip ∧
    extractMAC line = DeviceInfo.MAC d.
Proof.
  intros Hd. split; [done|]. by apply (foldl_parseLine parseIP lines ip d).
Qed.

(** A reader of dotted addresses that knows two of them. *)
Definition twoAddresses (s : string) : option string :=
  if decide (s = "10.0.0.7") then Some "10.0.0.7"
  else if decide (s = "10.0.0.8") then Some "10.0.0.8"
  else None.

(** Output in the layout of [arp -a] on Linux, where the first field is
    the host name, and in a layout with the address first. *)
Definition arpOutput : list string :=
  ["? (10.0.0.7) at 00:1a:2b:3c:4d:5e [ether] on eth0";
   "(10.0.0.8) at AA:BB:CC:DD:EE:FF [ether] on eth0"].

Lemma parseARPTable_entries_witness :
  parseARPTable twoAddresses (Some arpOutput) !! "10.0.0.7" = None ∧
  ∃ d, parseARPTable twoAddresses (Some arpOutput) !! "10.0.0.8" = Some d ∧
       DeviceInfo.IP d = "10.0.0.8" ∧ DeviceInfo.Hostname d = "".
Proof.
  split; [vm_compute; reflexivity|].
  eexists. split; [vm_compute; reflexivity|].
  match goal with
  | |- DeviceInfo.IP ?d = _ ∧ _ =>
      destruct (parseARPTable_entries twoAddresses arpOutput "10.0.0.8" d
                  ltac:(vm_compute; reflexivity))
        as (_ & Hip & _ & Hhost & _)
  end.
  by rewrite Hip, Hhost.
Defined.

(** ** One round of discovery *)

Lemma foldl_addSwept active : ∀ devices ip,
  foldl addSwept devices active !! ip =
    match devices !! ip with
    | Some d => Some d
    | None =>
        if decide (ip ∈ active) then Some (DeviceInfo.mk ip "" "") else None
    end.
Proof.
  induction active as [|a active IH]; intros devices ip; cbn [foldl].
  { destruct (devices !! ip); [done|]. rewrite decide_False; [done|].
    apply not_elem_of_nil. }
  rewrite IH. unfold addSwept.
  destruct (decide (ip = a)) as [->|Hne].
  - destruct (devices !! a) as [d|] eqn:Ha.
    + by rewrite Ha.
    + rewrite lookup_insert_eq. rewrite decide_True; [done|by left].
  - assert (Hin : ip ∈ a :: active ↔ ip ∈ active).
    { rewrite elem_of_cons. tauto. }
    destruct (devices !! a) as [d|] eqn:Ha.
    + destruct (devices !! ip); [done|].
      destruct (decide (ip ∈ active)), (decide (ip ∈ a :: active)); tauto.
    + rewrite lookup_insert_ne by done.
      destruct (devices !! ip); [done|].
      destruct (decide (ip ∈ active)), (decide (ip ∈ a :: active)); tauto.
Qed.

(** The calls of the last loop, for devices found whose host name is still
    to be resolved. *)
Lemma updateDevices_run resolve clock (mac : string → string) l :
  Forall (λ kd, DeviceInfo.IP kd.2 = kd.1 ∧ DeviceInfo.Hostname kd.2 = "" ∧
                DeviceInfo.MAC kd.2 = mac kd.1) l →
  ∀ k t0 cs,
  ∃ cs',
    updateDevices resolve clock k l (run cs (NewStore t0)) =
      run (cs ++ cs') (NewStore t0) ∧
    omap deviceKey cs' = l.*1 ∧
    Forall (λ c, ∃ now ip,
                   c = CallUpdateDevice now ip (mac ip) (resolve ip)) cs'.
Proof.
  induction 1 as [|[key d] l (Hip & Hhost & Hmac) _ IH]; intros k t0 cs.
  { exists []. by rewrite app_nil_r. }
  cbn [updateDevices]. simpl in Hip, Hhost, Hmac.
  rewrite decide_True by done. cbn [DeviceInfo.setHostname DeviceInfo.IP
    DeviceInfo.MAC DeviceInfo.Hostname].
  rewrite Hip, Hmac.
  set (c := CallUpdateDevice (clock k) key (mac key) (resolve key)).
  change (UpdateDevice _ _ _ _ (run cs (NewStore t0)))
    with (call (run cs (NewStore t0)) c).
  rewrite <- run_snoc.
  destruct (IH (S k) t0 (cs ++ [c])) as (cs' & Hrun & Hkeys & Hall).
  exists (c :: cs'). rewrite Hrun, <- (assoc_L (++)). split; [done|].
  split; [simpl; by f_equal|]. constructor; [|done]. by eexists _, _.
Qed.

(** The addresses a sweep of [subnet] reports as active. *)
Definition activeIn (ping : string → bool) (subnet : option (IP * Z))
    : list string :=
  match subnet with
  | Some (addr, ones) =>
      filter (λ s, ping s)
        (ipString <$> filter hostLike (subnetAddrs addr ones))
  | None => []
  end.

(** A subnet the sweep gets through with [fuel] iterations. *)
Definition sweepable (fuel : nat) (subnet : option (IP * Z)) : Prop :=
  match subnet with
  | Some (addr, ones) =>
      isIPv4 addr ∧ 1 <= ones <= 32 ∧
      (Z.to_nat (2 ^ (32 - ones)) < fuel)%nat
  | None => True
  end.

(** The devices one round finds: those of the ARP table, then the
    addresses the sweep reports that the table does not hold. *)
Definition foundDevices (parseIP : string → option string)
    (output : option (list string)) (ping : string → bool)
    (subnet : option (IP * Z)) : gmap string DeviceInfo.t :=
  foldl addSwept (parseARPTable parseIP output) (activeIn ping subnet).

Lemma foundDevices_lookup parseIP output ping subnet ip :
  foundDevices parseIP output ping subnet !! ip =
    match parseARPTable parseIP output !! ip with
    | Some d => Some d
    | None =>
        if decide (ip ∈ activeIn ping subnet)
        then Some (DeviceInfo.mk ip "" "") else None
    end.
Proof. apply foldl_addSwept. Qed.

Lemma discoverDevices_run
    fuel parseIP output subnet ping resolve clock t0 cs :
  sweepable fuel subnet →
  ∃ cs',
    discoverDevices fuel parseIP output subnet ping resolve clock
        (run cs (NewStore t0)) =
      Some (run (cs ++ cs') (NewStore t0)) ∧
    omap deviceKey cs' =
      (map_to_list (foundDevices parseIP output ping subnet)).*1 ∧
    Forall (λ c, ∃ now ip,
              c = CallUpdateDevice now ip
                    (default "" (DeviceInfo.MAC <$>
                                   parseARPTable parseIP output !! ip))
                    (resolve ip)) cs'.
Proof.
  intros Hsub. unfold discoverDevices.
  set (arp := parseARPTable parseIP output).
  assert (Harp : map_Forall (λ ip d, DeviceInfo.IP d = ip ∧
                                     DeviceInfo.Hostname d = "") arp).
  { unfold arp. destruct output as [lines|]; [|apply map_Forall_empty].
    intros ip d Hd.
    by destruct (foldl_parseLine parseIP lines ip d Hd) as (? & _ & ? & _). }
  assert (Hswept :
    match subnet with
    | Some (addr, ones) =>
        swept ← pingSweep fuel ping addr ones;
        Some (foldl addSwept arp swept.2)
    | None => Some arp
    end = Some (foundDevices parseIP output ping subnet)).
  { destruct subnet as [[addr ones]|]; [|done].
    destruct Hsub as (Haddr & Hones & Hfuel).
    by rewrite pingSweep_from_network. }
  rewrite Hswept. clear Hswept. cbn [mbind option_bind].
  destruct (updateDevices_run resolve clock
              (λ ip, default "" (DeviceInfo.MAC <$> arp !! ip))
              (map_to_list (foundDevices parseIP output ping subnet)))
    with (k := 0%nat) (t0 := t0) (cs := cs) as (cs' & Hrun & Hkeys & Hall).
  { apply Forall_forall. intros [ip d] Hin%elem_of_map_to_list.
    rewrite foundDevices_lookup in Hin. fold arp in Hin. simpl.
    destruct (arp !! ip) as [d'|] eqn:Hd'.
    - injection Hin as <-. by destruct (Harp ip d' Hd').
    - case_decide; [|done]. by injection Hin as <-. }
  exists cs'. by rewrite Hrun.
Qed.

(** X24.  One round of [discoverDevices], from any state the store
    reaches, when the local subnet has a prefix length of 1 to 32 or there
    is none: the round ends and leaves the store as one call of
    [UpdateDevice] would for each address that is in the ARP table or
    answered the sweep, each address once, whatever the order of the map.
    The MAC handed over is the one of the ARP table, empty for an address
    only the sweep found; the host name handed over is always what
    [resolveHostname] gives for the address.  Nothing else of the store is
    written. *)
Theorem discoverDevices_updates_each_device_once
    fuel parseIP output subnet ping resolve clock t0 cs :
  sweepable fuel subnet →
  ∃ cs',
    discoverDevices fuel parseIP output subnet ping resolve clock
        (run cs (NewStore t0)) =
      Some (run (cs ++ cs') (NewStore t0)) ∧
    NoDup (omap deviceKey cs') ∧
    (∀ ip, ip ∈ omap deviceKey cs' ↔
           is_Some (parseARPTable parseIP output !! ip) ∨
           ip ∈ activeIn ping subnet) ∧
    Forall (λ c, ∃ now ip,
              c = CallUpdateDevice now ip
                    (default "" (DeviceInfo.MAC <$>
                                   parseARPTable parseIP output !! ip))
                    (resolve ip)) cs'.
Proof.
  intros Hsub.
  destruct (discoverDevices_run fuel parseIP output subnet ping resolve clock
              t0 cs Hsub) as (cs' & Hrun & Hkeys & Hall).
  exists cs'. rewrite Hkeys. split; [done|].
  split; [apply NoDup_fst_map_to_list|]. split; [|done].
  intros ip. rewrite list_elem_of_fmap. split.
  - intros ([ip' d] & -> & Hin%elem_of_map_to_list). simpl.
    rewrite foundDevices_lookup in Hin.
    destruct (parseARPTable parseIP output !! ip'); [left; by eexists|].
    case_decide; [by right|done].
  - intros Hip.
    assert (is_Some (foundDevices parseIP output ping subnet !! ip))
      as [d Hd].
    { rewrite foundDevices_lookup.
      destruct Hip as [[d' ->]|Hin]; [by eexists|].
      destruct (parseARPTable parseIP output !! ip); [by eexists|].
      rewrite decide_True by done. by eexists. }
    exists (ip, d). split; [done|]. by apply elem_of_map_to_list.
Qed.

Lemma discoverDevices_updates_each_device_once_witness :
  ∃ cs',
    discoverDevices 10 twoAddresses (Some arpOutput)
        (Some ([10; 0; 0; 5], 30)) (λ s, bool_decide (s = "10.0.0.6"))
        (λ _, "") (λ _, 5) (NewStore 0) =
      Some (run cs' (NewStore 0)) ∧
    NoDup (omap deviceKey cs') ∧
    "10.0.0.6" ∈ omap deviceKey cs' ∧ "10.0.0.8" ∈ omap deviceKey cs'.
Proof.
  destruct (discoverDevices_updates_each_device_once 10 twoAddresses
              (Some arpOutput) (Some ([10; 0; 0; 5], 30))
              (λ s, bool_decide (s = "10.0.0.6")) (λ _, "") (λ _, 5) 0 [])
    as (cs' & Hrun & Hnd & Hin & _).
  { split; [|split].
    - apply (bool_decide_unpack _). vm_compute. exact I.
    - lia.
    - vm_compute. lia. }
  exists cs'. split; [exact Hrun|]. split; [exact Hnd|]. split; apply Hin.
  - right. apply (bool_decide_unpack _). vm_compute. exact I.
  - left. vm_compute. by eexists.
Defined.

(** ** The CSV export *)

Lemma filter_key_absent {X} (l : list (string * X)) key :
  key ∉ l.*1 → filter (λ kv, kv.1 = key) l = [].
Proof.
  induction l as [|[k x] l IH]; [done|]. simpl.
  intros [Hne Hnot]%not_elem_of_cons. rewrite filter_cons.
  rewrite decide_False by (simpl; congruence). by apply IH.
Qed.

Lemma filter_key_present {X} (l : list (string * X)) key x :
  NoDup l.*1 → (key, x) ∈ l → filter (λ kv, kv.1 = key) l = [(key, x)].
Proof.
  induction l as [|[k y] l IH]; [by intros _ ?%elem_of_nil|]. simpl.
  intros [Hk Hnd]%NoDup_cons Hin. rewrite filter_cons.
  apply elem_of_cons in Hin as [[= <- <-]|Hin].
  - rewrite decide_True by done. f_equal. by apply filter_key_absent.
  - assert (k ≠ key).
    { intros ->. apply Hk. apply list_elem_of_fmap. by exists (key, x). }
    rewrite decide_False by done. by apply IH.
Qed.

Lemma filter_key_map_to_list {X} (m : gmap string X) key :
  filter (λ kv, kv.1 = key) (map_to_list m) =
    match m !! key with
    | Some x => [(key, x)]
    | None => []
    end.
Proof.
  destruct (m !! key) as [x|] eqn:Hk.
  - apply filter_key_present; [apply NoDup_fst_map_to_list|].
    by apply elem_of_map_to_list.
  - apply filter_key_absent. intros ([k x] & -> & Hin)%list_elem_of_fmap.
    apply elem_of_map_to_list in Hin. simpl in Hk. congruence.
Qed.

Lemma filter_all {A} (P : A → Prop) `{∀ x, Decision (P x)} (l : list A) :
  Forall P l → filter P l = l.
Proof.
  induction 1 as [|x l Hx _ IH]; [done|].
  by rewrite filter_cons, decide_True, IH.
Qed.

Lemma filter_none {A} (P : A → Prop) `{∀ x, Decision (P x)} (l : list A) :
  Forall (λ x, ¬ P x) l → filter P l = [].
Proof.
  induction 1 as [|x l Hx _ IH]; [done|].
  by rewrite filter_cons, decide_False, IH.
Qed.

(** The records of one key among the records made from a map, when every
    record carries its key in cell [n]. *)
Lemma records_of_key {X} (m : gmap string X)
    (g : string * X → list (list string)) (n : nat) key :
  (∀ k x row, m !! k = Some x → row ∈ g (k, x) → row !! n = Some k) →
  filter (λ row, row !! n = Some key) (map_to_list m ≫= g) =
    match m !! key with
    | Some x => g (key, x)
    | None => []
    end.
Proof.
  intros Hcell.
  assert (Hbind : ∀ l : list (string * X),
            (∀ kv, kv ∈ l → m !! kv.1 = Some kv.2) →
            filter (λ row, row !! n = Some key) (l ≫= g) =
              filter (λ kv, kv.1 = key) l ≫= g).
  { induction l as [|[k x] l IH]; intros Hl; [done|].
    assert (Hkx : m !! k = Some x) by (apply (Hl (k, x)); by left).
    rewrite bind_cons, filter_app, filter_cons, IH
      by (intros kv Hkv; apply Hl; by right).
    destruct (decide ((k, x).1 = key)) as [Hk|Hk]; simpl in Hk.
    - rewrite bind_cons. f_equal. apply filter_all, Forall_forall.
      intros row Hrow. by rewrite (Hcell k x row Hkx Hrow), Hk.
    - rewrite filter_none; [done|]. apply Forall_forall.
      intros row Hrow. rewrite (Hcell k x row Hkx Hrow). congruence. }
  rewrite Hbind, filter_key_map_to_list.
  - destruct (m !! key); [|done]. by rewrite bind_cons, app_nil_r.
  - intros [k x] Hin. by apply elem_of_map_to_list.
Qed.

(** X25.  [ExportCSV] writes the traffic export when no type is asked
    for, and answers 400 [Invalid export type] for any type other than
    [traffic], [devices] and [ping], spelled exactly so.  In the ping
    export the records of a host are its history: the latest 100 samples
    recorded for it at most, in order, each with the host in the second
    cell; in the traffic export the records of an interface are the points
    of its history, with the name of the interface in the second cell; the
    devices export has one record for each stored device.  Each export
    starts with its header. *)
Theorem ExportCSV_records f now t0 cs key :
  let st := run cs (NewStore t0) in
  ExportCSV f now "" st = ExportCSV f now "traffic" st ∧
  (∀ dataType,
     dataType ∉ [""; "traffic"; "devices"; "ping"] →
     ExportCSV f now dataType st = inr (400, "Invalid export type")) ∧
  (∃ records,
     ExportCSV f now "ping" st =
       inl (["Timestamp"; "Host"; "Latency_MS"; "Success"] :: records) ∧
     filter (λ row, row !! 1%nat = Some key) records =
       pingRow f key <$> lastN MaxHistoryPoints (pingSamples key cs)) ∧
  (∃ records,
     ExportCSV f now "traffic" st =
       inl (["Timestamp"; "Interface"; "Bytes_RX"; "Bytes_TX"; "Speed_RX";
             "Speed_TX"] :: records) ∧
     filter (λ row, row !! 1%nat = Some key) records =
       match ifaceOf st key with
       | Some iface => trafficRow f iface <$> InterfaceStats.History iface
       | None => []
       end) ∧
  (∃ records,
     ExportCSV f now "devices" st =
       inl (["IP"; "MAC"; "Hostname"; "Last_Seen"; "Active"] :: records) ∧
     length records = size (Devices (store st))).
Proof.
  intros st.
  destruct (run_wf cs (NewStore t0) (wf_NewStore t0)) as (Wi & Wd & Wp).
  fold st in Wi, Wd, Wp.
  split; [done|]. split; [|split; [|split]].
  - intros dataType Hnot. rewrite !not_elem_of_cons in Hnot.
    destruct Hnot as (H0 & H1 & H2 & H3 & _).
    unfold ExportCSV. cbv zeta.
    rewrite !(decide_False (P := dataType = "")) by done.
    rewrite (decide_False (P := dataType = "traffic")) by done.
    rewrite (decide_False (P := dataType = "devices")) by done.
    by rewrite (decide_False (P := dataType = "ping")).
  - eexists. split; [reflexivity|]. rewrite GetPings_pointers.
    rewrite (records_of_key _ _ 1 key).
    + pose proof (foldl_pingHistory key (pingSamples key cs)) as Hh.
      rewrite <- (pingOf_NewStore t0 key), <- run_pingOf in Hh
        by apply wf_NewStore.
      fold st in Hh. unfold pingOf, deref in Hh.
      destruct (PingResults (store st) !! key) as [p|] eqn:Hk; simpl in *.
      * destruct (pingObjs (heap st) !! p) as [ps|] eqn:Hp; simpl in *.
        -- by rewrite Hh.
        -- destruct (proj1 Wp _ _ Hk) as [ps Hps]. congruence.
      * by rewrite Hh.
    + intros k p row _. simpl. destruct (pingObjs (heap st) !! p); simpl.
      * by intros (pt & -> & _)%list_elem_of_fmap.
      * by intros ?%elem_of_nil.
  - eexists. split; [reflexivity|]. rewrite GetInterfaces_pointers.
    assert (Hname : ∀ k p i, Interfaces (store st) !! k = Some p →
              ifaceObjs (heap st) !! p = Some i → InterfaceStats.Name i = k).
    { intros k p i Hk Hp.
      assert (Hi : ifaceOf st k = Some i)
        by (unfold ifaceOf, deref; rewrite Hk; exact Hp).
      pose proof (run_ifaceStep_ind t0 cs k
                    (λ _ i, InterfaceStats.Name i = k)) as Hind.
      fold st in Hind. rewrite Hi in Hind.
      apply Hind; [done|]. intros readings i' r _ Hi'.
      by destruct (updateInterfaceStats_counters (rdNow r) (rdBytesRx r)
                     (rdBytesTx r) (rdPacketsRx r) (rdPacketsTx r) i')
        as (-> & _). }
    rewrite (records_of_key _ _ 1 key).
    + unfold ifaceOf, deref.
      destruct (Interfaces (store st) !! key) as [p|]; [|done]. simpl.
      by destruct (ifaceObjs (heap st) !! p).
    + intros k p row Hk. simpl.
      destruct (ifaceObjs (heap st) !! p) as [i|] eqn:Hp; simpl.
      * intros (pt & -> & _)%list_elem_of_fmap. simpl.
        by rewrite (Hname k p i).
      * by intros ?%elem_of_nil.
  - eexists. split; [reflexivity|].
    rewrite length_fmap. apply length_rangeDevices.
Qed.

Lemma ExportCSV_records_witness :
  ExportCSV (Formats.mk (λ _, "t") (λ _, "n") (λ _, "x")) 20 "Ping"
    (run mixedProbes (NewStore 0)) = inr (400, "Invalid export type").
Proof.
  destruct (ExportCSV_records (Formats.mk (λ _, "t") (λ _, "n") (λ _, "x"))
              20 0 mixedProbes "8.8.8.8") as (_ & Hbad & _).
  apply Hbad. apply (bool_decide_unpack _). vm_compute. exact I.
Defined.

(** * From the collectors to the API *)

(** X26.  What a collector has gathered is served.  After one round of the
    ping collector, from any state the store reaches, [GetPing] answers
    200 for every target.  After one round of the traffic collector,
    [GetInterfaceTraffic] answers 200 for every interface the operating
    system reported, the two loopback names apart.  After one round of
    discovery over a subnet the sweep gets through, the [GetDevices]
    handler lists a device for every address that was in the ARP table or
    answered the sweep. *)
Theorem collected_data_is_served t0 cs now :
  (∀ targets net clock log target,
     target ∈ targets →
     APIResponse.StatusCode
       (GetPing now target
          (collectPingData targets net clock log (run cs (NewStore t0))).2)
       = 200) ∧
  (∀ interfaces clock iface,
     iface ∈ interfaces →
     ¬ loopbackName (IOCountersStat.Name iface) →
     APIResponse.StatusCode
       (GetInterfaceTraffic now (IOCountersStat.Name iface)
          (collectTrafficStats (Some interfaces) clock
             (run cs (NewStore t0)))) = 200) ∧
  (∀ fuel parseIP output subnet ping resolve clock ip,
     sweepable fuel subnet →
     is_Some (parseARPTable parseIP output !! ip) ∨
       ip ∈ activeIn ping subnet →
     ∃ st' d,
       discoverDevices fuel parseIP output subnet ping resolve clock
         (run cs (NewStore t0)) = Some st' ∧
       d ∈ (GetDevicesList now st').1 ∧
       Device.IP d = ip).
Proof.
  split; [|split].
  - intros targets net clock log target Hin.
    destruct (collectPingData_run targets net clock log t0 cs)
      as (cs' & -> & Hkeys & _).
    rewrite GetPing_reached, decide_True; [done|].
    rewrite omap_app, Hkeys. apply elem_of_app. by right.
  - intros interfaces clock iface Hin Hname.
    destruct (updateInterfaces_run clock interfaces 0%nat t0 cs)
      as (cs' & Hrun & Hkeys & _).
    unfold collectTrafficStats. rewrite Hrun.
    rewrite GetInterfaceTraffic_reached, decide_True; [done|].
    rewrite omap_app, Hkeys. apply elem_of_app. right.
    apply list_elem_of_filter. split; [done|].
    apply list_elem_of_fmap. by exists iface.
  - intros fuel parseIP output subnet ping resolve clock ip Hsub Hip.
    destruct (discoverDevices_run fuel parseIP output subnet ping resolve
                clock t0 cs Hsub) as (cs' & Hrun & Hkeys & _).
    assert (Hkey : ip ∈ omap deviceKey (cs ++ cs')).
    { rewrite omap_app, Hkeys. apply elem_of_app. right.
      assert (is_Some (foundDevices parseIP output ping subnet !! ip))
        as [x Hx].
      { rewrite foundDevices_lookup.
        destruct Hip as [[d' ->]|Hin]; [by eexists|].
        destruct (parseARPTable parseIP output !! ip); [by eexists|].
        rewrite decide_True by done. by eexists. }
      apply list_elem_of_fmap. exists (ip, x).
      split; [done|]. by apply elem_of_map_to_list. }
    destruct (run_dom t0 (cs ++ cs')) as (_ & Hdom & _).
    destruct (GetDevices_reached t0 (cs ++ cs') now) as [Hsnap _].
    pose proof (rangeDevices_keys t0 (cs ++ cs') now) as Hrange.
    assert (Hlisted : ip ∈ Device.IP <$>
              rangeDevices (GetDevices now (run (cs ++ cs') (NewStore t0)))).
    { rewrite Hrange. apply list_elem_of_fmap.
      assert (Hin : ip ∈ dom (GetDevices now
                                (run (cs ++ cs') (NewStore t0))).1)
        by (rewrite Hsnap, Hdom; by apply elem_of_list_to_set).
      apply elem_of_dom in Hin as [p Hp].
      exists (ip, p). split; [done|]. by apply elem_of_map_to_list. }
    apply list_elem_of_fmap in Hlisted as (d & Hd & Hin).
    exists (run (cs ++ cs') (NewStore t0)), d. by split.
Qed.

Lemma collected_data_is_served_witness :
  APIResponse.StatusCode
    (GetPing 9 "10.0.0.9"
       (collectPingData ["10.0.0.1"; "10.0.0.9"] silent (λ _, 5) []
          (NewStore 0)).2) = 200.
Proof.
  destruct (collected_data_is_served 0 [] 9) as (Hping & _).
  apply (Hping ["10.0.0.1"; "10.0.0.9"] silent (λ _, 5) [] "10.0.0.9").
  apply (bool_decide_unpack _). vm_compute. exact I.
Defined.
